(** * app_excel: extraction of land-certificate records from register text

    A shallow embedding of the line-based extractor of [xuatdulieu.py]
    (normaliser, line classifier, person and parcel extractors, record
    segmenter and flattener), of the sibling flush of [appexcel2.py] /
    [app_excel3.py], of the older extractor of [app.py], and of the
    mixed-encoding rescuer of [test.py].

    Python [str] values are sequences of Unicode code points, modelled as
    [list Z].  The patterns of the source are written as terms of a small
    regular-expression type and run by a backtracking matcher with the
    priorities of Python's [re] (left alternative first, greedy or lazy
    repetition, leftmost match for [search]).

    Character repertoire.  Case mapping and canonical decomposition are
    tabulated for U+0000..U+024F (ASCII, Latin-1, Latin Extended-A and B)
    and U+1E00..U+1EFF (Latin Extended Additional, which holds the
    Vietnamese letters); code points of other scripts are mapped to
    themselves.  The word-character class [\w] is tabulated for the whole
    Basic Multilingual Plane; the decimal-digit class [\d] (Unicode 15)
    and the white-space class [\s] follow the Unicode tables Python uses
    for [str] patterns.  A property whose statement depends on how a line
    is classified is stated for lines of the repertoire [in_repertoire]:
    the two Latin ranges, the combining diacritical marks and the dashes,
    on which every table is complete. *)

From Stdlib Require Import String Ascii ZArith List Bool Lia.
Import ListNotations.
Local Open Scope string_scope.
Local Open Scope list_scope.
Local Open Scope Z_scope.

Set Implicit Arguments.

(* ================================================================== *)
(** * Part I: the model *)

(* ================================================================== *)
(** ** Text *)

Definition text := list Z.

Definition text_eq_dec : forall a b : text, {a = b} + {a <> b} :=
  list_eq_dec Z.eq_dec.

Fixpoint text_eqb (a b : text) : bool :=
  match a, b with
  | [], [] => true
  | x :: a', y :: b' => (x =? y) && text_eqb a' b'
  | _, _ => false
  end.

(** Python truthiness of a [str]. *)
Definition truthy (s : text) : bool :=
  match s with [] => false | _ => true end.

(** Source literals are written as UTF-8 byte strings and decoded. *)
Fixpoint bytes_of (s : string) : list Z :=
  match s with
  | EmptyString => []
  | String a s' => Z.of_nat (nat_of_ascii a) :: bytes_of s'
  end.

Definition cont (b : Z) : Z := Z.land b 63.

Fixpoint utf8_decode (bs : list Z) : text :=
  match bs with
  | [] => []
  | b :: tl =>
      if b <? 128 then b :: utf8_decode tl
      else if b <? 224 then
        match tl with
        | b1 :: tl1 => (Z.land b 31 * 64 + cont b1) :: utf8_decode tl1
        | _ => [b]
        end
      else if b <? 240 then
        match tl with
        | b1 :: b2 :: tl2 =>
            (Z.land b 15 * 4096 + cont b1 * 64 + cont b2) :: utf8_decode tl2
        | _ => [b]
        end
      else
        match tl with
        | b1 :: b2 :: b3 :: tl3 =>
            (Z.land b 7 * 262144 + cont b1 * 4096 + cont b2 * 64 + cont b3)
              :: utf8_decode tl3
        | _ => [b]
        end
  end.

Definition u (s : string) : text := utf8_decode (bytes_of s).

Definition chr (s : string) : Z := hd 0 (u s).

(* ================================================================== *)
(** ** Character classes *)

Definition between (lo hi c : Z) : bool := (lo <=? c) && (c <=? hi).

(** [str.isspace] / the class [\s] of a [str] pattern. *)
Definition is_space (c : Z) : bool :=
  between 9 13 c || between 28 32 c || (c =? 133) || (c =? 160)
  || (c =? 5760) || between 8192 8202 c || (c =? 8232) || (c =? 8233)
  || (c =? 8239) || (c =? 8287) || (c =? 12288).

(** First code points of the runs of ten decimal digits (category Nd). *)
Definition nd_zeros : list Z :=
  [ 0x0030; 0x0660; 0x06F0; 0x07C0; 0x0966; 0x09E6; 0x0A66; 0x0AE6;
    0x0B66; 0x0BE6; 0x0C66; 0x0CE6; 0x0D66; 0x0DE6; 0x0E50; 0x0ED0;
    0x0F20; 0x1040; 0x1090; 0x17E0; 0x1810; 0x1946; 0x19D0; 0x1A80;
    0x1A90; 0x1B50; 0x1BB0; 0x1C40; 0x1C50; 0xA620; 0xA8D0; 0xA900;
    0xA9D0; 0xA9F0; 0xAA50; 0xABF0; 0xFF10; 0x104A0; 0x10D30; 0x11066;
    0x110F0; 0x11136; 0x111D0; 0x112F0; 0x11450; 0x114D0; 0x11650;
    0x116C0; 0x11730; 0x118E0; 0x11950; 0x11C50; 0x11D50; 0x11DA0;
    0x11F50; 0x16A60; 0x16AC0; 0x16B50; 0x1D7CE; 0x1D7D8; 0x1D7E2;
    0x1D7EC; 0x1D7F6; 0x1E140; 0x1E2F0; 0x1E4F0; 0x1E950; 0x1FBF0 ].

(** The class [\d] of a [str] pattern: any Unicode decimal digit. *)
Definition is_digit (c : Z) : bool :=
  existsb (fun z => between z (z + 9) c) nd_zeros.

(** The class [[0-9]]. *)
Definition is_ascii_digit (c : Z) : bool := between 48 57 c.

Definition is_ascii_upper (c : Z) : bool := between 65 90 c.

Definition is_ascii_lower (c : Z) : bool := between 97 122 c.

Definition is_ascii_alpha (c : Z) : bool := is_ascii_upper c || is_ascii_lower c.

(** The runs of alphanumeric characters ([str.isalnum]) and the
    underscore in the Basic Multilingual Plane. *)
Definition word_ranges : list (Z * Z) :=
  [
    (0x0030, 0x0039); (0x0041, 0x005A); (0x005F, 0x005F); (0x0061, 0x007A);
    (0x00AA, 0x00AA); (0x00B2, 0x00B3); (0x00B5, 0x00B5); (0x00B9, 0x00BA);
    (0x00BC, 0x00BE); (0x00C0, 0x00D6); (0x00D8, 0x00F6); (0x00F8, 0x02C1);
    (0x02C6, 0x02D1); (0x02E0, 0x02E4); (0x02EC, 0x02EC); (0x02EE, 0x02EE);
    (0x0370, 0x0374); (0x0376, 0x0377); (0x037A, 0x037D); (0x037F, 0x037F);
    (0x0386, 0x0386); (0x0388, 0x038A); (0x038C, 0x038C); (0x038E, 0x03A1);
    (0x03A3, 0x03F5); (0x03F7, 0x0481); (0x048A, 0x052F); (0x0531, 0x0556);
    (0x0559, 0x0559); (0x0560, 0x0588); (0x05D0, 0x05EA); (0x05EF, 0x05F2);
    (0x0620, 0x064A); (0x0660, 0x0669); (0x066E, 0x066F); (0x0671, 0x06D3);
    (0x06D5, 0x06D5); (0x06E5, 0x06E6); (0x06EE, 0x06FC); (0x06FF, 0x06FF);
    (0x0710, 0x0710); (0x0712, 0x072F); (0x074D, 0x07A5); (0x07B1, 0x07B1);
    (0x07C0, 0x07EA); (0x07F4, 0x07F5); (0x07FA, 0x07FA); (0x0800, 0x0815);
    (0x081A, 0x081A); (0x0824, 0x0824); (0x0828, 0x0828); (0x0840, 0x0858);
    (0x0860, 0x086A); (0x0870, 0x0887); (0x0889, 0x088E); (0x08A0, 0x08C9);
    (0x0904, 0x0939); (0x093D, 0x093D); (0x0950, 0x0950); (0x0958, 0x0961);
    (0x0966, 0x096F); (0x0971, 0x0980); (0x0985, 0x098C); (0x098F, 0x0990);
    (0x0993, 0x09A8); (0x09AA, 0x09B0); (0x09B2, 0x09B2); (0x09B6, 0x09B9);
    (0x09BD, 0x09BD); (0x09CE, 0x09CE); (0x09DC, 0x09DD); (0x09DF, 0x09E1);
    (0x09E6, 0x09F1); (0x09F4, 0x09F9); (0x09FC, 0x09FC); (0x0A05, 0x0A0A);
    (0x0A0F, 0x0A10); (0x0A13, 0x0A28); (0x0A2A, 0x0A30); (0x0A32, 0x0A33);
    (0x0A35, 0x0A36); (0x0A38, 0x0A39); (0x0A59, 0x0A5C); (0x0A5E, 0x0A5E);
    (0x0A66, 0x0A6F); (0x0A72, 0x0A74); (0x0A85, 0x0A8D); (0x0A8F, 0x0A91);
    (0x0A93, 0x0AA8); (0x0AAA, 0x0AB0); (0x0AB2, 0x0AB3); (0x0AB5, 0x0AB9);
    (0x0ABD, 0x0ABD); (0x0AD0, 0x0AD0); (0x0AE0, 0x0AE1); (0x0AE6, 0x0AEF);
    (0x0AF9, 0x0AF9); (0x0B05, 0x0B0C); (0x0B0F, 0x0B10); (0x0B13, 0x0B28);
    (0x0B2A, 0x0B30); (0x0B32, 0x0B33); (0x0B35, 0x0B39); (0x0B3D, 0x0B3D);
    (0x0B5C, 0x0B5D); (0x0B5F, 0x0B61); (0x0B66, 0x0B6F); (0x0B71, 0x0B77);
    (0x0B83, 0x0B83); (0x0B85, 0x0B8A); (0x0B8E, 0x0B90); (0x0B92, 0x0B95);
    (0x0B99, 0x0B9A); (0x0B9C, 0x0B9C); (0x0B9E, 0x0B9F); (0x0BA3, 0x0BA4);
    (0x0BA8, 0x0BAA); (0x0BAE, 0x0BB9); (0x0BD0, 0x0BD0); (0x0BE6, 0x0BF2);
    (0x0C05, 0x0C0C); (0x0C0E, 0x0C10); (0x0C12, 0x0C28); (0x0C2A, 0x0C39);
    (0x0C3D, 0x0C3D); (0x0C58, 0x0C5A); (0x0C5D, 0x0C5D); (0x0C60, 0x0C61);
    (0x0C66, 0x0C6F); (0x0C78, 0x0C7E); (0x0C80, 0x0C80); (0x0C85, 0x0C8C);
    (0x0C8E, 0x0C90); (0x0C92, 0x0CA8); (0x0CAA, 0x0CB3); (0x0CB5, 0x0CB9);
    (0x0CBD, 0x0CBD); (0x0CDD, 0x0CDE); (0x0CE0, 0x0CE1); (0x0CE6, 0x0CEF);
    (0x0CF1, 0x0CF2); (0x0D04, 0x0D0C); (0x0D0E, 0x0D10); (0x0D12, 0x0D3A);
    (0x0D3D, 0x0D3D); (0x0D4E, 0x0D4E); (0x0D54, 0x0D56); (0x0D58, 0x0D61);
    (0x0D66, 0x0D78); (0x0D7A, 0x0D7F); (0x0D85, 0x0D96); (0x0D9A, 0x0DB1);
    (0x0DB3, 0x0DBB); (0x0DBD, 0x0DBD); (0x0DC0, 0x0DC6); (0x0DE6, 0x0DEF);
    (0x0E01, 0x0E30); (0x0E32, 0x0E33); (0x0E40, 0x0E46); (0x0E50, 0x0E59);
    (0x0E81, 0x0E82); (0x0E84, 0x0E84); (0x0E86, 0x0E8A); (0x0E8C, 0x0EA3);
    (0x0EA5, 0x0EA5); (0x0EA7, 0x0EB0); (0x0EB2, 0x0EB3); (0x0EBD, 0x0EBD);
    (0x0EC0, 0x0EC4); (0x0EC6, 0x0EC6); (0x0ED0, 0x0ED9); (0x0EDC, 0x0EDF);
    (0x0F00, 0x0F00); (0x0F20, 0x0F33); (0x0F40, 0x0F47); (0x0F49, 0x0F6C);
    (0x0F88, 0x0F8C); (0x1000, 0x102A); (0x103F, 0x1049); (0x1050, 0x1055);
    (0x105A, 0x105D); (0x1061, 0x1061); (0x1065, 0x1066); (0x106E, 0x1070);
    (0x1075, 0x1081); (0x108E, 0x108E); (0x1090, 0x1099); (0x10A0, 0x10C5);
    (0x10C7, 0x10C7); (0x10CD, 0x10CD); (0x10D0, 0x10FA); (0x10FC, 0x1248);
    (0x124A, 0x124D); (0x1250, 0x1256); (0x1258, 0x1258); (0x125A, 0x125D);
    (0x1260, 0x1288); (0x128A, 0x128D); (0x1290, 0x12B0); (0x12B2, 0x12B5);
    (0x12B8, 0x12BE); (0x12C0, 0x12C0); (0x12C2, 0x12C5); (0x12C8, 0x12D6);
    (0x12D8, 0x1310); (0x1312, 0x1315); (0x1318, 0x135A); (0x1369, 0x137C);
    (0x1380, 0x138F); (0x13A0, 0x13F5); (0x13F8, 0x13FD); (0x1401, 0x166C);
    (0x166F, 0x167F); (0x1681, 0x169A); (0x16A0, 0x16EA); (0x16EE, 0x16F8);
    (0x1700, 0x1711); (0x171F, 0x1731); (0x1740, 0x1751); (0x1760, 0x176C);
    (0x176E, 0x1770); (0x1780, 0x17B3); (0x17D7, 0x17D7); (0x17DC, 0x17DC);
    (0x17E0, 0x17E9); (0x17F0, 0x17F9); (0x1810, 0x1819); (0x1820, 0x1878);
    (0x1880, 0x1884); (0x1887, 0x18A8); (0x18AA, 0x18AA); (0x18B0, 0x18F5);
    (0x1900, 0x191E); (0x1946, 0x196D); (0x1970, 0x1974); (0x1980, 0x19AB);
    (0x19B0, 0x19C9); (0x19D0, 0x19DA); (0x1A00, 0x1A16); (0x1A20, 0x1A54);
    (0x1A80, 0x1A89); (0x1A90, 0x1A99); (0x1AA7, 0x1AA7); (0x1B05, 0x1B33);
    (0x1B45, 0x1B4C); (0x1B50, 0x1B59); (0x1B83, 0x1BA0); (0x1BAE, 0x1BE5);
    (0x1C00, 0x1C23); (0x1C40, 0x1C49); (0x1C4D, 0x1C7D); (0x1C80, 0x1C88);
    (0x1C90, 0x1CBA); (0x1CBD, 0x1CBF); (0x1CE9, 0x1CEC); (0x1CEE, 0x1CF3);
    (0x1CF5, 0x1CF6); (0x1CFA, 0x1CFA); (0x1D00, 0x1DBF); (0x1E00, 0x1F15);
    (0x1F18, 0x1F1D); (0x1F20, 0x1F45); (0x1F48, 0x1F4D); (0x1F50, 0x1F57);
    (0x1F59, 0x1F59); (0x1F5B, 0x1F5B); (0x1F5D, 0x1F5D); (0x1F5F, 0x1F7D);
    (0x1F80, 0x1FB4); (0x1FB6, 0x1FBC); (0x1FBE, 0x1FBE); (0x1FC2, 0x1FC4);
    (0x1FC6, 0x1FCC); (0x1FD0, 0x1FD3); (0x1FD6, 0x1FDB); (0x1FE0, 0x1FEC);
    (0x1FF2, 0x1FF4); (0x1FF6, 0x1FFC); (0x2070, 0x2071); (0x2074, 0x2079);
    (0x207F, 0x2089); (0x2090, 0x209C); (0x2102, 0x2102); (0x2107, 0x2107);
    (0x210A, 0x2113); (0x2115, 0x2115); (0x2119, 0x211D); (0x2124, 0x2124);
    (0x2126, 0x2126); (0x2128, 0x2128); (0x212A, 0x212D); (0x212F, 0x2139);
    (0x213C, 0x213F); (0x2145, 0x2149); (0x214E, 0x214E); (0x2150, 0x2189);
    (0x2460, 0x249B); (0x24EA, 0x24FF); (0x2776, 0x2793); (0x2C00, 0x2CE4);
    (0x2CEB, 0x2CEE); (0x2CF2, 0x2CF3); (0x2CFD, 0x2CFD); (0x2D00, 0x2D25);
    (0x2D27, 0x2D27); (0x2D2D, 0x2D2D); (0x2D30, 0x2D67); (0x2D6F, 0x2D6F);
    (0x2D80, 0x2D96); (0x2DA0, 0x2DA6); (0x2DA8, 0x2DAE); (0x2DB0, 0x2DB6);
    (0x2DB8, 0x2DBE); (0x2DC0, 0x2DC6); (0x2DC8, 0x2DCE); (0x2DD0, 0x2DD6);
    (0x2DD8, 0x2DDE); (0x2E2F, 0x2E2F); (0x3005, 0x3007); (0x3021, 0x3029);
    (0x3031, 0x3035); (0x3038, 0x303C); (0x3041, 0x3096); (0x309D, 0x309F);
    (0x30A1, 0x30FA); (0x30FC, 0x30FF); (0x3105, 0x312F); (0x3131, 0x318E);
    (0x3192, 0x3195); (0x31A0, 0x31BF); (0x31F0, 0x31FF); (0x3220, 0x3229);
    (0x3248, 0x324F); (0x3251, 0x325F); (0x3280, 0x3289); (0x32B1, 0x32BF);
    (0x3400, 0x4DBF); (0x4E00, 0xA48C); (0xA4D0, 0xA4FD); (0xA500, 0xA60C);
    (0xA610, 0xA62B); (0xA640, 0xA66E); (0xA67F, 0xA69D); (0xA6A0, 0xA6EF);
    (0xA717, 0xA71F); (0xA722, 0xA788); (0xA78B, 0xA7CA); (0xA7D0, 0xA7D1);
    (0xA7D3, 0xA7D3); (0xA7D5, 0xA7D9); (0xA7F2, 0xA801); (0xA803, 0xA805);
    (0xA807, 0xA80A); (0xA80C, 0xA822); (0xA830, 0xA835); (0xA840, 0xA873);
    (0xA882, 0xA8B3); (0xA8D0, 0xA8D9); (0xA8F2, 0xA8F7); (0xA8FB, 0xA8FB);
    (0xA8FD, 0xA8FE); (0xA900, 0xA925); (0xA930, 0xA946); (0xA960, 0xA97C);
    (0xA984, 0xA9B2); (0xA9CF, 0xA9D9); (0xA9E0, 0xA9E4); (0xA9E6, 0xA9FE);
    (0xAA00, 0xAA28); (0xAA40, 0xAA42); (0xAA44, 0xAA4B); (0xAA50, 0xAA59);
    (0xAA60, 0xAA76); (0xAA7A, 0xAA7A); (0xAA7E, 0xAAAF); (0xAAB1, 0xAAB1);
    (0xAAB5, 0xAAB6); (0xAAB9, 0xAABD); (0xAAC0, 0xAAC0); (0xAAC2, 0xAAC2);
    (0xAADB, 0xAADD); (0xAAE0, 0xAAEA); (0xAAF2, 0xAAF4); (0xAB01, 0xAB06);
    (0xAB09, 0xAB0E); (0xAB11, 0xAB16); (0xAB20, 0xAB26); (0xAB28, 0xAB2E);
    (0xAB30, 0xAB5A); (0xAB5C, 0xAB69); (0xAB70, 0xABE2); (0xABF0, 0xABF9);
    (0xAC00, 0xD7A3); (0xD7B0, 0xD7C6); (0xD7CB, 0xD7FB); (0xF900, 0xFA6D);
    (0xFA70, 0xFAD9); (0xFB00, 0xFB06); (0xFB13, 0xFB17); (0xFB1D, 0xFB1D);
    (0xFB1F, 0xFB28); (0xFB2A, 0xFB36); (0xFB38, 0xFB3C); (0xFB3E, 0xFB3E);
    (0xFB40, 0xFB41); (0xFB43, 0xFB44); (0xFB46, 0xFBB1); (0xFBD3, 0xFD3D);
    (0xFD50, 0xFD8F); (0xFD92, 0xFDC7); (0xFDF0, 0xFDFB); (0xFE70, 0xFE74);
    (0xFE76, 0xFEFC); (0xFF10, 0xFF19); (0xFF21, 0xFF3A); (0xFF41, 0xFF5A);
    (0xFF66, 0xFFBE); (0xFFC2, 0xFFC7); (0xFFCA, 0xFFCF); (0xFFD2, 0xFFD7);
    (0xFFDA, 0xFFDC) ].

(** The class [\w] of a [str] pattern, which also decides [\b]. *)
Definition is_word (c : Z) : bool :=
  is_digit c || existsb (fun r => between (fst r) (snd r) c) word_ranges.

(** Nonspacing marks (category Mn) that can follow a Latin base letter. *)
Definition is_Mn (c : Z) : bool :=
  between 0x300 0x36F c || between 0x1AB0 0x1ABD c || between 0x1DC0 0x1DFF c
  || between 0x20D0 0x20DC c || between 0xFE20 0xFE2F c.

(** Lookup in a table indexed by code point. *)
Fixpoint assoc {A : Type} (tbl : list (Z * A)) (c : Z) : option A :=
  match tbl with
  | [] => None
  | (k, v) :: tl => if c =? k then Some v else assoc tl c
  end.

(** Lower-case forms of the cased letters of Latin Extended-B. *)
Definition lower_ext_b : list (Z * Z) :=
  [
    (385,595); (386,387); (388,389); (390,596); (391,392); (393,598);
    (394,599); (395,396); (398,477); (399,601); (400,603); (401,402);
    (403,608); (404,611); (406,617); (407,616); (408,409); (412,623);
    (413,626); (415,629); (416,417); (418,419); (420,421); (422,640);
    (423,424); (425,643); (428,429); (430,648); (431,432); (433,650);
    (434,651); (435,436); (437,438); (439,658); (440,441); (444,445);
    (452,454); (453,454); (455,457); (456,457); (458,460); (459,460);
    (461,462); (463,464); (465,466); (467,468); (469,470); (471,472);
    (473,474); (475,476); (478,479); (480,481); (482,483); (484,485);
    (486,487); (488,489); (490,491); (492,493); (494,495); (497,499);
    (498,499); (500,501); (502,405); (503,447); (504,505); (506,507);
    (508,509); (510,511); (512,513); (514,515); (516,517); (518,519);
    (520,521); (522,523); (524,525); (526,527); (528,529); (530,531);
    (532,533); (534,535); (536,537); (538,539); (540,541); (542,543);
    (544,414); (546,547); (548,549); (550,551); (552,553); (554,555);
    (556,557); (558,559); (560,561); (562,563); (570,11365); (571,572);
    (573,410); (574,11366); (577,578); (579,384); (580,649); (581,652);
    (582,583); (584,585); (586,587); (588,589); (590,591) ].

(** Upper-case forms of the cased letters of Latin Extended-B. *)
Definition upper_ext_b : list (Z * Z) :=
  [
    (384,579); (387,386); (389,388); (392,391); (396,395); (402,401);
    (405,502); (409,408); (410,573); (414,544); (417,416); (419,418);
    (421,420); (424,423); (429,428); (432,431); (436,435); (438,437);
    (441,440); (445,444); (447,503); (453,452); (454,452); (456,455);
    (457,455); (459,458); (460,458); (462,461); (464,463); (466,465);
    (468,467); (470,469); (472,471); (474,473); (476,475); (477,398);
    (479,478); (481,480); (483,482); (485,484); (487,486); (489,488);
    (491,490); (493,492); (495,494); (498,497); (499,497); (501,500);
    (505,504); (507,506); (509,508); (511,510); (513,512); (515,514);
    (517,516); (519,518); (521,520); (523,522); (525,524); (527,526);
    (529,528); (531,530); (533,532); (535,534); (537,536); (539,538);
    (541,540); (543,542); (547,546); (549,548); (551,550); (553,552);
    (555,554); (557,556); (559,558); (561,560); (563,562); (572,571);
    (575,11390); (576,11391); (578,577); (583,582); (585,584); (587,586);
    (589,588); (591,590) ].

(** Upper-case forms of the lower-case letters of other blocks whose
    capital is a letter of Latin Extended-B. *)
Definition upper_far : list (Z * Z) :=
  [
    (595,385); (596,390); (598,393); (599,394); (601,399); (603,400);
    (608,403); (611,404); (616,407); (617,406); (623,412); (626,413);
    (629,415); (640,422); (643,425); (648,430); (649,580); (650,433);
    (651,434); (652,581); (658,439); (11365,570); (11366,574) ].

(** Simple lower-case mapping. *)
Definition lower (c : Z) : Z :=
  if is_ascii_upper c then c + 32
  else if between 0xC0 0xDE c && negb (c =? 0xD7) then c + 32
  else if c =? 0x130 then 0x69
  else if c =? 0x178 then 0xFF
  else if (between 0x100 0x137 c || between 0x14A 0x177 c) && Z.even c then c + 1
  else if (between 0x139 0x148 c || between 0x179 0x17E c) && Z.odd c then c + 1
  else if between 0x180 0x24F c then
    match assoc lower_ext_b c with Some l => l | None => c end
  else if c =? 0x1E9E then 0xDF
  else if (between 0x1E00 0x1E95 c || between 0x1EA0 0x1EFF c) && Z.even c then c + 1
  else if c =? 0x212A then 0x6B
  else c.

(** Simple upper-case mapping. *)
Definition upper (c : Z) : Z :=
  if is_ascii_lower c then c - 32
  else if between 0xE0 0xFE c && negb (c =? 0xF7) then c - 32
  else if c =? 0xB5 then 0x39C
  else if c =? 0x345 then 0x399
  else if c =? 0xFF then 0x178
  else if c =? 0x131 then 0x49
  else if c =? 0x17F then 0x53
  else if (between 0x100 0x137 c || between 0x14A 0x177 c) && Z.odd c then c - 1
  else if (between 0x139 0x148 c || between 0x179 0x17E c) && Z.even c then c - 1
  else if between 0x180 0x24F c then
    match assoc upper_ext_b c with Some l => l | None => c end
  else if c =? 0x1E9B then 0x1E60
  else if (between 0x1E00 0x1E95 c || between 0x1EA0 0x1EFF c) && Z.odd c then c - 1
  else match assoc upper_far c with Some l => l | None => c end.

(** [str.lower] and [str.upper], with the full mappings that lengthen. *)
Definition str_lower (s : text) : text :=
  flat_map (fun c => if c =? 0x130 then [0x69; 0x307] else [lower c]) s.

(** The upper-case forms that are longer than one character. *)
Definition upper_long : list (Z * text) :=
  [ (0xDF, [0x53; 0x53]); (0x149, [0x2BC; 0x4E]); (0x1F0, [0x4A; 0x30C]);
    (0x1E96, [0x48; 0x331]); (0x1E97, [0x54; 0x308]);
    (0x1E98, [0x57; 0x30A]); (0x1E99, [0x59; 0x30A]);
    (0x1E9A, [0x41; 0x2BE]) ].

Definition str_upper (s : text) : text :=
  flat_map (fun c =>
    match assoc upper_long c with Some l => l | None => [upper c] end) s.

(** Case folding of the matcher under [re.IGNORECASE]: lower-casing, with
    the two extra equivalences of [sre] that touch the source's patterns
    (dotless i with i, long s with s). *)
Definition cfold (c : Z) : Z :=
  let l := lower c in
  if l =? 0x131 then 0x69 else if l =? 0x17F then 0x73 else l.

(* ================================================================== *)
(** ** String helpers of the Python runtime *)

(** [s.replace(a, b)] for single characters. *)
Definition replace_char (a b : Z) (s : text) : text :=
  map (fun c => if c =? a then b else c) s.

(** [s.replace(a, '')] for a single character. *)
Definition remove_char (a : Z) (s : text) : text :=
  filter (fun c => negb (c =? a)) s.

(** [re.sub(r'C+', ' ', s)] for a character class [C]: every maximal run
    of characters of the class becomes one space. *)
Fixpoint sub_runs (p : Z -> bool) (inrun : bool) (s : text) : text :=
  match s with
  | [] => []
  | c :: tl =>
      if p c then (if inrun then sub_runs p true tl else 32 :: sub_runs p true tl)
      else c :: sub_runs p false tl
  end.

Fixpoint lstrip (p : Z -> bool) (s : text) : text :=
  match s with
  | [] => []
  | c :: tl => if p c then lstrip p tl else s
  end.

Definition rstrip (p : Z -> bool) (s : text) : text := rev (lstrip p (rev s)).

(** [s.strip()] is [strip is_space s]; [s.strip(chars)] is
    [strip (one_of chars) s]. *)
Definition strip (p : Z -> bool) (s : text) : text := rstrip p (lstrip p s).

Definition one_of (cs : text) (c : Z) : bool := existsb (Z.eqb c) cs.

(** [needle in hay]. *)
Fixpoint is_prefix (a s : text) : bool :=
  match a, s with
  | [], _ => true
  | x :: a', y :: s' => (x =? y) && is_prefix a' s'
  | _ :: _, [] => false
  end.

Fixpoint contains (needle hay : text) : bool :=
  is_prefix needle hay ||
  match hay with
  | [] => false
  | _ :: tl => contains needle tl
  end.

(* ================================================================== *)
(** ** Canonical decomposition and accent stripping *)

(** Canonical decompositions (NFD) of the letters of U+00C0..U+024F and
    U+1E00..U+1EFF that have one: base letter, then combining marks. *)
Definition nfd_table : list (Z * text) :=
  [
    (192,[65;768]); (193,[65;769]); (194,[65;770]); (195,[65;771]);
    (196,[65;776]); (197,[65;778]); (199,[67;807]); (200,[69;768]);
    (201,[69;769]); (202,[69;770]); (203,[69;776]); (204,[73;768]);
    (205,[73;769]); (206,[73;770]); (207,[73;776]); (209,[78;771]);
    (210,[79;768]); (211,[79;769]); (212,[79;770]); (213,[79;771]);
    (214,[79;776]); (217,[85;768]); (218,[85;769]); (219,[85;770]);
    (220,[85;776]); (221,[89;769]); (224,[97;768]); (225,[97;769]);
    (226,[97;770]); (227,[97;771]); (228,[97;776]); (229,[97;778]);
    (231,[99;807]); (232,[101;768]); (233,[101;769]); (234,[101;770]);
    (235,[101;776]); (236,[105;768]); (237,[105;769]); (238,[105;770]);
    (239,[105;776]); (241,[110;771]); (242,[111;768]); (243,[111;769]);
    (244,[111;770]); (245,[111;771]); (246,[111;776]); (249,[117;768]);
    (250,[117;769]); (251,[117;770]); (252,[117;776]); (253,[121;769]);
    (255,[121;776]); (256,[65;772]); (257,[97;772]); (258,[65;774]);
    (259,[97;774]); (260,[65;808]); (261,[97;808]); (262,[67;769]);
    (263,[99;769]); (264,[67;770]); (265,[99;770]); (266,[67;775]);
    (267,[99;775]); (268,[67;780]); (269,[99;780]); (270,[68;780]);
    (271,[100;780]); (274,[69;772]); (275,[101;772]); (276,[69;774]);
    (277,[101;774]); (278,[69;775]); (279,[101;775]); (280,[69;808]);
    (281,[101;808]); (282,[69;780]); (283,[101;780]); (284,[71;770]);
    (285,[103;770]); (286,[71;774]); (287,[103;774]); (288,[71;775]);
    (289,[103;775]); (290,[71;807]); (291,[103;807]); (292,[72;770]);
    (293,[104;770]); (296,[73;771]); (297,[105;771]); (298,[73;772]);
    (299,[105;772]); (300,[73;774]); (301,[105;774]); (302,[73;808]);
    (303,[105;808]); (304,[73;775]); (308,[74;770]); (309,[106;770]);
    (310,[75;807]); (311,[107;807]); (313,[76;769]); (314,[108;769]);
    (315,[76;807]); (316,[108;807]); (317,[76;780]); (318,[108;780]);
    (323,[78;769]); (324,[110;769]); (325,[78;807]); (326,[110;807]);
    (327,[78;780]); (328,[110;780]); (332,[79;772]); (333,[111;772]);
    (334,[79;774]); (335,[111;774]); (336,[79;779]); (337,[111;779]);
    (340,[82;769]); (341,[114;769]); (342,[82;807]); (343,[114;807]);
    (344,[82;780]); (345,[114;780]); (346,[83;769]); (347,[115;769]);
    (348,[83;770]); (349,[115;770]); (350,[83;807]); (351,[115;807]);
    (352,[83;780]); (353,[115;780]); (354,[84;807]); (355,[116;807]);
    (356,[84;780]); (357,[116;780]); (360,[85;771]); (361,[117;771]);
    (362,[85;772]); (363,[117;772]); (364,[85;774]); (365,[117;774]);
    (366,[85;778]); (367,[117;778]); (368,[85;779]); (369,[117;779]);
    (370,[85;808]); (371,[117;808]); (372,[87;770]); (373,[119;770]);
    (374,[89;770]); (375,[121;770]); (376,[89;776]); (377,[90;769]);
    (378,[122;769]); (379,[90;775]); (380,[122;775]); (381,[90;780]);
    (382,[122;780]); (416,[79;795]); (417,[111;795]); (431,[85;795]);
    (432,[117;795]); (461,[65;780]); (462,[97;780]); (463,[73;780]);
    (464,[105;780]); (465,[79;780]); (466,[111;780]); (467,[85;780]);
    (468,[117;780]); (469,[85;776;772]); (470,[117;776;772]);
    (471,[85;776;769]); (472,[117;776;769]); (473,[85;776;780]);
    (474,[117;776;780]); (475,[85;776;768]); (476,[117;776;768]);
    (478,[65;776;772]); (479,[97;776;772]); (480,[65;775;772]);
    (481,[97;775;772]); (482,[198;772]); (483,[230;772]); (486,[71;780]);
    (487,[103;780]); (488,[75;780]); (489,[107;780]); (490,[79;808]);
    (491,[111;808]); (492,[79;808;772]); (493,[111;808;772]);
    (494,[439;780]); (495,[658;780]); (496,[106;780]); (500,[71;769]);
    (501,[103;769]); (504,[78;768]); (505,[110;768]); (506,[65;778;769]);
    (507,[97;778;769]); (508,[198;769]); (509,[230;769]); (510,[216;769]);
    (511,[248;769]); (512,[65;783]); (513,[97;783]); (514,[65;785]);
    (515,[97;785]); (516,[69;783]); (517,[101;783]); (518,[69;785]);
    (519,[101;785]); (520,[73;783]); (521,[105;783]); (522,[73;785]);
    (523,[105;785]); (524,[79;783]); (525,[111;783]); (526,[79;785]);
    (527,[111;785]); (528,[82;783]); (529,[114;783]); (530,[82;785]);
    (531,[114;785]); (532,[85;783]); (533,[117;783]); (534,[85;785]);
    (535,[117;785]); (536,[83;806]); (537,[115;806]); (538,[84;806]);
    (539,[116;806]); (542,[72;780]); (543,[104;780]); (550,[65;775]);
    (551,[97;775]); (552,[69;807]); (553,[101;807]); (554,[79;776;772]);
    (555,[111;776;772]); (556,[79;771;772]); (557,[111;771;772]);
    (558,[79;775]); (559,[111;775]); (560,[79;775;772]);
    (561,[111;775;772]); (562,[89;772]); (563,[121;772]); (7680,[65;805]);
    (7681,[97;805]); (7682,[66;775]); (7683,[98;775]); (7684,[66;803]);
    (7685,[98;803]); (7686,[66;817]); (7687,[98;817]); (7688,[67;807;769]);
    (7689,[99;807;769]); (7690,[68;775]); (7691,[100;775]);
    (7692,[68;803]); (7693,[100;803]); (7694,[68;817]); (7695,[100;817]);
    (7696,[68;807]); (7697,[100;807]); (7698,[68;813]); (7699,[100;813]);
    (7700,[69;772;768]); (7701,[101;772;768]); (7702,[69;772;769]);
    (7703,[101;772;769]); (7704,[69;813]); (7705,[101;813]);
    (7706,[69;816]); (7707,[101;816]); (7708,[69;807;774]);
    (7709,[101;807;774]); (7710,[70;775]); (7711,[102;775]);
    (7712,[71;772]); (7713,[103;772]); (7714,[72;775]); (7715,[104;775]);
    (7716,[72;803]); (7717,[104;803]); (7718,[72;776]); (7719,[104;776]);
    (7720,[72;807]); (7721,[104;807]); (7722,[72;814]); (7723,[104;814]);
    (7724,[73;816]); (7725,[105;816]); (7726,[73;776;769]);
    (7727,[105;776;769]); (7728,[75;769]); (7729,[107;769]);
    (7730,[75;803]); (7731,[107;803]); (7732,[75;817]); (7733,[107;817]);
    (7734,[76;803]); (7735,[108;803]); (7736,[76;803;772]);
    (7737,[108;803;772]); (7738,[76;817]); (7739,[108;817]);
    (7740,[76;813]); (7741,[108;813]); (7742,[77;769]); (7743,[109;769]);
    (7744,[77;775]); (7745,[109;775]); (7746,[77;803]); (7747,[109;803]);
    (7748,[78;775]); (7749,[110;775]); (7750,[78;803]); (7751,[110;803]);
    (7752,[78;817]); (7753,[110;817]); (7754,[78;813]); (7755,[110;813]);
    (7756,[79;771;769]); (7757,[111;771;769]); (7758,[79;771;776]);
    (7759,[111;771;776]); (7760,[79;772;768]); (7761,[111;772;768]);
    (7762,[79;772;769]); (7763,[111;772;769]); (7764,[80;769]);
    (7765,[112;769]); (7766,[80;775]); (7767,[112;775]); (7768,[82;775]);
    (7769,[114;775]); (7770,[82;803]); (7771,[114;803]);
    (7772,[82;803;772]); (7773,[114;803;772]); (7774,[82;817]);
    (7775,[114;817]); (7776,[83;775]); (7777,[115;775]); (7778,[83;803]);
    (7779,[115;803]); (7780,[83;769;775]); (7781,[115;769;775]);
    (7782,[83;780;775]); (7783,[115;780;775]); (7784,[83;803;775]);
    (7785,[115;803;775]); (7786,[84;775]); (7787,[116;775]);
    (7788,[84;803]); (7789,[116;803]); (7790,[84;817]); (7791,[116;817]);
    (7792,[84;813]); (7793,[116;813]); (7794,[85;804]); (7795,[117;804]);
    (7796,[85;816]); (7797,[117;816]); (7798,[85;813]); (7799,[117;813]);
    (7800,[85;771;769]); (7801,[117;771;769]); (7802,[85;772;776]);
    (7803,[117;772;776]); (7804,[86;771]); (7805,[118;771]);
    (7806,[86;803]); (7807,[118;803]); (7808,[87;768]); (7809,[119;768]);
    (7810,[87;769]); (7811,[119;769]); (7812,[87;776]); (7813,[119;776]);
    (7814,[87;775]); (7815,[119;775]); (7816,[87;803]); (7817,[119;803]);
    (7818,[88;775]); (7819,[120;775]); (7820,[88;776]); (7821,[120;776]);
    (7822,[89;775]); (7823,[121;775]); (7824,[90;770]); (7825,[122;770]);
    (7826,[90;803]); (7827,[122;803]); (7828,[90;817]); (7829,[122;817]);
    (7830,[104;817]); (7831,[116;776]); (7832,[119;778]); (7833,[121;778]);
    (7835,[383;775]); (7840,[65;803]); (7841,[97;803]); (7842,[65;777]);
    (7843,[97;777]); (7844,[65;770;769]); (7845,[97;770;769]);
    (7846,[65;770;768]); (7847,[97;770;768]); (7848,[65;770;777]);
    (7849,[97;770;777]); (7850,[65;770;771]); (7851,[97;770;771]);
    (7852,[65;803;770]); (7853,[97;803;770]); (7854,[65;774;769]);
    (7855,[97;774;769]); (7856,[65;774;768]); (7857,[97;774;768]);
    (7858,[65;774;777]); (7859,[97;774;777]); (7860,[65;774;771]);
    (7861,[97;774;771]); (7862,[65;803;774]); (7863,[97;803;774]);
    (7864,[69;803]); (7865,[101;803]); (7866,[69;777]); (7867,[101;777]);
    (7868,[69;771]); (7869,[101;771]); (7870,[69;770;769]);
    (7871,[101;770;769]); (7872,[69;770;768]); (7873,[101;770;768]);
    (7874,[69;770;777]); (7875,[101;770;777]); (7876,[69;770;771]);
    (7877,[101;770;771]); (7878,[69;803;770]); (7879,[101;803;770]);
    (7880,[73;777]); (7881,[105;777]); (7882,[73;803]); (7883,[105;803]);
    (7884,[79;803]); (7885,[111;803]); (7886,[79;777]); (7887,[111;777]);
    (7888,[79;770;769]); (7889,[111;770;769]); (7890,[79;770;768]);
    (7891,[111;770;768]); (7892,[79;770;777]); (7893,[111;770;777]);
    (7894,[79;770;771]); (7895,[111;770;771]); (7896,[79;803;770]);
    (7897,[111;803;770]); (7898,[79;795;769]); (7899,[111;795;769]);
    (7900,[79;795;768]); (7901,[111;795;768]); (7902,[79;795;777]);
    (7903,[111;795;777]); (7904,[79;795;771]); (7905,[111;795;771]);
    (7906,[79;795;803]); (7907,[111;795;803]); (7908,[85;803]);
    (7909,[117;803]); (7910,[85;777]); (7911,[117;777]);
    (7912,[85;795;769]); (7913,[117;795;769]); (7914,[85;795;768]);
    (7915,[117;795;768]); (7916,[85;795;777]); (7917,[117;795;777]);
    (7918,[85;795;771]); (7919,[117;795;771]); (7920,[85;795;803]);
    (7921,[117;795;803]); (7922,[89;768]); (7923,[121;768]);
    (7924,[89;803]); (7925,[121;803]); (7926,[89;777]); (7927,[121;777]);
    (7928,[89;771]); (7929,[121;771]) ].

(** [unicodedata.normalize("NFD", c)] for one character. *)
Definition nfd_char (c : Z) : text :=
  match assoc nfd_table c with
  | Some d => d
  | None => [c]
  end.

Definition nfd (s : text) : text := flat_map nfd_char s.

(** [strip_accents]: NFD, drop the marks, then map D-with-stroke to D. *)
Definition strip_accents (s : text) : text :=
  replace_char 0x111 100
    (replace_char 0x110 68 (filter (fun c => negb (is_Mn c)) (nfd s))).

(** [normalize_text]. *)
Definition normalize_text (s : text) : text :=
  let s1 := replace_char 160 32 s in
  let s2 := sub_runs (Z.eqb 95) false s1 in
  strip is_space (sub_runs is_space false s2).

(* ================================================================== *)
(** ** Regular expressions and the backtracking matcher *)

Inductive re : Type :=
| Eps
| Chr (p : Z -> bool)
| Seq (a b : re)
| Alt (a b : re)
| Rep (greedy : bool) (lo : nat) (extra : option nat) (a : re)
| Grp (n : nat) (a : re)
| Bol
| Eol
| WordB
| Look (a : re).

(** A position in the subject: the characters already passed (nearest
    first), the characters still ahead, and the groups captured so far
    (most recent first). *)
Record mstate : Type := MState {
  seen : text;
  rest : text;
  caps : list (nat * text)
}.

Definition advance (c : Z) (tl : text) (st : mstate) : mstate :=
  {| seen := c :: seen st; rest := tl; caps := caps st |}.

Definition head_is (p : Z -> bool) (s : text) : bool :=
  match s with c :: _ => p c | [] => false end.

(** [\b]: exactly one side of the position is a word character. *)
Definition at_word_boundary (st : mstate) : bool :=
  xorb (head_is is_word (seen st)) (head_is is_word (rest st)).

(** [$] without [re.MULTILINE]: end of subject, or before a final newline. *)
Definition at_end (st : mstate) : bool :=
  match rest st with
  | [] => true
  | [c] => c =? 10
  | _ => false
  end.

Definition at_start (st : mstate) : bool :=
  match seen st with [] => true | _ => false end.

(** The text consumed between two positions of one run. *)
Definition consumed (st0 st1 : mstate) : text :=
  firstn (length (rest st0) - length (rest st1)) (rest st0).

Definition set_group (n : nat) (st0 st1 : mstate) : mstate :=
  {| seen := seen st1; rest := rest st1;
     caps := (n, consumed st0 st1) :: caps st1 |}.

Definition kont := mstate -> option mstate.

(** Optional iterations of a repetition: up to [n] more rounds of the
    body [f], longest first when greedy and shortest first when lazy. *)
Fixpoint more (f : kont -> kont) (greedy : bool) (n : nat) (k : kont)
  (st : mstate) {struct n} : option mstate :=
  match n with
  | O => k st
  | S n' =>
      if greedy then
        match f (more f greedy n' k) st with
        | Some m => Some m
        | None => k st
        end
      else
        match k st with
        | Some m => Some m
        | None => f (more f greedy n' k) st
        end
  end.

(** Compulsory iterations of a repetition. *)
Fixpoint must (f : kont -> kont) (n : nat) (k : kont) {struct n} : kont :=
  match n with
  | O => k
  | S n' => f (must f n' k)
  end.

(** [mt r k st]: match [r] at [st] and continue with [k]; alternatives are
    tried in priority order and the first overall success is returned.
    A repetition makes [lo] compulsory iterations and then up to [extra]
    more (as many as characters remain when [extra] is [None]; every
    unbounded repetition of the source iterates over a single character). *)
Fixpoint mt (r : re) (k : kont) (st : mstate) {struct r} : option mstate :=
  match r with
  | Eps => k st
  | Chr p =>
      match rest st with
      | c :: tl => if p c then k (advance c tl st) else None
      | [] => None
      end
  | Seq a b => mt a (mt b k) st
  | Alt a b =>
      match mt a k st with
      | Some m => Some m
      | None => mt b k st
      end
  | Rep greedy lo extra a =>
      must (mt a) lo
        (fun st' =>
           more (mt a) greedy
                (match extra with Some e => e | None => length (rest st') end)
                k st')
        st
  | Grp n a => mt a (fun st' => k (set_group n st st')) st
  | Bol => if at_start st then k st else None
  | Eol => if at_end st then k st else None
  | WordB => if at_word_boundary st then k st else None
  | Look a =>
      match mt a Some st with
      | Some _ => k st
      | None => None
      end
  end.

Definition start_state (s : text) : mstate :=
  {| seen := []; rest := s; caps := [] |}.

(** [re.match(r, s)]. *)
Definition re_match (r : re) (s : text) : option mstate :=
  mt r Some (start_state s).

(** Leftmost match starting at or after a position. *)
Fixpoint search_from (r : re) (sn rs : text) {struct rs} : option mstate :=
  match mt r Some {| seen := sn; rest := rs; caps := [] |} with
  | Some m => Some m
  | None =>
      match rs with
      | [] => None
      | c :: tl => search_from r (c :: sn) tl
      end
  end.

(** [re.search(r, s)]. *)
Definition re_search (r : re) (s : text) : option mstate :=
  search_from r [] s.

(** [m.group(n)]. *)
Fixpoint lookup_group (n : nat) (cs : list (nat * text)) : text :=
  match cs with
  | [] => []
  | (i, t) :: tl => if Nat.eqb i n then t else lookup_group n tl
  end.

Definition group (n : nat) (m : mstate) : text := lookup_group n (caps m).

Definition matched (o : option mstate) : bool :=
  match o with Some _ => true | None => false end.

(** [re.findall(r, s)] for a pattern with one group whose matches are
    not empty: the group of each successive non-overlapping match. *)
Fixpoint findall_from (fuel : nat) (r : re) (sn rs : text) : list text :=
  match fuel with
  | O => []
  | S fuel' =>
      match search_from r sn rs with
      | None => []
      | Some m =>
          group 1 m ::
          (if Nat.ltb (length (rest m)) (length rs)
           then findall_from fuel' r (seen m) (rest m)
           else [])
      end
  end.

Definition re_findall (r : re) (s : text) : list text :=
  findall_from (S (length s)) r [] s.

(* ================================================================== *)
(** ** Pattern constructors *)

Definition lit (c : Z) : re := Chr (Z.eqb c).

(** A literal under [re.IGNORECASE]. *)
Definition liti (c : Z) : re := Chr (fun x => cfold x =? cfold c).

(** A character set under [re.IGNORECASE]: the folded character, or its
    upper-case form, belongs to the set as written. *)
Definition seti (p : Z -> bool) : re :=
  Chr (fun x => let l := cfold x in p l || p (upper l)).

Fixpoint cat (rs : list re) : re :=
  match rs with
  | [] => Eps
  | [r] => r
  | r :: tl => Seq r (cat tl)
  end.

Fixpoint alts (rs : list re) : re :=
  match rs with
  | [] => Chr (fun _ => false)
  | [r] => r
  | r :: tl => Alt r (alts tl)
  end.

Definition str (s : string) : re := cat (map lit (u s)).

Definition stri (s : string) : re := cat (map liti (u s)).

Definition star (r : re) : re := Rep true 0 None r.

Definition plus (r : re) : re := Rep true 1 None r.

Definition opt (r : re) : re := Rep true 0 (Some 1%nat) r.

Definition plus_lazy (r : re) : re := Rep false 1 None r.

(** [r{lo,hi}]. *)
Definition rep (lo hi : nat) (r : re) : re := Rep true lo (Some (hi - lo)%nat) r.

Definition sp : re := Chr is_space.

Definition digit : re := Chr is_digit.

Definition dot : re := Chr (fun c => negb (c =? 10)).

Definition set_of (s : string) : re := Chr (one_of (u s)).

(* ================================================================== *)
(** ** Patterns and line classifier of [xuatdulieu.py] *)

(** [RE_DATE], with its group numbered [n] in the enclosing pattern. *)
Definition RE_DATE (n : nat) : re :=
  Grp n (cat [rep 1 2 digit; set_of "/-."; rep 1 2 digit; set_of "/-.";
              rep 2 4 digit]).

(** [RE_ID = \b(\d[\d\s\-.]{7,24}\d)\b]. *)
Definition RE_ID : re :=
  cat [WordB;
       Grp 1 (cat [digit;
                   rep 7 24 (Chr (fun c => is_digit c || is_space c
                                           || one_of (u "-.") c));
                   digit]);
       WordB].

Definition va_prefix : re :=
  opt (cat [alts [stri "và"; stri "va"; stri "&"]; star sp]).

Definition ho_ong_ba : re :=
  cat [stri "hộ"; star sp; alts [stri "ông"; stri "bà"]].

(** [HONORIFIC]. *)
Definition HONORIFIC : re :=
  cat [Bol; star sp; va_prefix;
       alts [ho_ong_ba; stri "ông"; stri "bà"; stri "anh"; stri "chị";
             stri "cô"; stri "chú"; stri "bác"; stri "em"; stri "mr";
             stri "mrs"; stri "ms"; stri "miss"];
       star sp; opt (set_of ":.-"); star sp].

(** [HONORIFIC.sub('', s)]: the pattern is anchored at the start and
    cannot match the empty string, so at most the leading match goes. *)
Definition honorific_sub (s : text) : text :=
  match re_match HONORIFIC s with
  | Some m => rest m
  | None => s
  end.

Definition normalize_id (token : text) : text :=
  let digits := filter is_digit token in
  if (9 <=? length digits)%nat && (length digits <=? 12)%nat
  then digits else [].

Definition is_section_header_i (s : text) : bool :=
  let s_ascii := str_upper (strip_accents (normalize_text s)) in
  matched (re_match
    (cat [Bol; str "I"; star sp; opt (set_of "-–—"); star sp;
          str "NGUOI"; star sp; str "SU"; star sp; str "DUNG"; star sp;
          str "DAT"; WordB]) s_ascii).

Definition is_section_header_ii (s : text) : bool :=
  let s_ascii := str_upper (strip_accents (normalize_text s)) in
  matched (re_match
    (cat [Bol; str "II"; star sp; opt (set_of "-–—"); star sp;
          str "THUA"; star sp; str "DAT"; WordB]) s_ascii).

(** The three address keywords, as written without accents. *)
Definition address_keyword_ascii (lit' : string -> re) : re :=
  alts [cat [lit' "dia"; star sp; lit' "chi";
             opt (cat [star sp; lit' "thuong"; star sp; lit' "tru"])];
        cat [lit' "d"; star sp; lit' "/"; star sp; lit' "c"];
        cat [opt (cat [lit' "noi"; star sp]); lit' "thuong"; star sp;
             lit' "tru"]].

(** The three address keywords, as written with accents. *)
Definition address_keyword_vn : re :=
  alts [cat [stri "địa"; star sp; stri "ch"; seti (one_of (u "ỉi"));
             opt (cat [star sp; stri "thường"; star sp; stri "trú"])];
        cat [stri "đ"; star sp; stri "/"; star sp; stri "c"];
        cat [opt (cat [stri "nơi"; star sp]); stri "thường"; star sp;
             stri "trú"]].

Definition is_address_line (s : text) : bool :=
  let s_ascii := str_lower (strip_accents (normalize_text s)) in
  matched (re_match (cat [Bol; address_keyword_ascii str; WordB]) s_ascii).

Definition address_tail : re :=
  cat [star sp; opt (set_of ":-"); star sp; Grp 1 (plus dot); Eol].

Definition extract_address (s : text) : text :=
  let s_norm := normalize_text s in
  match re_search (cat [address_keyword_vn; address_tail]) s_norm with
  | Some m => strip (one_of (u " .,_-")) (group 1 m)
  | None =>
      let s_ascii := str_lower (strip_accents s_norm) in
      match re_search (cat [address_keyword_ascii stri; address_tail])
                      s_ascii with
      | Some m => strip (one_of (u " .,_-")) (group 1 m)
      | None => []
      end
  end.

Definition id_keyword : re := alts [stri "CMND"; stri "CCCD"; stri "CMT"].

Definition is_person_like (s : text) : bool :=
  matched (re_search (cat [Grp 1 id_keyword; WordB]) s)
  || matched (re_search
       (cat [WordB; stri "Sinh"; plus sp; alts [stri "năm"; stri "ngày"];
             WordB]) s).

(* ================================================================== *)
(** ** Person extractor ([parse_person]) *)

Record person : Type := Person {
  full_name : text;
  birth_year : text;
  id_number : text;
  issue_date : text;
  address : text
}.

Definition name_re : re :=
  cat [Bol;
       opt (cat [star sp; va_prefix;
                 alts [ho_ong_ba; stri "ông"; stri "bà"; stri "anh";
                       stri "chị"; stri "cô"; stri "chú"; stri "bác";
                       stri "em"];
                 star sp; opt (set_of ":.-"); star sp]);
       Grp 1 (cat [seti (fun c => between 65 90 c
                                  || between (chr "À") (chr "Ỹ") c
                                  || (c =? chr "Đ"));
                   plus_lazy (Chr (fun c => negb ((c =? 44) || is_digit c)))]);
       star sp;
       Look (alts [str ",";
                   cat [WordB; stri "Sinh"; WordB];
                   cat [WordB; stri "CMND"; WordB];
                   cat [WordB; stri "CCCD"; WordB];
                   cat [WordB; stri "CMT"; WordB];
                   Eol])].

Definition year_re : re :=
  cat [stri "Sinh"; star sp; stri "năm"; star sp; opt (str ":"); star sp;
       Grp 1 (rep 4 4 digit)].

Definition dob_re : re :=
  cat [stri "Sinh"; star sp; stri "ngày"; star sp; opt (str ":"); star sp;
       RE_DATE 1].

Definition so_word : re :=
  alts [cat [stri "s"; seti (one_of (u "ốo"))]; stri "so"].

Definition id_labeled_re : re :=
  cat [alts [cat [id_keyword; star sp; opt so_word];
             cat [so_word; star sp; id_keyword]];
       star sp; star (set_of ":-.,;"); star sp;
       Grp 1 (cat [Chr is_ascii_digit;
                   rep 7 24 (Chr (fun c => is_ascii_digit c || is_space c
                                           || one_of (u "-.") c));
                   digit])].

Definition cap_word : re := alts [stri "cấp"; stri "cap"].

(** The two keyword orders of the issue-date pattern. *)
Definition issue_keywords : re :=
  alts [cat [opt (cat [stri "ngày"; star sp]); cap_word];
        cat [cap_word; star sp; stri "ngày"]].

(** The issue-date pattern of [xuatdulieu.py]. *)
Definition issue_re : re :=
  cat [issue_keywords; star sp; star (set_of ":,-.:"); star sp; RE_DATE 1].

Fixpoint first_valid_id (toks : list text) : text :=
  match toks with
  | [] => []
  | tok :: tl =>
      let n := normalize_id tok in
      if truthy n then n else first_valid_id tl
  end.

(** The identity number found in a normalised line. *)
Definition find_id_number (s : text) : text :=
  let labeled :=
    match re_search id_labeled_re s with
    | Some m => normalize_id (group 1 m)
    | None => []
    end in
  if truthy labeled then labeled else first_valid_id (re_findall RE_ID s).

(** The issue date found in a normalised line. *)
Definition find_issue_date (s : text) : text :=
  match re_search issue_re s with
  | Some m => group 1 m
  | None => []
  end.

Definition parse_person (t : text) : option person :=
  let s := normalize_text t in
  if negb (truthy s) || is_address_line s || negb (is_person_like s) then None
  else
    let name :=
      match re_search name_re s with
      | Some m => strip is_space (group 1 m)
      | None => []
      end in
    let name := strip (one_of (u " ,.-_")) (honorific_sub name) in
    let birth_year :=
      match re_search year_re s with
      | Some m => group 1 m
      | None => []
      end in
    let dob :=
      if truthy birth_year then []
      else match re_search dob_re s with
           | Some m => group 1 m
           | None => []
           end in
    let id_number := find_id_number s in
    let issue_date := find_issue_date s in
    if negb (truthy name)
       || (negb (truthy id_number) && negb (truthy birth_year)
           && negb (truthy dob))
    then None
    else Some {| full_name := name;
                 birth_year := if truthy birth_year then birth_year else dob;
                 id_number := id_number;
                 issue_date := issue_date;
                 address := [] |}.

(* ================================================================== *)
(** ** Parcel extractor ([parse_parcel_line_v2]) *)

Record parcel : Type := Parcel {
  ngay_thang_vao_so : text;
  so_thu_tu_thua_dat : text;
  so_thu_tu_to_ban_do : text;
  dt_rieng_m2 : text;
  dt_chung_m2 : text;
  muc_dich_su_dung : text;
  thoi_han_su_dung : text;
  nguon_goc_su_dung : text;
  so_phat_hanh_gcn : text;
  so_vao_so : text;
  thua_raw : text
}.

(** [_num]. *)
Definition _num (s : text) : text :=
  let s_norm := strip is_space (replace_char 44 46 s) in
  if negb (truthy s_norm) || existsb is_ascii_alpha s_norm then [] else s_norm.

Definition upper_run (lo hi : nat) : re := rep lo hi (Chr is_ascii_upper).

Definition tail_group (n : nat) : re := cat [Grp n (star dot); Eol].

(** One leading token (a run of digits, dots and commas, or else a run of
    non-blank characters) and the remainder of the line. *)
Definition token_re : re :=
  cat [Grp 1 (alts [plus (Chr (fun c => is_digit c || one_of (u ".,") c));
                    plus (Chr (fun c => negb (is_space c)))]);
       tail_group 2].

Definition take_token (s : text) : text * text :=
  match re_match token_re s with
  | Some m => (group 1 m, strip is_space (group 2 m))
  | None => ([], s)
  end.

Definition parse_parcel_line_v2 (s : text) : option parcel :=
  let t := normalize_text s in
  if negb (truthy t) then None
  else
    match re_match (cat [RE_DATE 1; WordB; tail_group 2]) t with
    | None => None
    | Some m0 =>
        let ngay := group 1 m0 in
        let rest0 := strip is_space (group 2 m0) in
        let '(so_thua, so_to, rest2) :=
          match re_match
                  (cat [star (set_of ", "); Grp 1 (plus digit);
                        plus (set_of ", "); Grp 2 (plus digit); tail_group 3])
                  rest0 with
          | Some m12 => (group 1 m12, group 2 m12, strip is_space (group 3 m12))
          | None => ([], [], rest0)
          end in
        let '(dt_rieng_raw, rest3) := take_token rest2 in
        let '(dt_chung_raw, rest4) := take_token rest3 in
        let dt_rieng := _num dt_rieng_raw in
        let dt_chung := _num dt_chung_raw in
        let '(muc_dich, rest5) :=
          match re_match (cat [Grp 1 (upper_run 2 5); WordB; tail_group 2])
                         rest4 with
          | Some m => (group 1 m, strip is_space (group 2 m))
          | None => ([], rest4)
          end in
        let '(thoi_han, rest6) :=
          match re_match
                  (cat [Grp 1 (alts [cat [stri "Lâu"; star sp; stri "dài"];
                                     RE_DATE 2]);
                        WordB; tail_group 3]) rest5 with
          | Some m => (group 1 m, strip is_space (group 3 m))
          | None => ([], rest5)
          end in
        let rest_final := rest6 in
        let nguon_goc :=
          match re_search
                  (cat [WordB;
                        Grp 1 (cat [upper_run 2 4; star sp; str "-"; star sp;
                                    upper_run 2 4]);
                        WordB]) rest_final with
          | Some m => group 1 m
          | None => []
          end in
        let so_ph :=
          match re_search
                  (cat [WordB;
                        Grp 1 (cat [upper_run 1 3; star sp;
                                    Rep true 4 None digit]);
                        WordB]) rest_final with
          | Some m => remove_char 32 (group 1 m)
          | None => []
          end in
        let m_vs :=
          re_findall
            (cat [WordB;
                  Grp 1 (cat [upper_run 1 3; star sp; Rep true 3 None digit]);
                  WordB]) rest_final in
        let so_vao :=
          match m_vs with
          | [] => []
          | _ => remove_char 32 (last m_vs [])
          end in
        Some {| ngay_thang_vao_so := ngay;
                so_thu_tu_thua_dat := so_thua;
                so_thu_tu_to_ban_do := so_to;
                dt_rieng_m2 := dt_rieng;
                dt_chung_m2 := dt_chung;
                muc_dich_su_dung := muc_dich;
                thoi_han_su_dung := thoi_han;
                nguon_goc_su_dung := nguon_goc;
                so_phat_hanh_gcn := so_ph;
                so_vao_so := so_vao;
                thua_raw := t |}
    end.

(* ================================================================== *)
(** ** Address propagation ([propagate_addresses]) *)

Definition set_address (a : text) (p : person) : person :=
  {| full_name := full_name p; birth_year := birth_year p;
     id_number := id_number p; issue_date := issue_date p; address := a |}.

(** The set [uniq] of the source, as a duplicate-free list. *)
Definition uniq_addresses (people : list person) : list text :=
  nodup text_eq_dec
    (filter truthy (map (fun p => strip is_space (address p)) people)).

(** The list is updated in place by the source; the updated list is
    returned here. *)
Definition propagate_addresses (people : list person) : list person :=
  match uniq_addresses people with
  | [addr] =>
      map (fun p => if truthy (address p) then p else set_address addr p)
          people
  | _ => people
  end.

(* ================================================================== *)
(** ** Record segmenter and flattener ([group_records]) *)

Inductive section_tag : Type := SecI | SecII.

(** An output row: the columns in insertion order. *)
Definition row := list (string * text).

(** An absent person or parcel is an empty dictionary, every [get] of
    which gives the empty string. *)
Definition no_person : person := Person [] [] [] [] [].

Definition no_parcel : parcel := Parcel [] [] [] [] [] [] [] [] [] [] [].

Definition make_row (p1 p2 : person) (thua : parcel) : row :=
  [ ("Ngày tháng vào sổ", ngay_thang_vao_so thua);
    ("Số thứ tự thửa đất", so_thu_tu_thua_dat thua);
    ("Số thứ tự tờ bản đồ", so_thu_tu_to_ban_do thua);
    ("Diện tích sử dụng riêng (m²)", dt_rieng_m2 thua);
    ("Diện tích sử dụng chung (m²)", dt_chung_m2 thua);
    ("Mục đích sử dụng", muc_dich_su_dung thua);
    ("Thời hạn sử dụng", thoi_han_su_dung thua);
    ("Nguồn gốc sử dụng", nguon_goc_su_dung thua);
    ("Số phát hành GCN", so_phat_hanh_gcn thua);
    ("Số vào sổ", so_vao_so thua);
    ("Tên chủ 1", full_name p1);
    ("Năm sinh 1", birth_year p1);
    ("Số giấy tờ 1", id_number p1);
    ("Ngày cấp 1", issue_date p1);
    ("Địa chỉ 1", address p1);
    ("Tên chủ 2", full_name p2);
    ("Năm sinh 2", birth_year p2);
    ("Số giấy tờ 2", id_number p2);
    ("Ngày cấp 2", issue_date p2);
    ("Địa chỉ 2", address p2) ].

(** The rows of one record: [current_parcels or [dict()]]. *)
Definition record_rows (people : list person) (parcels : list parcel)
  : list row :=
  let p1 := nth 0 people no_person in
  let p2 := nth 1 people no_person in
  map (make_row p1 p2)
      (match parcels with [] => [no_parcel] | _ => parcels end).

(** The variables of [group_records] that its loop and [flush_bia] share. *)
Record state : Type := State {
  rows : list row;
  section : option section_tag;
  in_bia : bool;
  current_people : list person;
  current_parcels : list parcel
}.

Definition init_state : state :=
  {| rows := []; section := None; in_bia := false;
     current_people := []; current_parcels := [] |}.

Definition flush_bia (st : state) : state :=
  if negb (in_bia st) then st
  else
    {| rows := rows st ++ record_rows (propagate_addresses (current_people st))
                                      (current_parcels st);
       section := section st;
       in_bia := in_bia st;
       current_people := [];
       current_parcels := [] |}.

(** [current_people[-1]['address'] = addr]. *)
Fixpoint set_last_address (addr : text) (people : list person) : list person :=
  match people with
  | [] => []
  | [p] => [set_address addr p]
  | p :: tl => p :: set_last_address addr tl
  end.

(** The body of the section-I branch for an address line. *)
Definition address_line (st : state) (s : text) : state :=
  let addr := extract_address s in
  match current_people st with
  | [] => st
  | _ :: _ =>
      if truthy addr
         && negb (truthy (address (last (current_people st) no_person)))
      then
        {| rows := rows st; section := section st; in_bia := in_bia st;
           current_people :=
             propagate_addresses (set_last_address addr (current_people st));
           current_parcels := current_parcels st |}
      else st
  end.

(** One iteration of the loop over the input lines. *)
Definition step (st : state) (raw : text) : state :=
  let s := normalize_text raw in
  if negb (truthy s) then st
  else if is_section_header_i s then
    let st1 := flush_bia st in
    {| rows := rows st1; section := Some SecI; in_bia := true;
       current_people := current_people st1;
       current_parcels := current_parcels st1 |}
  else if negb (in_bia st) then st
  else if is_section_header_ii s then
    {| rows := rows st; section := Some SecII; in_bia := in_bia st;
       current_people := current_people st;
       current_parcels := current_parcels st |}
  else
    match section st with
    | Some SecI =>
        if is_address_line s then address_line st s
        else
          match parse_person s with
          | Some p =>
              {| rows := rows st; section := section st; in_bia := in_bia st;
                 current_people := current_people st ++ [p];
                 current_parcels := current_parcels st |}
          | None => st
          end
    | Some SecII =>
        match parse_parcel_line_v2 s with
        | Some thua =>
            {| rows := rows st; section := section st; in_bia := in_bia st;
               current_people := current_people st;
               current_parcels := current_parcels st ++ [thua] |}
        | None => st
        end
    | None => st
    end.

Definition run (lines : list text) : state := fold_left step lines init_state.

(** The three states of the segmenter, read off [in_bia] and [section]. *)
Inductive label : Type := OUTSIDE | IN_PERSONS | IN_PARCELS.

Definition label_of (st : state) : label :=
  if negb (in_bia st) then OUTSIDE
  else match section st with
       | Some SecII => IN_PARCELS
       | _ => IN_PERSONS
       end.

Definition group_records (lines : list text) : list row :=
  rows (flush_bia (run lines)).

(* ================================================================== *)
(** ** The guarded flush of [appexcel2.py] *)

Module Appexcel2.

(** [flush_bia] of [group_records_from_df]: the same flattening, behind a
    guard that returns at once when the record holds nothing.  (That
    function has no [section] and [in_bia]; they are carried along.) *)
Definition flush_bia (st : state) : state :=
  match current_people st, current_parcels st with
  | [], [] => st
  | _, _ =>
      {| rows := rows st ++ record_rows (propagate_addresses (current_people st))
                                        (current_parcels st);
         section := section st;
         in_bia := in_bia st;
         current_people := [];
         current_parcels := [] |}
  end.

End Appexcel2.

(* ================================================================== *)
(** ** The older extractor of [app.py] *)

Module App.

Definition RE_ID : re :=
  cat [WordB;
       Grp 1 (cat [digit;
                   rep 7 20 (Chr (fun c => is_digit c || is_space c
                                           || (c =? 45)));
                   digit]);
       WordB].

Definition is_address_line (s : text) : bool :=
  matched (re_search (cat [Bol; star sp; stri "địa"; star sp; stri "chỉ"]) s).

Definition id_labeled_re : re :=
  cat [id_keyword; star sp; opt (alts [stri "số"; stri "so"]); star sp;
       star (set_of ": "); star sp;
       Grp 1 (cat [rep 7 20 (Chr (fun c => is_ascii_digit c || (c =? 45)
                                           || is_space c));
                   digit])].

(** The issue-date pattern of [app.py]: one keyword order only. *)
Definition issue_re : re :=
  cat [cap_word; plus sp; stri "ngày"; plus sp; RE_DATE 1].

(** [parse_person] of [app.py]; the dictionary it returns has no
    address, which reads as the empty string. *)
Definition parse_person (t : text) : option person :=
  let s := strip is_space t in
  if negb (truthy s) || is_address_line s || negb (is_person_like s) then None
  else
    let name :=
      match re_search name_re s with
      | Some m => strip is_space (group 1 m)
      | None => []
      end in
    let name := strip (one_of (u " ,.-")) (honorific_sub name) in
    let birth_year :=
      match re_search year_re s with
      | Some m => group 1 m
      | None => []
      end in
    let dob :=
      if truthy birth_year then []
      else match re_search dob_re s with
           | Some m => group 1 m
           | None => []
           end in
    let labeled :=
      match re_search id_labeled_re s with
      | Some m => normalize_id (group 1 m)
      | None => []
      end in
    let id_number :=
      if truthy labeled then labeled
      else first_valid_id (re_findall RE_ID s) in
    let issue_date :=
      match re_search issue_re s with
      | Some m => group 1 m
      | None => []
      end in
    if negb (truthy name)
       || (negb (truthy id_number) && negb (truthy birth_year)
           && negb (truthy dob))
    then None
    else Some {| full_name := name;
                 birth_year := if truthy birth_year then birth_year else dob;
                 id_number := id_number;
                 issue_date := issue_date;
                 address := [] |}.

(** [is_household_header]. *)
Definition is_household_header (s : text) : bool :=
  matched (re_search (cat [Bol; star sp; stri "hộ"; star sp;
                           opt (alts [stri "ông"; stri "bà"]); WordB]) s).

(** [is_plain_honorific_header]. *)
Definition is_plain_honorific_header (t : text) : bool :=
  let s := strip is_space t in
  truthy s
  && negb (matched (re_search
             (cat [Bol; alts [stri "và"; stri "va"; stri "&"]; WordB]) s))
  && matched (re_search
       (cat [Bol;
             Grp 1 (alts [stri "ông"; stri "bà"; stri "anh"; stri "chị";
                          stri "cô"; stri "chú"; stri "bác"; stri "em"]);
             WordB]) s)
  && is_person_like s.

(** The variables of the household-based [group_records] of [app.py]. *)
Record households := {
  records : list (list person);
  household : list person
}.

(** The inner [flush]. *)
Definition flush (st : households) : households :=
  match household st with
  | [] => st
  | _ => {| records := records st ++ [household st]; household := [] |}
  end.

(** [p = parse_person(s); if p: current_people.append(p)]. *)
Definition add_person (st : households) (s : text) : households :=
  match parse_person s with
  | Some p => {| records := records st; household := household st ++ [p] |}
  | None => st
  end.

(** One iteration of the loop of [group_records]. *)
Definition step (st : households) (raw : text) : households :=
  let s := strip is_space raw in
  if negb (truthy s) then flush st
  else if is_household_header s then add_person (flush st) s
  else if is_plain_honorific_header s then add_person (flush st) s
  else if is_address_line s then st
  else add_person st s.

(** [group_records] of [app.py]: one list of people per household. *)
Definition group_records (lines : list text) : list (list person) :=
  records (flush (fold_left step lines {| records := []; household := [] |})).

End App.

(* ================================================================== *)
(** ** Mixed-encoding rescue ([test.py]) *)

Module Rescue.

(** The outcome of a call that may raise. *)
Inductive result (A : Type) : Type :=
| Ret (a : A)
| Raise (e : string).

Arguments Ret {A} a.
Arguments Raise {A} e.

Definition bind {A B : Type} (c : result A) (f : A -> result B) : result B :=
  match c with
  | Ret a => f a
  | Raise e => Raise e
  end.

Notation "x <- c ;; k" := (bind c (fun x => k))
  (at level 61, c at next level, right associativity).

(** A Python object as the rescuer handles it: [None], a [str], or an
    object of another type, of which only the truth value is looked at. *)
Inductive value : Type :=
| VNone
| VStr (s : text)
| VOther (truth : bool).

(** [LEGACY_MARKERS]. *)
Definition is_marker (c : Z) : bool :=
  one_of (u "¬«¨¸µÊÆ§¯¾»¼½ÞßþØøÏîëìäåãèéæçñª") c.

(** [LEGACY_MARKERS.search(s)]. *)
Definition has_marker (s : text) : bool := existsb is_marker s.

(** [VN_UNI]. *)
Definition is_vn (c : Z) : bool := between (chr "À") (chr "ỹ") c.

Definition keywords : list text :=
  map u ["ngày"; "cấp"; "nơi"; "công"; "tỉnh"; "sinh"; "địa"; "chỉ"; "thửa";
         "bản"; "đồ"; "phú"; "yên"].

(** The score of a [str]: its characters in [VN_UNI], and three points
    for each keyword its lower-case form contains. *)
Definition score_text (s : text) : Z :=
  let base := str_lower s in
  fold_left (fun score kw => if contains kw base then score + 3 else score)
            keywords
            (Z.of_nat (length (filter is_vn s))).

(** [score_vn]: an object that is not a [str], and the empty [str],
    score 0. *)
Definition score_vn (v : value) : Z :=
  match v with
  | VStr (c :: tl) => score_text (c :: tl)
  | _ => 0
  end.

Definition CANDIDATES : list text :=
  map u ["TCVN3"; "VNI_WIN"; "VPS_WIN"; "VIETWARE_X"; "VIETWARE_F"; "VISCII";
         "VIQR"].

(** [_WS_SPLIT.split(s)] without its empty strings: the maximal runs of
    white space and of other characters, in order. *)
Fixpoint ws_split (s : text) : list text :=
  match s with
  | [] => []
  | c :: tl =>
      match ws_split tl with
      | (d :: r) :: rs =>
          if Bool.eqb (is_space c) (is_space d) then (c :: d :: r) :: rs
          else [c] :: (d :: r) :: rs
      | rs => [c] :: rs
      end
  end.

(** [tok.isspace()]. *)
Definition isspace (tok : text) : bool := truthy tok && forallb is_space tok.

(** [cs and cs != "UNICODE"]. *)
Definition is_legacy_charset (cs : value) : bool :=
  match cs with
  | VNone => false
  | VStr name => truthy name && negb (text_eqb name (u "UNICODE"))
  | VOther truth => truth
  end.

(** ["".join(out)], which raises [TypeError] at an item that is not a
    [str]. *)
Fixpoint join (out : list value) : result text :=
  match out with
  | [] => Ret []
  | VStr s :: tl => (r <- join tl ;; Ret (s ++ r))
  | _ :: _ => Raise "TypeError"
  end.

Section Codec.

(** The external converter: [conv.detectCharset(tok)] and
    [conv.convert(s, target_charset="UNICODE", source_charset=cs)].
    Either may raise, and either may answer any object. *)
Variable detectCharset : text -> result value.
Variable convert : text -> value -> result value.

(** The loop of [convert_best] over the remaining candidates. *)
Fixpoint best_of (s : text) (cands : list text) (best : value) (best_sc : Z)
  : value :=
  match cands with
  | [] => best
  | cs :: tl =>
      match convert s (VStr cs) with
      | Raise _ => best_of s tl best best_sc
      | Ret t =>
          let sc := score_vn t in
          if sc >? best_sc then best_of s tl t sc
          else best_of s tl best best_sc
      end
  end.

Definition convert_best (s : text) : value :=
  best_of s CANDIDATES (VStr s) (score_vn (VStr s)).

(** The body of the loop over the tokens: what is appended to [out]. *)
Definition fix_token (tok : text) : result value :=
  if isspace tok then Ret (VStr tok)
  else
    cs <- detectCharset tok ;;
    if is_legacy_charset cs then
      match convert tok cs with
      | Ret t => Ret t
      | Raise _ => Ret (VStr tok)
      end
    else if has_marker tok then Ret (convert_best tok)
    else Ret (VStr tok).

Fixpoint fix_tokens (parts : list text) : result (list value) :=
  match parts with
  | [] => Ret []
  | tok :: tl =>
      t <- fix_token tok ;;
      out <- fix_tokens tl ;;
      Ret (t :: out)
  end.

(** The whole-line pass after the tokens are joined. *)
Definition rescue_line (joined : text) : value :=
  if has_marker joined then
    let candidate := convert_best joined in
    if score_vn candidate >? score_vn (VStr joined) then candidate
    else VStr joined
  else VStr joined.

Definition fix_mixed_to_unicode (s : value) : result value :=
  match s with
  | VStr s =>
      out <- fix_tokens (ws_split s) ;;
      joined <- join out ;;
      Ret (rescue_line joined)
  | _ => Ret (VStr [])
  end.

End Codec.

(** A converter that never detects a legacy charset and whose TCVN3
    table sends a few marker characters to characters that are markers
    again; every other charset is refused. *)
Definition chain_table : list (Z * Z) :=
  [ (chr "¬", chr "ã"); (chr "ã", chr "đ");
    (chr "§", chr "«"); (chr "«", chr "ñ"); (chr "ñ", chr "ồ") ].

Fixpoint table_lookup (tbl : list (Z * Z)) (c : Z) : Z :=
  match tbl with
  | [] => c
  | (a, b) :: tl => if c =? a then b else table_lookup tl c
  end.

Definition chain_detect (tok : text) : result value :=
  Ret (VStr (u "UNICODE")).

Definition chain_convert (s : text) (cs : value) : result value :=
  match cs with
  | VStr name =>
      if text_eqb name (u "TCVN3")
      then Ret (VStr (map (table_lookup chain_table) s))
      else Raise "unsupported charset"
  | _ => Raise "unsupported charset"
  end.

(** A converter whose detection raises. *)
Definition raising_detect (tok : text) : result value :=
  Raise "detectCharset failed".

Definition identity_convert (s : text) (cs : value) : result value :=
  Ret (VStr s).

(** A converter that detects TCVN3 everywhere and whose conversion
    answers [None]. *)
Definition tcvn3_detect (tok : text) : result value :=
  Ret (VStr (u "TCVN3")).

Definition none_convert (s : text) (cs : value) : result value := Ret VNone.

End Rescue.

Import Rescue.

(* ================================================================== *)
(** ** Vocabulary of the statements *)

Definition run_from (st : state) (lines : list text) : state :=
  fold_left step lines st.

(** Outside any record nothing has been accumulated. *)
Definition closed_is_empty (st : state) : Prop :=
  in_bia st = false ->
  current_people st = [] /\ current_parcels st = [] /\ section st = None.

(** The repertoire on which every table of the model is complete:
    ASCII, Latin-1, Latin Extended-A and B, the combining diacritical
    marks, Latin Extended Additional, and the hyphens and dashes of
    General Punctuation. *)
Definition in_repertoire (c : Z) : bool :=
  between 0 0x24F c || between 0x300 0x36F c || between 0x1E00 0x1EFF c
  || between 0x2010 0x2015 c.

(** A line written in the repertoire. *)
Definition latin (s : text) : bool := forallb in_repertoire s.

Definition header_line : text := u "I - NGƯỜI SỬ DỤNG ĐẤT".

Definition parcels_line : text := u "II - THỬA ĐẤT".

Definition person_line : text :=
  u "Ông Trần B, sinh năm 1950, CCCD 012345678901".

Definition parcel_line : text :=
  u "05/06/2001 12 3 150,5 Không ONT Lâu dài DG - KTT BM 350395 CH 02488".

Definition not_header_i (l : text) : bool :=
  negb (is_section_header_i (normalize_text l)).

Definition fill_address (a : text) (p : person) : person :=
  if truthy (address p) then p else set_address a p.

Definition with_address (a : string) : person :=
  {| full_name := u "A"; birth_year := u "1950"; id_number := [];
     issue_date := []; address := u a |}.

(** Every character of the position and of the captured groups belongs
    to [S]. *)
Definition within (S : text) (st : mstate) : Prop :=
  incl (seen st) S /\ incl (rest st) S /\
  Forall (fun nt => incl (snd nt) S) (caps st).

(** A matching step hands to its continuation a state that is still
    within the subject. *)
Definition keeps_within (f : kont -> kont) : Prop :=
  forall k st m S,
    within S st -> f k st = Some m ->
    exists st', within S st' /\ k st' = Some m.

Definition scenario_line : text :=
  u "Hộ ông: Nguyễn A, sinh năm 1938, số CMND 220515369, ngày cấp 04/01/1997, nơi cấp công an tỉnh Phú Yên".

Definition range_list (lo hi : Z) : list Z :=
  map (fun i => lo + Z.of_nat i) (seq 0 (Z.to_nat (hi - lo + 1))).

Definition space_chars : list Z :=
  range_list 9 13 ++ range_list 28 32 ++ [133; 160; 5760]
  ++ range_list 8192 8202 ++ [8232; 8233; 8239; 8287; 12288].

(** A date token [d1 s1 d2 s2 y]: day, separator, month, separator, year. *)
Definition date_text (d1 : text) (s1 : Z) (d2 : text) (s2 : Z) (y : text)
  : text := d1 ++ s1 :: d2 ++ s2 :: y.

Definition len_between (lo hi : nat) (s : text) : bool :=
  (lo <=? length s)%nat && (length s <=? hi)%nat.

(** The shape accepted by [RE_DATE]. *)
Definition date_ok (d1 : text) (s1 : Z) (d2 : text) (s2 : Z) (y : text)
  : bool :=
  forallb is_digit d1 && len_between 1 2 d1 && one_of (u "/-.") s1
  && forallb is_digit d2 && len_between 1 2 d2 && one_of (u "/-.") s2
  && forallb is_digit y && len_between 2 4 y.

(** The year is complete: it has four digits or no digit follows it. *)
Definition date_ends_at (y post : text) : bool :=
  (length y =? 4)%nat || negb (head_is is_digit post).



(** A string without leading or trailing white space. *)
Definition tidy (s : text) : Prop := strip is_space s = s.

(** The only white space in the string is the plain blank. *)
Definition plain_spaces (s : text) : Prop :=
  forall c, In c s -> is_space c = true -> c = 32.

Definition tidy_people (people : list person) : Prop :=
  forall p, In p people -> tidy (address p).

(** Detection answered without raising on every word token of [s]. *)
Definition detection_returns (detectCharset : text -> result value)
  (s : text) : Prop :=
  forall tok, In tok (ws_split s) -> isspace tok = false ->
              exists cs, detectCharset tok = Ret cs.

(** No conversion of a word token of [s] from its detected charset
    answers an object that is not a [str]. *)
Definition conversions_are_str (detectCharset : text -> result value)
  (convert : text -> value -> result value) (s : text) : Prop :=
  forall tok cs v,
    In tok (ws_split s) -> isspace tok = false ->
    detectCharset tok = Ret cs -> is_legacy_charset cs = true ->
    convert tok cs = Ret v -> exists t, v = VStr t.

(** [s] is clean: it holds no marker and no word token of it is detected
    as a legacy charset. *)
Definition clean (detectCharset : text -> result value) (s : text)
  : Prop :=
  has_marker s = false /\
  forall tok, In tok (ws_split s) -> isspace tok = false ->
              exists cs, detectCharset tok = Ret cs /\
                         is_legacy_charset cs = false.

(* ================================================================== *)
(** ** Vocabulary of the further properties *)

(** White space occurs only as single plain blanks, none of them first
    when [inrun] is set. *)
Fixpoint spaced (inrun : bool) (s : text) : bool :=
  match s with
  | [] => true
  | c :: tl =>
      if is_space c then negb inrun && (c =? 32) && spaced true tl
      else spaced false tl
  end.

(** The normal form of [normalize_text]: no underscore, single plain
    blanks between other characters, no blank at either end. *)
Definition normal (s : text) : bool :=
  spaced true s && negb (existsb (Z.eqb 95) s)
  && negb (head_is is_space (rev s)).

(** The pattern of [is_section_header_i]. *)
Definition header_i_re : re :=
  cat [Bol; str "I"; star sp; opt (set_of "-–—"); star sp;
       str "NGUOI"; star sp; str "SU"; star sp; str "DUNG"; star sp;
       str "DAT"; WordB].

(** The pattern of [is_section_header_ii]. *)
Definition header_ii_re : re :=
  cat [Bol; str "II"; star sp; opt (set_of "-–—"); star sp;
       str "THUA"; star sp; str "DAT"; WordB].

(** [ordered_cols] of [run_extraction]. *)
Definition ordered_cols : list string :=
  [ "Ngày tháng vào sổ"; "Số thứ tự thửa đất"; "Số thứ tự tờ bản đồ";
    "Diện tích sử dụng riêng (m²)"; "Diện tích sử dụng chung (m²)";
    "Mục đích sử dụng"; "Thời hạn sử dụng"; "Nguồn gốc sử dụng";
    "Số phát hành GCN"; "Số vào sổ";
    "Tên chủ 1"; "Năm sinh 1"; "Số giấy tờ 1"; "Ngày cấp 1"; "Địa chỉ 1";
    "Tên chủ 2"; "Năm sinh 2"; "Số giấy tờ 2"; "Ngày cấp 2"; "Địa chỉ 2" ].

(** The state [st] of a run that was started with the rows [R] already
    emitted. *)
Definition after_rows (R : list row) (st : state) : state :=
  {| rows := R ++ rows st; section := section st; in_bia := in_bia st;
     current_people := current_people st;
     current_parcels := current_parcels st |}.

(** The declarative reading of a pattern: [matches r st st'] when [r] can
    take the matcher from the position [st] to the position [st']. *)
Inductive matches : re -> mstate -> mstate -> Prop :=
| M_Eps st : matches Eps st st
| M_Chr p st c tl :
    rest st = c :: tl -> p c = true -> matches (Chr p) st (advance c tl st)
| M_Seq a b st st1 st2 :
    matches a st st1 -> matches b st1 st2 -> matches (Seq a b) st st2
| M_AltL a b st st' : matches a st st' -> matches (Alt a b) st st'
| M_AltR a b st st' : matches b st st' -> matches (Alt a b) st st'
| M_RepDone g extra a st : matches (Rep g 0 extra a) st st
| M_RepMust g lo extra a st st1 st2 :
    matches a st st1 -> matches (Rep g lo extra a) st1 st2 ->
    matches (Rep g (S lo) extra a) st st2
| M_RepMore g e a st st1 st2 :
    matches a st st1 -> matches (Rep g 0 (Some e) a) st1 st2 ->
    matches (Rep g 0 (Some (S e)) a) st st2
| M_RepMany g a st st1 st2 :
    matches a st st1 -> matches (Rep g 0 None a) st1 st2 ->
    matches (Rep g 0 None a) st st2
| M_Grp n a st st' : matches a st st' -> matches (Grp n a) st (set_group n st st')
| M_Bol st : at_start st = true -> matches Bol st st
| M_Eol st : at_end st = true -> matches Eol st st
| M_WordB st : at_word_boundary st = true -> matches WordB st st
| M_Look a st st' : matches a st st' -> matches (Look a) st st.

(** The pattern captures no group. *)
Fixpoint groupless (r : re) : bool :=
  match r with
  | Eps | Chr _ | Bol | Eol | WordB | Look _ => true
  | Seq a b | Alt a b => groupless a && groupless b
  | Rep _ _ _ a => groupless a
  | Grp _ _ => false
  end.

(** [st'] is [st] after the characters [d]. *)
Definition path (st : mstate) (d : text) (st' : mstate) : Prop :=
  rest st = d ++ rest st' /\ seen st' = rev d ++ seen st.

(** A date token, as [RE_DATE] accepts it. *)
Definition date_shaped (x : text) : Prop :=
  exists d1 s1 d2 s2 y,
    x = date_text d1 s1 d2 s2 y /\ date_ok d1 s1 d2 s2 y = true.

(** The first character of a name, as the name pattern writes it. *)
Definition name_start (c : Z) : bool :=
  between 65 90 c || between (chr "À") (chr "Ỹ") c || (c =? chr "Đ").

(** Neither a comma nor an ASCII digit. *)
Definition name_char (c : Z) : bool := negb ((c =? 44) || is_ascii_digit c).

(** The person read from [scenario_line]. *)
Definition scenario_person : person :=
  {| full_name := u "Nguyễn A"; birth_year := u "1938";
     id_number := u "220515369"; issue_date := u "04/01/1997";
     address := [] |}.

(** The patterns of [parse_parcel_line_v2], in the order it applies them. *)
Definition parcel_head : re := cat [RE_DATE 1; WordB; tail_group 2].

Definition parcel_numbers : re :=
  cat [star (set_of ", "); Grp 1 (plus digit); plus (set_of ", ");
       Grp 2 (plus digit); tail_group 3].

Definition parcel_purpose : re := cat [Grp 1 (upper_run 2 5); WordB; tail_group 2].

Definition parcel_term : re :=
  cat [Grp 1 (alts [cat [stri "Lâu"; star sp; stri "dài"]; RE_DATE 2]);
       WordB; tail_group 3].

Definition parcel_origin : re :=
  cat [WordB;
       Grp 1 (cat [upper_run 2 4; star sp; str "-"; star sp; upper_run 2 4]);
       WordB].

Definition parcel_serial (k : nat) : re :=
  cat [WordB; Grp 1 (cat [upper_run 1 3; star sp; Rep true k None digit]);
       WordB].

(** What [parse_parcel_line_v2] has left of the line after each of its
    positional steps. *)
Definition after_head (t : text) : text :=
  match re_match parcel_head t with
  | Some m => strip is_space (group 2 m)
  | None => []
  end.

Definition after_numbers (r : text) : text :=
  match re_match parcel_numbers r with
  | Some m => strip is_space (group 3 m)
  | None => r
  end.

Definition after_purpose (r : text) : text :=
  match re_match parcel_purpose r with
  | Some m => strip is_space (group 2 m)
  | None => r
  end.

Definition after_term (r : text) : text :=
  match re_match parcel_term r with
  | Some m => strip is_space (group 3 m)
  | None => r
  end.

Definition areas_from (t : text) : text := after_numbers (after_head t).

Definition purpose_from (t : text) : text :=
  snd (take_token (snd (take_token (areas_from t)))).

Definition rest_final (t : text) : text :=
  after_term (after_purpose (purpose_from t)).

(** A code: [lo] to [hi] capital letters, then at least [k] digits. *)
Definition code_shaped (lo hi k : nat) (x : text) : Prop :=
  exists a d, x = a ++ d /\
    forallb is_ascii_upper a = true /\ (lo <= length a <= hi)%nat /\
    forallb is_digit d = true /\ (k <= length d)%nat.

(** The parcel read from [parcel_line]. *)
Definition scenario_parcel : parcel :=
  {| ngay_thang_vao_so := u "05/06/2001";
     so_thu_tu_thua_dat := u "12";
     so_thu_tu_to_ban_do := u "3";
     dt_rieng_m2 := u "150.5";
     dt_chung_m2 := [];
     muc_dich_su_dung := u "ONT";
     thoi_han_su_dung := u "Lâu dài";
     nguon_goc_su_dung := u "DG - KTT";
     so_phat_hanh_gcn := u "BM350395";
     so_vao_so := u "CH02488";
     thua_raw := parcel_line |}.

(** The words "Lâu dài" in any letter case, with any white space
    between them. *)
Definition lau_dai (x : text) : Prop :=
  exists a blanks b, x = a ++ blanks ++ b /\
    map cfold a = map cfold (u "Lâu") /\ forallb is_space blanks = true /\
    map cfold b = map cfold (u "dài").

(** Two groups of two to four capital letters around a hyphen. *)
Definition origin_shaped (x : text) : Prop :=
  exists a s1 s2 b, x = a ++ s1 ++ 45 :: s2 ++ b /\
    forallb is_ascii_upper a = true /\ (2 <= length a <= 4)%nat /\
    forallb is_space s1 = true /\ forallb is_space s2 = true /\
    forallb is_ascii_upper b = true /\ (2 <= length b <= 4)%nat.

(** A token of the white-space split: not empty, and white space
    throughout or free of white space. *)
Definition run_token (t : text) : bool :=
  truthy t && (forallb is_space t || negb (existsb is_space t)).

(** Neighbouring tokens are of different kinds. *)
Fixpoint alternating (l : list text) : bool :=
  match l with
  | a :: (b :: _) as tl =>
      negb (Bool.eqb (head_is is_space a) (head_is is_space b)) && alternating tl
  | _ => true
  end.

Section ToText.

Variable detectCharset : text -> result value.
Variable convert : text -> value -> result value.

(** [to_text] of [test.py], for a cell that is [None] or whose [str(v)]
    is [s]: rescue the encoding, then normalise the white space (which
    needs the rescued cell to be a [str]). *)
Definition to_text (v : option text) : result text :=
  match v with
  | None => Ret []
  | Some s =>
      bind (fix_mixed_to_unicode detectCharset convert (VStr s))
           (fun s1 => match s1 with
                      | VStr t => Ret (normalize_text t)
                      | _ => Raise "AttributeError"
                      end)
  end.

End ToText.

(** The person of a line, if any, as a list. *)
Definition olist (o : option person) : list person :=
  match o with Some p => [p] | None => [] end.

(* ================================================================== *)
(** * Part II: properties *)

(* ================================================================== *)
(** ** Text equality *)

Lemma text_eqb_spec a b : text_eqb a b = true <-> a = b.
Proof.
  revert b; induction a as [|x a IH]; intros [|y b]; simpl;
    try (split; [discriminate | discriminate]); try tauto.
  rewrite andb_true_iff, Z.eqb_eq, IH. split.
  - intros [-> ->]; reflexivity.
  - intros E; injection E; auto.
Qed.

Lemma text_eqb_refl a : text_eqb a a = true.
Proof. apply text_eqb_spec; reflexivity. Qed.

(* ================================================================== *)
(** ** Facts about the normaliser *)

Lemma space_not_underscore c : is_space c = true -> (95 =? c) = false.
Proof.
  intros H. destruct (Z.eqb_spec 95 c) as [<-|]; [discriminate H | reflexivity].
Qed.

Lemma replace_nbsp_blank s :
  forallb is_space s = true -> forallb is_space (replace_char 160 32 s) = true.
Proof.
  induction s as [|c s IH]; simpl; [reflexivity|].
  rewrite !andb_true_iff. intros [Hc Hs]. split; [|auto].
  destruct (c =? 160); [reflexivity | exact Hc].
Qed.

Lemma sub_runs_none (p : Z -> bool) s b :
  (forall c, In c s -> p c = false) -> sub_runs p b s = s.
Proof.
  revert b. induction s as [|c s IH]; intros b H; [reflexivity|].
  change (sub_runs p b (c :: s))
    with (if p c then (if b then sub_runs p true s else 32 :: sub_runs p true s)
          else c :: sub_runs p false s).
  rewrite (H c (or_introl eq_refl)). f_equal.
  apply IH. intros d Hd. apply H. right. exact Hd.
Qed.

Lemma sub_underscores_blank s b :
  forallb is_space s = true -> sub_runs (Z.eqb 95) b s = s.
Proof.
  intros H. apply sub_runs_none. intros c Hc.
  apply space_not_underscore.
  rewrite forallb_forall in H. apply H, Hc.
Qed.

Lemma sub_spaces_blank_in_run s :
  forallb is_space s = true -> sub_runs is_space true s = [].
Proof.
  induction s as [|c s IH]; simpl; [reflexivity|].
  rewrite andb_true_iff. intros [-> Hs]. apply IH, Hs.
Qed.

(** A line made of white space only normalises to the empty string. *)
Lemma normalize_text_blank s :
  forallb is_space s = true -> normalize_text s = [].
Proof.
  intros H. unfold normalize_text.
  pose proof (replace_nbsp_blank s H) as H1.
  rewrite (sub_underscores_blank _ false H1).
  destruct (replace_char 160 32 s) as [|c tl]; [reflexivity|].
  simpl in H1. apply andb_true_iff in H1 as [Hc Htl].
  simpl. rewrite Hc, (sub_spaces_blank_in_run tl Htl). reflexivity.
Qed.

Lemma header_i_not_empty s :
  is_section_header_i s = true -> truthy s = true.
Proof.
  destruct s; [intros H; vm_compute in H; discriminate | reflexivity].
Qed.

(* ================================================================== *)
(** ** Facts about the segmenter *)

Lemma run_app l1 l2 : run (l1 ++ l2) = run_from (run l1) l2.
Proof. unfold run, run_from. apply fold_left_app. Qed.

Lemma step_keeps_closed_is_empty st raw :
  closed_is_empty st -> closed_is_empty (step st raw).
Proof.
  intros Hinv. unfold step.
  destruct (negb (truthy (normalize_text raw))); [exact Hinv|].
  destruct (is_section_header_i (normalize_text raw)).
  { intros H; discriminate H. }
  destruct (in_bia st) eqn:Hb; simpl; [|exact Hinv].
  assert (Hany : forall st', in_bia st' = true -> closed_is_empty st').
  { intros st' E H. rewrite E in H. discriminate H. }
  destruct (is_section_header_ii (normalize_text raw)); [apply Hany; simpl; auto|].
  destruct (section st) as [[|]|]; try exact Hinv.
  - destruct (is_address_line (normalize_text raw)).
    + unfold address_line. destruct (current_people st); [exact Hinv|].
      match goal with |- closed_is_empty (if ?c then _ else _) =>
        destruct c end; [apply Hany; simpl; auto | exact Hinv].
    + destruct (parse_person (normalize_text raw));
        [apply Hany; simpl; auto | exact Hinv].
  - destruct (parse_parcel_line_v2 (normalize_text raw));
      [apply Hany; simpl; auto | exact Hinv].
Qed.

Lemma run_from_closed_is_empty lines st :
  closed_is_empty st -> closed_is_empty (run_from st lines).
Proof.
  revert st. induction lines as [|l lines IH]; intros st H; [exact H|].
  apply IH, step_keeps_closed_is_empty, H.
Qed.

Lemma run_closed_is_empty lines : closed_is_empty (run lines).
Proof.
  apply run_from_closed_is_empty. intros _. repeat split.
Qed.

Lemma step_blank st b : normalize_text b = [] -> step st b = st.
Proof. intros E. unfold step. rewrite E. reflexivity. Qed.

Lemma step_outside st l :
  in_bia st = false ->
  is_section_header_i (normalize_text l) = false ->
  step st l = st.
Proof.
  intros Hb Hh. unfold step. rewrite Hh, Hb.
  destruct (negb (truthy (normalize_text l))); reflexivity.
Qed.

(* ================================================================== *)
(** ** Segmentation boundary *)

(** C1.  Whatever lines came before, so whether the segmenter is outside
    any record, in section I or in section II, a line of the repertoire
    that the section-I header predicate accepts flushes the record in
    progress and opens a new, empty record in section I: the people and
    parcels are empty afterwards, the rows emitted before are kept, and a
    record holding at least one person or parcel contributes its rows,
    one per parcel in order (one with empty parcel columns when it has no
    parcel), each made of the ten columns of the parcel followed by the
    five columns of the first and of the second person, after address
    propagation and empty for an absent person.
    ([group_records_from_df] of [appexcel2.py] does the same at every
    row it tests, but reads the row right below a section-II header as
    the title row of the parcel table without testing it: a section-I
    header in that one position opens no record there.) *)
Theorem header_i_flushes_then_opens (pre : list text) (h : text) :
  latin h = true ->
  is_section_header_i (normalize_text h) = true ->
  let st := run pre in
  let st' := step st h in
  label_of st' = IN_PERSONS /\
  section st' = Some SecI /\ in_bia st' = true /\
  current_people st' = [] /\ current_parcels st' = [] /\
  (exists emitted, rows st' = rows st ++ emitted) /\
  (current_people st <> [] \/ current_parcels st <> [] ->
   let people := propagate_addresses (current_people st) in
   let p1 := nth 0 people (Person [] [] [] [] []) in
   let p2 := nth 1 people (Person [] [] [] [] []) in
   let row_of (thua : parcel) : row :=
     [ ("Ngày tháng vào sổ", ngay_thang_vao_so thua);
       ("Số thứ tự thửa đất", so_thu_tu_thua_dat thua);
       ("Số thứ tự tờ bản đồ", so_thu_tu_to_ban_do thua);
       ("Diện tích sử dụng riêng (m²)", dt_rieng_m2 thua);
       ("Diện tích sử dụng chung (m²)", dt_chung_m2 thua);
       ("Mục đích sử dụng", muc_dich_su_dung thua);
       ("Thời hạn sử dụng", thoi_han_su_dung thua);
       ("Nguồn gốc sử dụng", nguon_goc_su_dung thua);
       ("Số phát hành GCN", so_phat_hanh_gcn thua);
       ("Số vào sổ", so_vao_so thua);
       ("Tên chủ 1", full_name p1);
       ("Năm sinh 1", birth_year p1);
       ("Số giấy tờ 1", id_number p1);
       ("Ngày cấp 1", issue_date p1);
       ("Địa chỉ 1", address p1);
       ("Tên chủ 2", full_name p2);
       ("Năm sinh 2", birth_year p2);
       ("Số giấy tờ 2", id_number p2);
       ("Ngày cấp 2", issue_date p2);
       ("Địa chỉ 2", address p2) ] in
   rows st' = rows st ++
     match current_parcels st with
     | [] => [row_of (Parcel [] [] [] [] [] [] [] [] [] [] [])]
     | _ :: _ => map row_of (current_parcels st)
     end).
Proof.
  intros _ Hh st st'.
  pose proof (run_closed_is_empty pre) as Hinv. fold st in Hinv.
  assert (E : st' =
    {| rows := rows (flush_bia st); section := Some SecI; in_bia := true;
       current_people := current_people (flush_bia st);
       current_parcels := current_parcels (flush_bia st) |}).
  { unfold st', step. rewrite (header_i_not_empty _ Hh), Hh. reflexivity. }
  rewrite E. unfold label_of. simpl. unfold flush_bia.
  destruct (in_bia st) eqn:Hb; simpl.
  - repeat split; eauto.
    intros _. unfold record_rows.
    destruct (current_parcels st); reflexivity.
  - destruct (Hinv Hb) as (Hp & Hq & _).
    repeat split; auto.
    + exists []. rewrite app_nil_r. reflexivity.
    + intros [H|H]; contradiction.
Qed.

Lemma header_i_flushes_then_opens_witness :
  latin header_line = true /\
  is_section_header_i (normalize_text header_line) = true /\
  current_people (step (run [header_line; person_line]) header_line) = [] /\
  rows (step (run [header_line; person_line]) header_line)
  = [ [ ("Ngày tháng vào sổ", []); ("Số thứ tự thửa đất", []);
        ("Số thứ tự tờ bản đồ", []); ("Diện tích sử dụng riêng (m²)", []);
        ("Diện tích sử dụng chung (m²)", []); ("Mục đích sử dụng", []);
        ("Thời hạn sử dụng", []); ("Nguồn gốc sử dụng", []);
        ("Số phát hành GCN", []); ("Số vào sổ", []);
        ("Tên chủ 1", u "Trần B"); ("Năm sinh 1", u "1950");
        ("Số giấy tờ 1", u "012345678901"); ("Ngày cấp 1", []);
        ("Địa chỉ 1", []);
        ("Tên chủ 2", []); ("Năm sinh 2", []); ("Số giấy tờ 2", []);
        ("Ngày cấp 2", []); ("Địa chỉ 2", []) ] ].
Proof.
  assert (Hl : latin header_line = true) by (vm_compute; reflexivity).
  assert (Hh : is_section_header_i (normalize_text header_line) = true)
    by (vm_compute; reflexivity).
  split; [exact Hl|]. split; [exact Hh|].
  destruct (header_i_flushes_then_opens [header_line; person_line] header_line
              Hl Hh)
    as (_ & _ & _ & Hp & _ & _ & Hr).
  split; [exact Hp|].
  rewrite Hr; [vm_compute; reflexivity | left; vm_compute; discriminate].
Defined.

(** The header is met in each of the three states. *)
Lemma header_i_met_in_each_state :
  label_of (run []) = OUTSIDE /\
  label_of (run [header_line; person_line]) = IN_PERSONS /\
  label_of (run [header_line; person_line; parcels_line; parcel_line])
  = IN_PARCELS /\
  label_of (step (run []) header_line) = IN_PERSONS /\
  label_of (step (run [header_line; person_line]) header_line) = IN_PERSONS /\
  label_of (step (run [header_line; person_line; parcels_line; parcel_line])
                 header_line) = IN_PERSONS /\
  length (rows (step (run [header_line; person_line; parcels_line; parcel_line])
                     header_line)) = 1%nat.
Proof. repeat split; vm_compute; reflexivity. Qed.

(* ================================================================== *)
(** ** Flush of an empty record *)

(** C2 (behaviour of [xuatdulieu.py]).  A record that is opened by a
    section-I header and receives no person and no parcel is not dropped
    at the end of the input: [flush_bia] only tests [in_bia] and emits
    one row whose twenty columns are all empty. *)
Theorem empty_record_emits_blank_row :
  group_records [header_line] = [make_row no_person no_person no_parcel].
Proof. vm_compute. reflexivity. Qed.

(** The same happens when the flush is triggered by the next header. *)
Lemma next_header_flushes_blank_row :
  rows (run [header_line; header_line])
  = [make_row no_person no_person no_parcel].
Proof. vm_compute. reflexivity. Qed.

(** The sibling flush of [appexcel2.py] does drop such a record. *)
Lemma guarded_flush_discards_empty st :
  current_people st = [] -> current_parcels st = [] ->
  Appexcel2.flush_bia st = st.
Proof. intros Hp Hq. unfold Appexcel2.flush_bia. rewrite Hp, Hq. reflexivity. Qed.

(* ================================================================== *)
(** ** Row count law *)

Lemma record_rows_length people parcels :
  length (record_rows people parcels) = Nat.max 1 (length parcels).
Proof.
  unfold record_rows. rewrite length_map.
  destruct parcels as [|a [|b l]]; simpl; reflexivity.
Qed.

(** C3.  Flushing an open record that holds at least one person or one
    parcel appends exactly [max 1 (number of parcels)] rows: one row per
    parcel, in order, when there are parcels, and otherwise a single row
    whose ten parcel columns are empty. *)
Theorem flush_emits_max_1_parcels_rows (st : state) :
  in_bia st = true ->
  current_people st <> [] \/ current_parcels st <> [] ->
  exists emitted,
    rows (flush_bia st) = rows st ++ emitted /\
    length emitted = Nat.max 1 (length (current_parcels st)) /\
    (let people := propagate_addresses (current_people st) in
     let p1 := nth 0 people no_person in
     let p2 := nth 1 people no_person in
     (current_parcels st <> [] ->
      emitted = map (make_row p1 p2) (current_parcels st)) /\
     (current_parcels st = [] ->
      exists r, emitted = [r] /\ r = make_row p1 p2 no_parcel /\
                map snd (firstn 10 r) = repeat [] 10)).
Proof.
  intros Hb _.
  exists (record_rows (propagate_addresses (current_people st))
                      (current_parcels st)).
  split; [unfold flush_bia; rewrite Hb; reflexivity|].
  split; [apply record_rows_length|].
  unfold record_rows. split.
  - destruct (current_parcels st); [intros H; contradiction | reflexivity].
  - intros ->. eexists. repeat split.
Qed.

Lemma flush_emits_max_1_parcels_rows_witness :
  let st := run [header_line; person_line; parcels_line; parcel_line;
                 parcel_line] in
  in_bia st = true /\
  (current_people st <> [] \/ current_parcels st <> []) /\
  length (rows (flush_bia st)) = 2%nat.
Proof.
  intros st.
  assert (Hb : in_bia st = true) by (vm_compute; reflexivity).
  assert (Hne : current_people st <> [] \/ current_parcels st <> [])
    by (left; vm_compute; discriminate).
  split; [exact Hb|]. split; [exact Hne|].
  destruct (flush_emits_max_1_parcels_rows st Hb Hne) as (em & E & L & _).
  rewrite E, length_app, L. vm_compute. reflexivity.
Defined.

(* ================================================================== *)
(** ** Blank lines *)

Lemma run_from_drop_blank st l1 b l2 :
  normalize_text b = [] ->
  run_from st (l1 ++ b :: l2) = run_from st (l1 ++ l2).
Proof.
  intros E. unfold run_from. rewrite !fold_left_app. simpl.
  rewrite (step_blank _ b E). reflexivity.
Qed.

(** C9.  A line that is empty or made of white space only leaves the
    whole segmenter state as it was (label, people, parcels and rows), so
    inserting or deleting such a line anywhere in the input does not
    change the output rows. *)
Theorem blank_line_is_ignored (b : text) :
  forallb is_space b = true ->
  (forall st, step st b = st) /\
  (forall l1 l2, run (l1 ++ b :: l2) = run (l1 ++ l2)) /\
  (forall l1 l2, group_records (l1 ++ b :: l2) = group_records (l1 ++ l2)).
Proof.
  intros H. pose proof (normalize_text_blank b H) as E.
  assert (R : forall l1 l2, run (l1 ++ b :: l2) = run (l1 ++ l2))
    by (intros l1 l2; exact (run_from_drop_blank init_state l1 b l2 E)).
  split; [intros st; apply step_blank, E|].
  split; [exact R|].
  intros l1 l2. unfold group_records. rewrite R. reflexivity.
Qed.

Lemma blank_line_is_ignored_witness :
  let b := u "   " in
  forallb is_space b = true /\
  group_records ([header_line; person_line] ++ b :: [parcels_line; parcel_line])
  = group_records ([header_line; person_line] ++ [parcels_line; parcel_line]).
Proof.
  intros b.
  assert (H : forallb is_space b = true) by (vm_compute; reflexivity).
  split; [exact H|].
  destruct (blank_line_is_ignored b H) as (_ & _ & G). apply G.
Defined.

(* ================================================================== *)
(** ** Lines before the first header *)

Lemma run_from_no_header pre st :
  in_bia st = false ->
  forallb not_header_i pre = true -> run_from st pre = st.
Proof.
  revert st. induction pre as [|l pre IH]; intros st Hb H; [reflexivity|].
  simpl in H. apply andb_true_iff in H as [Hl Hpre].
  unfold not_header_i in Hl. apply negb_true_iff in Hl.
  unfold run_from in *. simpl. rewrite (step_outside st l Hb Hl).
  apply IH; assumption.
Qed.

(** C10.  Lines that come before the first section-I header are dropped
    without any effect, whatever they look like: for a prefix of lines of
    the repertoire without such a header the output is the output of the
    remaining lines. *)
Theorem lines_before_first_header_are_dropped (pre suf : list text) :
  forallb latin pre = true ->
  forallb not_header_i pre = true ->
  group_records (pre ++ suf) = group_records suf.
Proof.
  intros _ H. unfold group_records. rewrite run_app.
  unfold run at 1. fold (run_from init_state pre).
  rewrite (run_from_no_header pre init_state eq_refl H). reflexivity.
Qed.

Lemma lines_before_first_header_are_dropped_witness :
  let pre := [u "Hộ ông: Nguyễn A, sinh năm 1938, số CMND 220515369";
              u "Địa chỉ: thôn 1"; parcels_line; parcel_line] in
  let suf := [header_line; person_line; parcels_line; parcel_line] in
  forallb latin pre = true /\
  forallb not_header_i pre = true /\
  group_records (pre ++ suf) = group_records suf /\
  length (group_records suf) = 1%nat.
Proof.
  intros pre suf.
  assert (L : forallb latin pre = true) by (vm_compute; reflexivity).
  assert (H : forallb not_header_i pre = true) by (vm_compute; reflexivity).
  split; [exact L|]. split; [exact H|].
  split; [apply (lines_before_first_header_are_dropped pre suf L H)|].
  vm_compute. reflexivity.
Defined.

(* ================================================================== *)
(** ** Address propagation law *)

Lemma truthy_false_nil (s : text) : truthy s = false -> s = [].
Proof. destruct s; [reflexivity | discriminate]. Qed.

(** What [propagate_addresses] does to an arbitrary list. *)
Lemma propagate_addresses_facts (people : list person) :
  (forall a, uniq_addresses people = [a] ->
     propagate_addresses people = map (fill_address a) people /\
     ((forall p, In p people -> strip is_space (address p) = address p) ->
      forall p', In p' (propagate_addresses people) -> address p' = a)) /\
  (length (uniq_addresses people) <> 1%nat ->
     propagate_addresses people = people) /\
  Forall2 (fun p p' =>
             (truthy (address p) = true -> p' = p) /\
             full_name p' = full_name p /\ birth_year p' = birth_year p /\
             id_number p' = id_number p /\ issue_date p' = issue_date p)
          people (propagate_addresses people).
Proof.
  split; [|split].
  - intros a Ha.
    assert (E : propagate_addresses people = map (fill_address a) people)
      by (unfold propagate_addresses; rewrite Ha; reflexivity).
    split; [exact E|].
    intros Hstripped p' Hp'. rewrite E in Hp'.
    apply in_map_iff in Hp' as (p & <- & Hp).
    unfold fill_address. destruct (truthy (address p)) eqn:Ht; [|reflexivity].
    assert (Hin : In (address p) (uniq_addresses people)).
    { unfold uniq_addresses. apply nodup_In, filter_In. split; [|exact Ht].
      apply in_map_iff. exists p. split; [apply Hstripped, Hp | exact Hp]. }
    rewrite Ha in Hin. destruct Hin as [<-|[]]. reflexivity.
  - intros Hlen. unfold propagate_addresses.
    destruct (uniq_addresses people) as [|x [|y l]]; try reflexivity.
    exfalso. apply Hlen. reflexivity.
  - assert (Hsame : Forall2 (fun p p' =>
             (truthy (address p) = true -> p' = p) /\
             full_name p' = full_name p /\ birth_year p' = birth_year p /\
             id_number p' = id_number p /\ issue_date p' = issue_date p)
          people people).
    { induction people; constructor; auto; repeat split. }
    unfold propagate_addresses.
    destruct (uniq_addresses people) as [|a [|y l]]; try exact Hsame.
    clear Hsame. induction people as [|p people IH]; simpl; constructor; [|exact IH].
    unfold fill_address. destruct (truthy (address p)); repeat split.
    intros H; discriminate H.
Qed.

(* ================================================================== *)
(** ** The matcher only reports characters of its subject *)

Lemma more_keeps_within f greedy n :
  keeps_within f -> keeps_within (fun k => more f greedy n k).
Proof.
  intros Hf. induction n as [|n IH]; intros k st m S W H; simpl in H.
  - eauto.
  - destruct greedy.
    + destruct (f (more f true n k) st) eqn:E.
      * injection H as <-. destruct (Hf _ _ _ _ W E) as (st1 & W1 & H1).
        exact (IH _ _ _ _ W1 H1).
      * eauto.
    + destruct (k st) eqn:E.
      * injection H as <-. eauto.
      * destruct (Hf _ _ _ _ W H) as (st1 & W1 & H1).
        exact (IH _ _ _ _ W1 H1).
Qed.

Lemma must_keeps_within f n :
  keeps_within f -> keeps_within (must f n).
Proof.
  intros Hf. induction n as [|n IH]; intros k st m S W H; simpl in H.
  - eauto.
  - destruct (Hf _ _ _ _ W H) as (st1 & W1 & H1).
    exact (IH _ _ _ _ W1 H1).
Qed.

Lemma firstn_incl (n : nat) (l : text) : incl (firstn n l) l.
Proof.
  intros c Hc. rewrite <- (firstn_skipn n l). apply in_or_app. left. exact Hc.
Qed.

Lemma consumed_incl st0 st1 : incl (consumed st0 st1) (rest st0).
Proof. apply firstn_incl. Qed.

Lemma mt_keeps_within r : keeps_within (mt r).
Proof.
  induction r as [|p|a IHa b IHb|a IHa b IHb|g lo extra a IHa|n a IHa| | | |a IHa];
    intros k st m S W H; simpl in H.
  - eauto.
  - destruct (rest st) as [|c tl] eqn:Er; [discriminate|].
    destruct (p c); [|discriminate].
    exists (advance c tl st). split; [|exact H].
    destruct W as (W1 & W2 & W3). rewrite Er in W2.
    repeat split; simpl; auto.
    + intros x [<-|Hx]; [apply W2; left; reflexivity | apply W1, Hx].
    + intros x Hx. apply W2. right. exact Hx.
  - destruct (IHa _ _ _ _ W H) as (st1 & W1 & H1). exact (IHb _ _ _ _ W1 H1).
  - destruct (mt a k st) eqn:E.
    + injection H as <-. exact (IHa _ _ _ _ W E).
    + exact (IHb _ _ _ _ W H).
  - destruct (@must_keeps_within (mt a) lo IHa _ _ _ S W H) as (st1 & W1 & H1).
    exact (@more_keeps_within (mt a) g _ IHa _ _ _ S W1 H1).
  - destruct (IHa _ _ _ _ W H) as (st1 & W1 & H1).
    exists (set_group n st st1). split; [|exact H1].
    destruct W as (Wa & Wb & Wc). destruct W1 as (W1a & W1b & W1c).
    repeat split; simpl; auto.
    constructor; [|exact W1c]. simpl.
    intros x Hx. apply Wb. exact (@consumed_incl st st1 x Hx).
  - destruct (at_start st); [eauto | discriminate].
  - destruct (at_end st); [eauto | discriminate].
  - destruct (at_word_boundary st); [eauto | discriminate].
  - destruct (mt a Some st); [eauto | discriminate].
Qed.

Lemma within_fresh S sn rs :
  incl sn S -> incl rs S -> within S {| seen := sn; rest := rs; caps := [] |}.
Proof. intros H1 H2. repeat split; simpl; auto. Qed.

Lemma mt_result_within r S sn rs m :
  incl sn S -> incl rs S ->
  mt r Some {| seen := sn; rest := rs; caps := [] |} = Some m -> within S m.
Proof.
  intros Hsn Hrs E.
  destruct (@mt_keeps_within r Some _ m S (within_fresh Hsn Hrs) E)
    as (st' & W & E').
  injection E' as <-. exact W.
Qed.

Lemma search_from_within r S rs : forall sn m,
  incl sn S -> incl rs S ->
  search_from r sn rs = Some m -> within S m.
Proof.
  induction rs as [|c rs IH]; intros sn m Hsn Hrs H; simpl in H.
  - destruct (mt r Some {| seen := sn; rest := []; caps := [] |}) eqn:E;
      [|discriminate].
    injection H as <-. exact (mt_result_within r Hsn Hrs E).
  - destruct (mt r Some {| seen := sn; rest := c :: rs; caps := [] |}) eqn:E.
    + injection H as <-. exact (mt_result_within r Hsn Hrs E).
    + apply (IH (c :: sn)); [| |exact H].
      * intros x [<-|Hx]; [apply Hrs; left; reflexivity | apply Hsn, Hx].
      * intros x Hx. apply Hrs. right. exact Hx.
Qed.

Lemma lookup_group_incl n cs S :
  Forall (fun nt => incl (snd nt) S) cs -> incl (lookup_group n cs) S.
Proof.
  induction 1 as [|[i t] cs Ht _ IH]; simpl; [intros x []|].
  destruct (Nat.eqb i n); [exact Ht | exact IH].
Qed.

Lemma group_within n m S : within S m -> incl (group n m) S.
Proof. intros (_ & _ & W). apply lookup_group_incl, W. Qed.

(** A group of [re.search(r, s)] is made of characters of [s]. *)
Lemma re_search_group_incl r s m n :
  re_search r s = Some m -> incl (group n m) s.
Proof.
  intros H. apply group_within.
  apply (@search_from_within r s s [] m); auto using incl_refl.
  intros x [].
Qed.

Lemma findall_from_incl r S fuel : forall sn rs tok,
  incl sn S -> incl rs S ->
  In tok (findall_from fuel r sn rs) -> incl tok S.
Proof.
  induction fuel as [|fuel IH]; intros sn rs tok Hsn Hrs H; simpl in H; [destruct H|].
  destruct (search_from r sn rs) as [m|] eqn:E; [|destruct H].
  pose proof (search_from_within r Hsn Hrs E) as W.
  destruct H as [<-|H]; [apply group_within, W|].
  destruct (Nat.ltb (length (rest m)) (length rs)); [|destruct H].
  destruct W as (W1 & W2 & _). exact (IH _ _ _ W1 W2 H).
Qed.

Lemma re_findall_incl r s tok : In tok (re_findall r s) -> incl tok s.
Proof.
  apply findall_from_incl; auto using incl_refl. intros x [].
Qed.

(* ================================================================== *)
(** ** The normaliser only adds spaces *)

Lemma replace_char_in a b s c :
  In c (replace_char a b s) -> In c s \/ c = b.
Proof.
  unfold replace_char. intros H. apply in_map_iff in H as (x & E & Hx).
  destruct (x =? a); subst; auto.
Qed.

Lemma sub_runs_in p b s c :
  In c (sub_runs p b s) -> In c s \/ c = 32.
Proof.
  revert b. induction s as [|x s IH]; intros b H; simpl in H; [destruct H|].
  destruct (p x).
  - destruct b.
    + destruct (IH _ H); auto. left. right. assumption.
    + destruct H as [<-|H]; auto. destruct (IH _ H); auto. left. right. assumption.
  - destruct H as [<-|H]; [left; left; reflexivity|].
    destruct (IH _ H); auto. left. right. assumption.
Qed.

Lemma lstrip_incl p s : incl (lstrip p s) s.
Proof.
  induction s as [|x s IH]; simpl; [apply incl_refl|].
  destruct (p x); [apply incl_tl, IH | apply incl_refl].
Qed.

Lemma strip_incl p s : incl (strip p s) s.
Proof.
  unfold strip, rstrip. intros c Hc.
  apply in_rev in Hc. apply lstrip_incl in Hc. apply in_rev in Hc.
  apply lstrip_incl in Hc. exact Hc.
Qed.

Lemma normalize_text_in t c :
  In c (normalize_text t) -> In c t \/ c = 32.
Proof.
  unfold normalize_text. intros H. apply strip_incl in H.
  apply sub_runs_in in H as [H|H]; auto.
  apply sub_runs_in in H as [H|H]; auto.
  apply replace_char_in in H as [H|H]; auto.
Qed.

(* ================================================================== *)
(** ** Identity numbers *)

Lemma parse_person_fields t p :
  parse_person t = Some p ->
  id_number p = find_id_number (normalize_text t) /\
  issue_date p = find_issue_date (normalize_text t) /\
  address p = [].
Proof.
  unfold parse_person. cbv zeta.
  destruct (negb (truthy (normalize_text t)) || is_address_line (normalize_text t)
            || negb (is_person_like (normalize_text t))); [discriminate|].
  match goal with |- (if ?c then _ else _) = _ -> _ => destruct c end;
    [discriminate|].
  intros H. injection H as <-. simpl. repeat split.
Qed.

Lemma normalize_id_cases tok :
  normalize_id tok = [] \/
  (normalize_id tok = filter is_digit tok /\
   (9 <= length (filter is_digit tok) <= 12)%nat).
Proof.
  unfold normalize_id.
  destruct (9 <=? length (filter is_digit tok))%nat eqn:E1; simpl; auto.
  destruct (length (filter is_digit tok) <=? 12)%nat eqn:E2; simpl; auto.
  right. split; [reflexivity|].
  apply Nat.leb_le in E1. apply Nat.leb_le in E2. lia.
Qed.

Lemma first_valid_id_cases toks :
  first_valid_id toks = [] \/
  exists tok, In tok toks /\ first_valid_id toks = normalize_id tok.
Proof.
  induction toks as [|tok toks IH]; simpl; auto.
  destruct (truthy (normalize_id tok)).
  - right. exists tok. auto.
  - destruct IH as [IH|(tok' & Hin & E)]; auto.
    right. exists tok'. auto.
Qed.

(** The number found in a line is empty or is [normalize_id] of a token
    cut out of that line. *)
Lemma find_id_number_cases s :
  find_id_number s = [] \/
  exists tok, incl tok s /\ find_id_number s = normalize_id tok.
Proof.
  unfold find_id_number.
  destruct (re_search id_labeled_re s) as [m|] eqn:E.
  - destruct (truthy (normalize_id (group 1 m))) eqn:T.
    + right. exists (group 1 m). split; [|reflexivity].
      exact (re_search_group_incl id_labeled_re s 1 E).
    + destruct (first_valid_id_cases (re_findall RE_ID s))
        as [->|(tok & Hin & ->)]; auto.
      right. exists tok. split; [|reflexivity].
      exact (re_findall_incl RE_ID s tok Hin).
  - simpl.
    destruct (first_valid_id_cases (re_findall RE_ID s))
      as [->|(tok & Hin & ->)]; auto.
    right. exists tok. split; [|reflexivity].
    exact (re_findall_incl RE_ID s tok Hin).
Qed.

Lemma filter_forallb (p : Z -> bool) s : forallb p (filter p s) = true.
Proof.
  induction s as [|c s IH]; simpl; [reflexivity|].
  destruct (p c) eqn:E; simpl; [rewrite E|]; exact IH.
Qed.

(** C8, as the code has it.  The identity number of an extracted person
    is empty or is made of 9 to 12 characters of the line, each a decimal
    digit in the sense of the pattern class [\d] (any Unicode decimal
    digit); they are ASCII digits whenever the line has no other decimal
    digit.  A token whose digits number fewer than 9 or more than 12 is
    normalised to the empty string. *)
Theorem parse_person_id_number_digits :
  (forall t p,
     parse_person t = Some p ->
     id_number p = [] \/
     ((9 <= length (id_number p) <= 12)%nat /\
      forallb is_digit (id_number p) = true /\
      (forall c, In c (id_number p) -> In c t) /\
      ((forall c, In c t -> is_digit c = true -> is_ascii_digit c = true) ->
       forallb is_ascii_digit (id_number p) = true))) /\
  (forall tok,
     ~ (9 <= length (filter is_digit tok) <= 12)%nat ->
     normalize_id tok = []).
Proof.
  split.
  - intros t p H. destruct (parse_person_fields t H) as (-> & _).
    destruct (find_id_number_cases (normalize_text t)) as [E|(tok & Hin & E)];
      [left; exact E|].
    rewrite E. destruct (normalize_id_cases tok) as [N|(N & L)];
      [left; exact N | right].
    rewrite N.
    assert (Hfrom : forall c, In c (filter is_digit tok) ->
                              In c t /\ is_digit c = true).
    { intros c Hc. apply filter_In in Hc as (Hc & Hd). split; [|exact Hd].
      destruct (normalize_text_in t c (Hin c Hc)) as [Ht| ->]; [exact Ht|].
      vm_compute in Hd. discriminate Hd. }
    split; [exact L|]. split; [apply filter_forallb|].
    split; [intros c Hc; apply Hfrom, Hc|].
    intros Hascii. apply forallb_forall. intros c Hc.
    destruct (Hfrom c Hc) as (Ht & Hd). exact (Hascii c Ht Hd).
  - intros tok Hn. destruct (normalize_id_cases tok) as [N|(_ & L)];
      [exact N | contradiction].
Qed.

Lemma parse_person_id_number_digits_witness :
  exists p, parse_person scenario_line = Some p /\
    (id_number p = [] \/
     ((9 <= length (id_number p) <= 12)%nat /\
      forallb is_digit (id_number p) = true /\
      (forall c, In c (id_number p) -> In c scenario_line) /\
      ((forall c, In c scenario_line -> is_digit c = true ->
                  is_ascii_digit c = true) ->
       forallb is_ascii_digit (id_number p) = true))).
Proof.
  destruct (parse_person scenario_line) as [p|] eqn:E;
    [|vm_compute in E; discriminate E].
  exists p. split; [reflexivity|].
  exact (proj1 parse_person_id_number_digits scenario_line p E).
Defined.

(** A labelled number whose last character is the Arabic-Indic digit
    nine (U+0669) is accepted: the last position of the labelled pattern
    and the cleaning step both use [\d]. *)
Lemma id_number_non_ascii_digit_counterexample :
  exists p,
    parse_person (u "Ông A, CMND 12345678٩") = Some p /\
    id_number p = u "12345678٩" /\
    length (id_number p) = 9%nat /\
    forallb is_ascii_digit (id_number p) = false.
Proof.
  eexists. split; [vm_compute; reflexivity|].
  repeat split.
Qed.

(* ================================================================== *)
(** ** Disjoint character classes *)

Lemma between_range lo hi c : between lo hi c = true -> In c (range_list lo hi).
Proof.
  unfold between. rewrite andb_true_iff, !Z.leb_le. intros [H1 H2].
  unfold range_list. apply in_map_iff. exists (Z.to_nat (c - lo)).
  split; [lia|]. apply in_seq. lia.
Qed.

Lemma is_space_in c : is_space c = true -> In c space_chars.
Proof.
  unfold is_space, space_chars. rewrite !orb_true_iff, !Z.eqb_eq.
  intros H. rewrite !in_app_iff.
  repeat match type of H with
         | _ \/ _ => destruct H as [H|H]
         end;
    try (apply between_range in H); subst; simpl; tauto.
Qed.

Lemma one_of_in cs c : one_of cs c = true -> In c cs.
Proof.
  unfold one_of. intros H. apply existsb_exists in H as (x & Hx & E).
  apply Z.eqb_eq in E. subst. exact Hx.
Qed.

(** Two classes are disjoint when the second is false on a list that
    covers the first. *)
Lemma disjoint_by_list (p q : Z -> bool) (cover : list Z) c :
  (p c = true -> In c cover) ->
  forallb (fun x => negb (q x)) cover = true ->
  p c = true -> q c = false.
Proof.
  intros Hcov Hall Hp. rewrite forallb_forall in Hall.
  apply negb_true_iff, Hall, Hcov, Hp.
Qed.

Lemma digit_not_space c : is_digit c = true -> is_space c = false.
Proof.
  intros Hd. destruct (is_space c) eqn:E; [|reflexivity].
  rewrite (@disjoint_by_list is_space is_digit space_chars c) in Hd;
    [discriminate | apply is_space_in | vm_compute; reflexivity | exact E].
Qed.


Lemma date_sep_not_digit c :
  one_of (u "/-.") c = true -> is_digit c = false.
Proof.
  apply disjoint_by_list with (cover := u "/-.");
    [apply one_of_in | vm_compute; reflexivity].
Qed.

(* ================================================================== *)
(** ** Greedy repetition of a character class *)

Lemma must_S f n K st : must f (S n) K st = f (must f n K) st.
Proof. reflexivity. Qed.

Lemma more_S_greedy f n k st :
  more f true (S n) k st =
  match f (more f true n k) st with
  | Some m => Some m
  | None => k st
  end.
Proof. reflexivity. Qed.

Lemma mt_Chr_cons p k sn c tl cs :
  mt (Chr p) k {| seen := sn; rest := c :: tl; caps := cs |}
  = if p c then k {| seen := c :: sn; rest := tl; caps := cs |} else None.
Proof. reflexivity. Qed.

Lemma mt_Chr_nil p k sn cs :
  mt (Chr p) k {| seen := sn; rest := []; caps := cs |} = None.
Proof. reflexivity. Qed.

Lemma mt_Seq a b k st : mt (Seq a b) k st = mt a (mt b k) st.
Proof. reflexivity. Qed.

Lemma mt_Grp n a k st :
  mt (Grp n a) k st = mt a (fun st' => k (set_group n st st')) st.
Proof. reflexivity. Qed.

Lemma mt_Rep g lo extra a k st :
  mt (Rep g lo extra a) k st =
  must (mt a) lo
    (fun st' =>
       more (mt a) g
            (match extra with Some e => e | None => length (rest st') end)
            k st') st.
Proof. reflexivity. Qed.

Section ClassRuns.

Variable p : Z -> bool.

(** Compulsory iterations over characters of the class. *)
Lemma must_class_run (run : text) : forall (K : kont) sn tl cs,
  forallb p run = true ->
  must (mt (Chr p)) (length run) K {| seen := sn; rest := run ++ tl; caps := cs |}
  = K {| seen := rev run ++ sn; rest := tl; caps := cs |}.
Proof.
  induction run as [|c run IH]; intros K sn tl cs H; [reflexivity|].
  simpl in H. apply andb_true_iff in H as [Hc Hrun].
  cbn [length app rev]. rewrite must_S, mt_Chr_cons, Hc.
  rewrite (IH K (c :: sn) tl cs Hrun). rewrite <- app_assoc. reflexivity.
Qed.

(** Optional greedy iterations: the whole run is taken when the
    continuation succeeds after it. *)
Lemma more_class_run (run : text) : forall n (k : kont) sn tl cs m,
  forallb p run = true ->
  (length run <= n)%nat ->
  length run = n \/ head_is p tl = false ->
  k {| seen := rev run ++ sn; rest := tl; caps := cs |} = Some m ->
  more (mt (Chr p)) true n k {| seen := sn; rest := run ++ tl; caps := cs |}
  = Some m.
Proof.
  induction run as [|c run IH]; intros n k sn tl cs m H Hn Hend Hk.
  - destruct n as [|n]; [exact Hk|].
    destruct Hend as [Hend|Hend]; [discriminate Hend|].
    cbn [app]. rewrite more_S_greedy.
    destruct tl as [|x tl].
    + rewrite mt_Chr_nil. exact Hk.
    + rewrite mt_Chr_cons. simpl in Hend. rewrite Hend. exact Hk.
  - simpl in H. apply andb_true_iff in H as [Hc Hrun].
    destruct n as [|n]; [simpl in Hn; lia|].
    cbn [app]. rewrite more_S_greedy, mt_Chr_cons, Hc.
    rewrite (IH n k (c :: sn) tl cs m Hrun); [reflexivity | simpl in Hn; lia | |].
    + destruct Hend as [Hend|Hend]; [left; simpl in Hend; lia | right; exact Hend].
    + simpl in Hk. rewrite <- app_assoc in Hk. exact Hk.
Qed.

(** [C*] takes a maximal run of the class. *)
Lemma star_class_run (run : text) (k : kont) sn tl cs m :
  forallb p run = true ->
  head_is p tl = false ->
  k {| seen := rev run ++ sn; rest := tl; caps := cs |} = Some m ->
  mt (star (Chr p)) k {| seen := sn; rest := run ++ tl; caps := cs |} = Some m.
Proof.
  intros H Hend Hk. unfold star. rewrite mt_Rep.
  change (more (mt (Chr p)) true (length (run ++ tl)) k
            {| seen := sn; rest := run ++ tl; caps := cs |} = Some m).
  apply more_class_run; auto. rewrite length_app. lia.
Qed.

(** [C{lo,hi}] takes a run of the class that is maximal or of length
    [hi]. *)
Lemma rep_class_run (lo hi : nat) (run : text) (k : kont) sn tl cs m :
  forallb p run = true ->
  (lo <= length run <= hi)%nat ->
  length run = hi \/ head_is p tl = false ->
  k {| seen := rev run ++ sn; rest := tl; caps := cs |} = Some m ->
  mt (rep lo hi (Chr p)) k {| seen := sn; rest := run ++ tl; caps := cs |}
  = Some m.
Proof.
  intros H Hlen Hend Hk. unfold rep. rewrite mt_Rep.
  assert (L1 : length (firstn lo run) = lo) by (rewrite length_firstn; lia).
  assert (L2 : length (skipn lo run) = (length run - lo)%nat)
    by (rewrite length_skipn; lia).
  revert H Hk. rewrite <- (firstn_skipn lo run).
  generalize dependent (firstn lo run). generalize dependent (skipn lo run).
  intros r2 L2 r1 L1 H Hk.
  rewrite forallb_app in H. apply andb_true_iff in H as [H1 H2].
  rewrite <- app_assoc. rewrite <- L1 at 1.
  rewrite (must_class_run r1 _ sn (r2 ++ tl) cs H1).
  apply more_class_run; auto; [lia | |].
  - destruct Hend as [Hend|Hend]; [left; lia | right; exact Hend].
  - rewrite rev_app_distr, <- app_assoc in Hk. exact Hk.
Qed.

End ClassRuns.

(* ================================================================== *)
(** ** Issue date under both keyword orders *)


Lemma len_between_spec lo hi s :
  len_between lo hi s = true -> (lo <= length s <= hi)%nat.
Proof.
  unfold len_between. rewrite andb_true_iff, !Nat.leb_le. tauto.
Qed.

Lemma consumed_app sn sn' cs cs' d post :
  consumed {| seen := sn; rest := d ++ post; caps := cs |}
           {| seen := sn'; rest := post; caps := cs' |} = d.
Proof.
  unfold consumed. simpl. rewrite length_app.
  replace (length d + length post - length post)%nat with (length d) by lia.
  rewrite firstn_app, firstn_all, Nat.sub_diag. simpl. apply app_nil_r.
Qed.

Lemma head_is_cons (p : Z -> bool) c tl : head_is p (c :: tl) = p c.
Proof. reflexivity. Qed.

(** The body of [RE_DATE] runs over a well-shaped, complete date token. *)
Lemma date_body_matches (k : kont) sn cs d1 s1 d2 s2 y post m :
  date_ok d1 s1 d2 s2 y = true ->
  date_ends_at y post = true ->
  k {| seen := rev y ++ s2 :: rev d2 ++ s1 :: rev d1 ++ sn; rest := post;
       caps := cs |} = Some m ->
  mt (cat [rep 1 2 digit; set_of "/-."; rep 1 2 digit; set_of "/-.";
           rep 2 4 digit]) k
     {| seen := sn; rest := d1 ++ s1 :: d2 ++ s2 :: y ++ post; caps := cs |}
  = Some m.
Proof.
  unfold date_ok. rewrite !andb_true_iff.
  intros (((((((D1 & L1) & S1) & D2) & L2) & S2) & Y) & LY) Hend Hk.
  apply len_between_spec in L1, L2, LY.
  change (cat [rep 1 2 digit; set_of "/-."; rep 1 2 digit; set_of "/-.";
               rep 2 4 digit])
    with (Seq (rep 1 2 (Chr is_digit))
           (Seq (Chr (one_of (u "/-.")))
             (Seq (rep 1 2 (Chr is_digit))
               (Seq (Chr (one_of (u "/-."))) (rep 2 4 (Chr is_digit)))))).
  rewrite mt_Seq. apply rep_class_run; auto.
  { right. rewrite head_is_cons. apply date_sep_not_digit, S1. }
  rewrite mt_Seq, mt_Chr_cons, S1.
  rewrite mt_Seq. apply rep_class_run; auto.
  { right. rewrite head_is_cons. apply date_sep_not_digit, S2. }
  rewrite mt_Seq, mt_Chr_cons, S2.
  apply rep_class_run; auto.
  unfold date_ends_at in Hend. apply orb_true_iff in Hend as [H|H].
  - left. apply Nat.eqb_eq, H.
  - right. apply negb_true_iff, H.
Qed.












(** The other order, with short day, month and year. *)
Lemma issue_date_cap_ngay_example :
  exists p,
    parse_person (u "Bà Lê Thị C, CCCD 012345678901 cấp ngày 4-1-97 tại Phú Yên")
    = Some p /\
    issue_date p = u "4-1-97".
Proof. eexists. split; vm_compute; reflexivity. Qed.

(* ================================================================== *)
(** ** Addresses built by the segmenter carry no surrounding white space *)

Lemma sub_runs_plain p b s c :
  In c (sub_runs p b s) -> c = 32 \/ p c = false.
Proof.
  revert b. induction s as [|x s IH]; intros b H; simpl in H; [destruct H|].
  destruct (p x) eqn:E.
  - destruct b; [exact (IH _ H)|].
    destruct H as [<-|H]; [left; reflexivity | exact (IH _ H)].
  - destruct H as [<-|H]; [right; exact E | exact (IH _ H)].
Qed.

Lemma normalize_text_plain t : plain_spaces (normalize_text t).
Proof.
  intros c Hc Hs. unfold normalize_text in Hc. apply strip_incl in Hc.
  apply sub_runs_plain in Hc as [Hc|Hc]; [exact Hc|].
  rewrite Hs in Hc. discriminate Hc.
Qed.

Lemma assoc_In {A : Type} (tbl : list (Z * A)) c v :
  assoc tbl c = Some v -> In (c, v) tbl.
Proof.
  induction tbl as [|[k w] tl IH]; simpl; [discriminate|].
  destruct (Z.eqb_spec c k) as [->|_].
  - intros H. injection H as ->. left. reflexivity.
  - intros H. right. exact (IH H).
Qed.

Lemma nfd_table_not_space :
  forallb (fun e => forallb (fun x => negb (is_space x)) (snd e)) nfd_table
  = true.
Proof. vm_compute. reflexivity. Qed.

(** Decomposition never produces white space. *)
Lemma nfd_char_space c x :
  In x (nfd_char c) -> is_space x = true -> x = c.
Proof.
  unfold nfd_char. intros Hin Hs.
  destruct (assoc nfd_table c) as [d|] eqn:E;
    [|destruct Hin as [<-|[]]; reflexivity].
  exfalso. apply assoc_In in E.
  pose proof nfd_table_not_space as Hall.
  rewrite forallb_forall in Hall. specialize (Hall _ E). simpl in Hall.
  rewrite forallb_forall in Hall. specialize (Hall x Hin).
  rewrite Hs in Hall. discriminate Hall.
Qed.

Lemma between_above lo hi c : hi < c -> between lo hi c = false.
Proof.
  intros H. unfold between. apply andb_false_iff. right. apply Z.leb_gt, H.
Qed.

Lemma between_below lo hi c : c < lo -> between lo hi c = false.
Proof.
  intros H. unfold between. apply andb_false_iff. left. apply Z.leb_gt, H.
Qed.

Lemma lower_far c : c < 0 \/ 0x212A < c -> lower c = c.
Proof.
  intros H. unfold lower, is_ascii_upper.
  destruct H as [H|H];
  repeat match goal with
         | |- context [between ?lo ?hi c] =>
             first [ rewrite (@between_above lo hi c) by lia
                   | rewrite (@between_below lo hi c) by lia ]
         | |- context [c =? ?k] =>
             replace (c =? k) with false by (symmetry; apply Z.eqb_neq; lia)
         end;
  reflexivity.
Qed.

Lemma lower_space_table :
  forallb (fun c => implb (is_space (lower c)) (lower c =? c))
          (range_list 0 0x212A) = true.
Proof. vm_compute. reflexivity. Qed.

(** Lower-casing never produces white space. *)
Lemma lower_space c : is_space (lower c) = true -> lower c = c.
Proof.
  intros Hs.
  destruct (Z_lt_dec c 0) as [Hn|Hn]; [apply lower_far; lia|].
  destruct (Z_lt_dec 0x212A c) as [Hf|Hf]; [apply lower_far; lia|].
  pose proof lower_space_table as T. rewrite forallb_forall in T.
  assert (Hin : In c (range_list 0 0x212A)).
  { apply between_range. unfold between.
    apply andb_true_iff. split; apply Z.leb_le; lia. }
  specialize (T c Hin). rewrite Hs in T. simpl in T.
  apply Z.eqb_eq, T.
Qed.

Lemma strip_accents_plain s : plain_spaces s -> plain_spaces (strip_accents s).
Proof.
  intros H c Hc Hs. unfold strip_accents in Hc.
  apply replace_char_in in Hc as [Hc| ->]; [|vm_compute in Hs; discriminate Hs].
  apply replace_char_in in Hc as [Hc| ->]; [|vm_compute in Hs; discriminate Hs].
  apply filter_In in Hc as [Hc _].
  unfold nfd in Hc. apply in_flat_map in Hc as (x & Hx & Hc).
  pose proof (nfd_char_space x c Hc Hs) as Ec. subst c. exact (H x Hx Hs).
Qed.

Lemma str_lower_plain s : plain_spaces s -> plain_spaces (str_lower s).
Proof.
  intros H c Hc Hs. unfold str_lower in Hc.
  apply in_flat_map in Hc as (x & Hx & Hc).
  destruct (x =? 304).
  - destruct Hc as [<-|[<-|[]]]; vm_compute in Hs; discriminate Hs.
  - destruct Hc as [<-|[]]. pose proof (lower_space x Hs) as El.
    rewrite El in Hs |- *. exact (H x Hx Hs).
Qed.

Lemma plain_spaces_incl s s' : incl s' s -> plain_spaces s -> plain_spaces s'.
Proof. intros Hi H c Hc. apply H, Hi, Hc. Qed.

Lemma lstrip_head p s c tl : lstrip p s = c :: tl -> p c = false.
Proof.
  induction s as [|x s IH]; simpl; [discriminate|].
  destruct (p x) eqn:E; [exact IH|].
  intros H. injection H as <- _. exact E.
Qed.

Lemma lstrip_fixed p s : head_is p s = false -> lstrip p s = s.
Proof. destruct s as [|x s]; simpl; [reflexivity|]. intros ->. reflexivity. Qed.

Lemma lstrip_suffix p s : exists d, s = d ++ lstrip p s.
Proof.
  induction s as [|x s (d & IH)]; [exists []; reflexivity|].
  simpl. destruct (p x).
  - exists (x :: d). simpl. rewrite <- IH. reflexivity.
  - exists []. reflexivity.
Qed.

(** Stripping a set of characters that holds every white-space character
    of the string leaves a string without surrounding white space. *)
Lemma strip_tidy (P : Z -> bool) t :
  (forall c, In c t -> is_space c = true -> P c = true) ->
  tidy (strip P t).
Proof.
  intros H. unfold tidy.
  set (s1 := lstrip P t).
  assert (Hs1 : incl s1 t) by apply lstrip_incl.
  set (k := lstrip P (rev s1)).
  assert (Hk : incl k t).
  { intros c Hc. apply Hs1, in_rev. exact (@lstrip_incl P (rev s1) c Hc). }
  assert (Er : strip P t = rev k) by reflexivity.
  rewrite Er.
  assert (Hlast : lstrip is_space k = k).
  { apply lstrip_fixed. destruct k as [|c tl] eqn:Ek; [reflexivity|].
    simpl. pose proof (@lstrip_head P (rev s1) c tl Ek) as Hc.
    destruct (is_space c) eqn:Es; [|reflexivity].
    rewrite (H c (Hk c (or_introl eq_refl)) Es) in Hc. discriminate Hc. }
  assert (Hfirst : lstrip is_space (rev k) = rev k).
  { apply lstrip_fixed.
    destruct (lstrip_suffix P (rev s1)) as (d & Ed). fold k in Ed.
    assert (E1 : s1 = rev k ++ rev d).
    { rewrite <- (rev_involutive s1), Ed, rev_app_distr. reflexivity. }
    destruct (rev k) as [|c tl] eqn:Erk; [reflexivity|].
    simpl. simpl in E1.
    pose proof (@lstrip_head P t c (tl ++ rev d) E1) as Hc.
    destruct (is_space c) eqn:Es; [|reflexivity].
    assert (Hin : In c t) by (apply Hs1; rewrite E1; left; reflexivity).
    rewrite (H c Hin Es) in Hc. discriminate Hc. }
  unfold strip, rstrip. rewrite Hfirst, rev_involutive, Hlast. reflexivity.
Qed.

Lemma tidy_nil : tidy [].
Proof. reflexivity. Qed.

Lemma address_strip_tidy s g :
  plain_spaces s -> incl g s -> tidy (strip (one_of (u " .,_-")) g).
Proof.
  intros Hp Hi. apply strip_tidy. intros c Hc Hs.
  rewrite (Hp c (Hi c Hc) Hs). reflexivity.
Qed.

(** [extract_address] answers a string without surrounding white space. *)
Lemma extract_address_tidy s : tidy (extract_address s).
Proof.
  unfold extract_address.
  destruct (re_search (cat [address_keyword_vn; address_tail])
                      (normalize_text s)) as [m|] eqn:E.
  - apply address_strip_tidy with (s := normalize_text s);
      [apply normalize_text_plain | exact (re_search_group_incl _ _ 1 E)].
  - destruct (re_search (cat [address_keyword_ascii stri; address_tail])
                        (str_lower (strip_accents (normalize_text s))))
      as [m|] eqn:E2; [|apply tidy_nil].
    apply address_strip_tidy
      with (s := str_lower (strip_accents (normalize_text s)));
      [|exact (re_search_group_incl _ _ 1 E2)].
    apply str_lower_plain, strip_accents_plain, normalize_text_plain.
Qed.

Lemma uniq_addresses_tidy people a :
  tidy_people people -> In a (uniq_addresses people) ->
  tidy a /\ exists p, In p people /\ address p = a.
Proof.
  intros Ht Ha. unfold uniq_addresses in Ha.
  apply nodup_In, filter_In in Ha as [Ha _].
  apply in_map_iff in Ha as (p & E & Hp).
  rewrite (Ht p Hp) in E. subst a. split; [apply Ht, Hp | eauto].
Qed.

Lemma propagate_addresses_tidy people :
  tidy_people people -> tidy_people (propagate_addresses people).
Proof.
  intros Ht. unfold propagate_addresses.
  destruct (uniq_addresses people) as [|a [|b l]] eqn:E; try exact Ht.
  destruct (@uniq_addresses_tidy people a Ht) as (Ha & _);
    [rewrite E; left; reflexivity|].
  intros p' Hp'. apply in_map_iff in Hp' as (p & <- & Hp).
  destruct (truthy (address p)); [apply Ht, Hp | exact Ha].
Qed.

Lemma set_last_address_tidy addr people :
  tidy addr -> tidy_people people -> tidy_people (set_last_address addr people).
Proof.
  intros Ha. induction people as [|p [|q tl] IH]; intros Ht x Hx.
  - destruct Hx.
  - destruct Hx as [<-|[]]. exact Ha.
  - change (In x (p :: set_last_address addr (q :: tl))) in Hx.
    destruct Hx as [<-|Hx]; [apply Ht; left; reflexivity|].
    apply IH; [|exact Hx]. intros y Hy. apply Ht. right. exact Hy.
Qed.

Lemma step_keeps_tidy st raw :
  tidy_people (current_people st) -> tidy_people (current_people (step st raw)).
Proof.
  intros Ht. unfold step.
  destruct (negb (truthy (normalize_text raw))); [exact Ht|].
  destruct (is_section_header_i (normalize_text raw)).
  { simpl. unfold flush_bia. destruct (negb (in_bia st)); [exact Ht|].
    intros p []. }
  destruct (negb (in_bia st)); [exact Ht|].
  destruct (is_section_header_ii (normalize_text raw)); [exact Ht|].
  destruct (section st) as [[|]|]; try exact Ht.
  - destruct (is_address_line (normalize_text raw)).
    + unfold address_line. destruct (current_people st) as [|q tl] eqn:Ep;
        [rewrite Ep; exact Ht|].
      match goal with |- tidy_people (current_people (if ?c then _ else _)) =>
        destruct c end; [|rewrite Ep; exact Ht].
      cbn [current_people].
      apply propagate_addresses_tidy, set_last_address_tidy;
        [apply extract_address_tidy | exact Ht].
    + destruct (parse_person (normalize_text raw)) as [p|] eqn:E; [|exact Ht].
      simpl. intros x Hx. apply in_app_or in Hx as [Hx|[<-|[]]];
        [apply Ht, Hx|].
      destruct (parse_person_fields _ E) as (_ & _ & ->). apply tidy_nil.
  - destruct (parse_parcel_line_v2 (normalize_text raw)); exact Ht.
Qed.

(** Every list of persons the segmenter holds is free of padded
    addresses. *)
Lemma run_tidy lines : tidy_people (current_people (run lines)).
Proof.
  unfold run.
  assert (G : forall st, tidy_people (current_people st) ->
                         tidy_people (current_people (fold_left step lines st))).
  { induction lines as [|l lines IH]; intros st H; [exact H|].
    simpl. apply IH, step_keeps_tidy, H. }
  apply G. intros p [].
Qed.

(** The law on a list free of padded addresses. *)
Lemma propagate_addresses_tidy_law people :
  tidy_people people ->
  (forall a, nodup text_eq_dec (filter truthy (map address people)) = [a] ->
             forall p', In p' (propagate_addresses people) -> address p' = a)
  /\ (length (nodup text_eq_dec (filter truthy (map address people))) <> 1%nat ->
      propagate_addresses people = people).
Proof.
  intros Ht.
  assert (E : uniq_addresses people
              = nodup text_eq_dec (filter truthy (map address people))).
  { unfold uniq_addresses. f_equal. f_equal.
    apply map_ext_in. intros p Hp. apply Ht, Hp. }
  destruct (propagate_addresses_facts people) as (H1 & H2 & _).
  split.
  - intros a Ha. rewrite <- E in Ha. destruct (H1 a Ha) as (_ & H3).
    apply H3. exact Ht.
  - rewrite <- E. exact H2.
Qed.

(** C7.  The lists of persons that the program passes to
    [propagate_addresses], at a flush and after an address line, hold
    only addresses without surrounding white space: an address is the
    empty string that [parse_person] sets, or what [extract_address]
    returned.  On every such list: when the set of distinct non-empty
    addresses has exactly one element, every person has that address
    afterwards; when it has none or several, the list is left as it was.
    On any list whatever, a person with a non-empty address is left
    unchanged, and no other field of any person changes. *)
Theorem propagate_addresses_law :
  (forall lines, tidy_people (current_people (run lines))) /\
  (forall lines s,
     tidy_people (set_last_address (extract_address s)
                                   (current_people (run lines)))) /\
  (forall people,
     tidy_people people ->
     (forall a,
        nodup text_eq_dec (filter truthy (map address people)) = [a] ->
        forall p', In p' (propagate_addresses people) -> address p' = a) /\
     (length (nodup text_eq_dec (filter truthy (map address people)))
      <> 1%nat ->
      propagate_addresses people = people)) /\
  (forall people,
     Forall2 (fun p p' =>
                (truthy (address p) = true -> p' = p) /\
                full_name p' = full_name p /\ birth_year p' = birth_year p /\
                id_number p' = id_number p /\ issue_date p' = issue_date p)
             people (propagate_addresses people)).
Proof.
  split; [exact run_tidy|]. split; [|split].
  - intros lines s.
    apply set_last_address_tidy; [apply extract_address_tidy | apply run_tidy].
  - exact propagate_addresses_tidy_law.
  - intros people. apply (propagate_addresses_facts people).
Qed.

Lemma propagate_addresses_law_witness :
  let people := [with_address "thôn 1"; with_address EmptyString] in
  tidy_people people /\
  nodup text_eq_dec (filter truthy (map address people)) = [u "thôn 1"] /\
  (forall p', In p' (propagate_addresses people) -> address p' = u "thôn 1").
Proof.
  intros people.
  assert (Ht : tidy_people people).
  { intros p [<-|[<-|[]]]; vm_compute; reflexivity. }
  assert (Hu : nodup text_eq_dec (filter truthy (map address people))
               = [u "thôn 1"]) by (vm_compute; reflexivity).
  split; [exact Ht|]. split; [exact Hu|].
  destruct propagate_addresses_law as (_ & _ & H & _).
  destruct (H people Ht) as (H1 & _). exact (H1 _ Hu).
Defined.

(** The same law at the two calls of the segmenter. *)
Lemma propagate_addresses_in_segmenter lines s :
  let law people :=
    (forall a, nodup text_eq_dec (filter truthy (map address people)) = [a] ->
               forall p', In p' (propagate_addresses people) -> address p' = a)
    /\ (length (nodup text_eq_dec (filter truthy (map address people))) <> 1%nat ->
        propagate_addresses people = people) in
  law (current_people (run lines)) /\
  law (set_last_address (extract_address s) (current_people (run lines))).
Proof.
  intros law. split; apply propagate_addresses_tidy_law.
  - apply run_tidy.
  - apply set_last_address_tidy; [apply extract_address_tidy | apply run_tidy].
Qed.

(** On a list that the program never builds, one whose address carries a
    leading blank, the function compares and propagates the stripped
    address and leaves the padded one as it was. *)
Lemma propagate_addresses_padded_list :
  let people := [with_address " X"; with_address EmptyString] in
  length (uniq_addresses people) = 1%nat /\
  map address (propagate_addresses people) = [u " X"; u "X"].
Proof. split; vm_compute; reflexivity. Qed.

(* ================================================================== *)
(** ** The rescuer and the exceptions of the converter *)

Lemma concat_ws_split s : concat (ws_split s) = s.
Proof.
  induction s as [|c s IH]; [reflexivity|].
  simpl. destruct (ws_split s) as [|[|d r] rs].
  - simpl in *. subst. reflexivity.
  - simpl in *. subst. reflexivity.
  - destruct (Bool.eqb (is_space c) (is_space d)); simpl in *; subst; reflexivity.
Qed.

Lemma score_text_nonneg s : 0 <= score_text s.
Proof.
  unfold score_text.
  assert (G : forall kws acc, 0 <= acc ->
    0 <= fold_left (fun score kw =>
                      if contains kw (str_lower s) then score + 3 else score)
                   kws acc).
  { induction kws as [|kw kws IH]; intros acc H; [exact H|].
    simpl. apply IH. destruct (contains kw (str_lower s)); lia. }
  apply G. lia.
Qed.

Lemma score_vn_nonneg v : 0 <= score_vn v.
Proof.
  destruct v as [|[|c tl]|t]; simpl; try lia. apply score_text_nonneg.
Qed.

(** An object that scores above a score that is not negative is a
    [str]. *)
Lemma score_vn_positive_str v sc :
  0 <= sc -> (score_vn v >? sc) = true -> exists t, v = VStr t.
Proof.
  intros H G. apply Z.gtb_lt in G. destruct v as [|t|b]; simpl in G; try lia.
  eauto.
Qed.

Lemma join_strings out : join (map VStr out) = Ret (concat out).
Proof.
  induction out as [|x out IH]; [reflexivity|].
  simpl. rewrite IH. reflexivity.
Qed.

Lemma join_not_str out v :
  In v out -> (forall t, v <> VStr t) -> join out = Raise "TypeError".
Proof.
  induction out as [|x out IH]; intros Hin Hv; [destruct Hin|].
  destruct Hin as [->|Hin].
  - destruct v as [|t|b]; [reflexivity | exfalso; exact (Hv t eq_refl)
                          | reflexivity].
  - destruct x as [|t|b]; [reflexivity | | reflexivity].
    simpl. rewrite (IH Hin Hv). reflexivity.
Qed.

Section RescueFacts.

Variable detectCharset : text -> result value.
Variable convert : text -> value -> result value.

Lemma best_of_str s cands : forall best sc,
  0 <= sc -> (exists t, best = VStr t) ->
  exists t, best_of convert s cands best sc = VStr t.
Proof.
  induction cands as [|cs cands IH]; intros best sc Hsc Hb; [exact Hb|].
  simpl. destruct (convert s (VStr cs)) as [t|e]; [|apply IH; assumption].
  destruct (score_vn t >? sc) eqn:G; [|apply IH; assumption].
  apply IH; [apply score_vn_nonneg | exact (score_vn_positive_str t Hsc G)].
Qed.

(** [convert_best] always answers a [str]: a conversion result of another
    type scores 0 and is never preferred. *)
Lemma convert_best_str s : exists t, convert_best convert s = VStr t.
Proof.
  unfold convert_best. apply best_of_str; [apply score_vn_nonneg | eauto].
Qed.

Lemma rescue_line_str joined : exists t, rescue_line convert joined = VStr t.
Proof.
  unfold rescue_line. destruct (has_marker joined); [|eauto].
  destruct (score_vn _ >? _); [apply convert_best_str | eauto].
Qed.

Lemma fix_token_returns tok :
  (isspace tok = false -> exists cs, detectCharset tok = Ret cs) ->
  exists t, fix_token detectCharset convert tok = Ret t.
Proof.
  intros H. unfold fix_token.
  destruct (isspace tok); [eauto|].
  destruct (H eq_refl) as (cs & ->). simpl.
  destruct (is_legacy_charset cs).
  - destruct (convert tok cs); eauto.
  - destruct (has_marker tok); eauto.
Qed.

Lemma fix_token_str tok :
  (isspace tok = false -> exists cs, detectCharset tok = Ret cs) ->
  (forall cs v, isspace tok = false -> detectCharset tok = Ret cs ->
                is_legacy_charset cs = true -> convert tok cs = Ret v ->
                exists t, v = VStr t) ->
  exists t, fix_token detectCharset convert tok = Ret (VStr t).
Proof.
  intros H Hc. unfold fix_token.
  destruct (isspace tok) eqn:Es; [eauto|].
  destruct (H eq_refl) as (cs & Ed). rewrite Ed. simpl.
  destruct (is_legacy_charset cs) eqn:El.
  - destruct (convert tok cs) as [v|e] eqn:Ec; [|eauto].
    destruct (Hc cs v eq_refl Ed El Ec) as (t & ->). eauto.
  - destruct (has_marker tok); [|eauto].
    destruct (convert_best_str tok) as (t & ->). eauto.
Qed.

Lemma fix_tokens_returns parts :
  (forall tok, In tok parts -> isspace tok = false ->
               exists cs, detectCharset tok = Ret cs) ->
  exists out, fix_tokens detectCharset convert parts = Ret out.
Proof.
  induction parts as [|tok parts IH]; intros H; [exists []; reflexivity|].
  destruct (@fix_token_returns tok (H tok (or_introl eq_refl))) as (t & Et).
  destruct IH as (out & Eo); [intros x Hx; apply H; right; exact Hx|].
  exists (t :: out). simpl. rewrite Et. simpl. rewrite Eo. reflexivity.
Qed.

Lemma fix_tokens_str parts :
  (forall tok, In tok parts -> isspace tok = false ->
               exists cs, detectCharset tok = Ret cs) ->
  (forall tok cs v, In tok parts -> isspace tok = false ->
                    detectCharset tok = Ret cs ->
                    is_legacy_charset cs = true -> convert tok cs = Ret v ->
                    exists t, v = VStr t) ->
  exists out, fix_tokens detectCharset convert parts = Ret (map VStr out).
Proof.
  induction parts as [|tok parts IH]; intros H Hc; [exists []; reflexivity|].
  destruct (@fix_token_str tok (H tok (or_introl eq_refl))) as (t & Et).
  { intros cs v. apply Hc. left. reflexivity. }
  destruct IH as (out & Eo).
  { intros x Hx. apply H. right. exact Hx. }
  { intros x cs v Hx. apply Hc. right. exact Hx. }
  exists (t :: out). simpl. rewrite Et. simpl. rewrite Eo. reflexivity.
Qed.

(** The item appended for a token is an item of the list that is
    joined. *)
Lemma fix_tokens_item parts : forall out tok v,
  fix_tokens detectCharset convert parts = Ret out ->
  In tok parts -> fix_token detectCharset convert tok = Ret v -> In v out.
Proof.
  induction parts as [|x parts IH]; intros out tok v E Hin Ev; [destruct Hin|].
  simpl in E.
  destruct (fix_token detectCharset convert x) as [t|e] eqn:Ex;
    [|discriminate E].
  simpl in E.
  destruct (fix_tokens detectCharset convert parts) as [o|e] eqn:Eo;
    [|discriminate E].
  simpl in E. injection E as <-.
  destruct Hin as [->|Hin].
  - rewrite Ex in Ev. injection Ev as <-. left. reflexivity.
  - right. exact (IH o tok v eq_refl Hin Ev).
Qed.

(** The first raise of [detectCharset] ends the loop over the tokens. *)
Lemma fix_tokens_raise pre tok post e :
  (forall x, In x pre -> isspace x = false ->
             exists cs, detectCharset x = Ret cs) ->
  isspace tok = false -> detectCharset tok = Raise e ->
  fix_tokens detectCharset convert (pre ++ tok :: post) = Raise e.
Proof.
  induction pre as [|x pre IH]; intros H Hs Hd.
  - simpl. unfold fix_token. rewrite Hs, Hd. reflexivity.
  - destruct (@fix_token_returns x (H x (or_introl eq_refl))) as (t & Et).
    cbn [app fix_tokens]. rewrite Et. simpl.
    rewrite IH; [reflexivity | | exact Hs | exact Hd].
    intros y Hy. apply H. right. exact Hy.
Qed.

Lemma best_of_all_raise s cands best sc :
  (forall cs, In cs cands -> exists e, convert s (VStr cs) = Raise e) ->
  best_of convert s cands best sc = best.
Proof.
  revert best sc. induction cands as [|cs cands IH]; intros best sc H;
    [reflexivity|].
  simpl. destruct (H cs (or_introl eq_refl)) as (e & ->).
  apply IH. intros x Hx. apply H. right. exact Hx.
Qed.

Lemma has_marker_concat parts tok :
  has_marker (concat parts) = false -> In tok parts -> has_marker tok = false.
Proof.
  unfold has_marker. induction parts as [|x parts IH]; intros H Hin;
    [destruct Hin|].
  simpl in H. rewrite existsb_app in H. apply orb_false_iff in H as [H1 H2].
  destruct Hin as [<-|Hin]; [exact H1 | exact (IH H2 Hin)].
Qed.

Lemma fix_tokens_clean parts :
  has_marker (concat parts) = false ->
  (forall tok, In tok parts -> isspace tok = false ->
               exists cs, detectCharset tok = Ret cs /\
                          is_legacy_charset cs = false) ->
  fix_tokens detectCharset convert parts = Ret (map VStr parts).
Proof.
  induction parts as [|tok parts IH]; intros Hm H; [reflexivity|].
  assert (Et : fix_token detectCharset convert tok = Ret (VStr tok)).
  { unfold fix_token. destruct (isspace tok) eqn:Es; [reflexivity|].
    destruct (H tok (or_introl eq_refl) Es) as (cs & -> & Hl). simpl.
    rewrite Hl.
    rewrite (@has_marker_concat (tok :: parts) tok Hm (or_introl eq_refl)).
    reflexivity. }
  simpl. rewrite Et. simpl.
  rewrite IH; [reflexivity | |].
  - unfold has_marker in *. simpl in Hm. rewrite existsb_app in Hm.
    apply orb_false_iff in Hm as [_ Hm]. exact Hm.
  - intros x Hx. apply H. right. exact Hx.
Qed.

Lemma rescue_returns s :
  detection_returns detectCharset s ->
  conversions_are_str detectCharset convert s ->
  exists r, fix_mixed_to_unicode detectCharset convert (VStr s) = Ret (VStr r).
Proof.
  intros Hd Hc.
  destruct (@fix_tokens_str (ws_split s) Hd) as (out & E).
  { intros tok cs v. apply Hc. }
  destruct (rescue_line_str (concat out)) as (r & Er).
  exists r. unfold fix_mixed_to_unicode. rewrite E. simpl.
  rewrite join_strings. simpl. rewrite Er. reflexivity.
Qed.

Lemma rescue_clean x :
  clean detectCharset x ->
  fix_mixed_to_unicode detectCharset convert (VStr x) = Ret (VStr x).
Proof.
  intros (Hm & Hd). unfold fix_mixed_to_unicode.
  rewrite (@fix_tokens_clean (ws_split x));
    [| rewrite concat_ws_split; exact Hm | exact Hd].
  simpl. rewrite join_strings. simpl. rewrite concat_ws_split.
  unfold rescue_line. rewrite Hm. reflexivity.
Qed.

(** C5, as the code has it.  Whatever [convert] does in [convert_best],
    raise or answer any object, and whenever it raises for a detected
    charset, the rescuer returns a string, provided [detectCharset]
    itself returns on the word tokens of the line and no conversion from
    a detected charset answers an object that is not a [str]: a candidate
    charset whose conversion raises is skipped, a token is returned
    unchanged when every candidate raises, a candidate result that is
    not a [str] is never chosen, and a token whose detected charset
    cannot be converted is kept as it is.  The two provisos are needed:
    the first raise of [detectCharset] is not caught and reaches the
    caller, and an object that is not a [str], answered by the conversion
    from a detected charset, is appended as it is and makes the final
    [join] raise [TypeError]. *)
Theorem rescue_returns_when_detection_returns :
  (forall s, detection_returns detectCharset s ->
             conversions_are_str detectCharset convert s ->
             exists r, fix_mixed_to_unicode detectCharset convert (VStr s)
                       = Ret (VStr r)) /\
  (forall s cs tl best sc e,
     convert s (VStr cs) = Raise e ->
     best_of convert s (cs :: tl) best sc = best_of convert s tl best sc) /\
  (forall s, (forall cs, In cs CANDIDATES ->
                         exists e, convert s (VStr cs) = Raise e) ->
             convert_best convert s = VStr s) /\
  (forall s, exists t, convert_best convert s = VStr t) /\
  (forall tok cs e,
     isspace tok = false ->
     detectCharset tok = Ret cs ->
     is_legacy_charset cs = true ->
     convert tok cs = Raise e ->
     fix_token detectCharset convert tok = Ret (VStr tok)) /\
  (forall s pre tok post e,
     ws_split s = pre ++ tok :: post ->
     (forall x, In x pre -> isspace x = false ->
                exists cs, detectCharset x = Ret cs) ->
     isspace tok = false ->
     detectCharset tok = Raise e ->
     fix_mixed_to_unicode detectCharset convert (VStr s) = Raise e) /\
  (forall s tok cs v,
     detection_returns detectCharset s ->
     In tok (ws_split s) -> isspace tok = false ->
     detectCharset tok = Ret cs ->
     is_legacy_charset cs = true ->
     convert tok cs = Ret v ->
     (forall t, v <> VStr t) ->
     fix_mixed_to_unicode detectCharset convert (VStr s) = Raise "TypeError").
Proof.
  split; [exact rescue_returns|].
  split; [intros s cs tl best sc e E; simpl; rewrite E; reflexivity|].
  split; [intros s H; apply best_of_all_raise, H|].
  split; [exact convert_best_str|].
  split; [|split].
  - intros tok cs e Hs Hd Hl Hc. unfold fix_token.
    rewrite Hs, Hd. simpl. rewrite Hl, Hc. reflexivity.
  - intros s pre tok post e Es Hpre Hs Hd. unfold fix_mixed_to_unicode.
    rewrite Es, (@fix_tokens_raise pre tok post e Hpre Hs Hd). reflexivity.
  - intros s tok cs v Hd Hin Hs Ed Hl Ec Hv.
    destruct (@fix_tokens_returns (ws_split s) Hd) as (out & E).
    assert (Et : fix_token detectCharset convert tok = Ret v).
    { unfold fix_token. rewrite Hs, Ed. simpl. rewrite Hl, Ec. reflexivity. }
    unfold fix_mixed_to_unicode. rewrite E. simpl.
    rewrite (@join_not_str out v (@fix_tokens_item (ws_split s) out tok v E Hin Et) Hv).
    reflexivity.
Qed.

(** C6, as the code has it.  The rescuer returns a clean line unchanged;
    so applying it twice gives the same as applying it once whenever
    its first result is clean. *)
Theorem rescue_fixes_clean_text :
  (forall x, clean detectCharset x ->
             fix_mixed_to_unicode detectCharset convert (VStr x)
             = Ret (VStr x)) /\
  (forall x y,
     fix_mixed_to_unicode detectCharset convert (VStr x) = Ret (VStr y) ->
     clean detectCharset y ->
     bind (fix_mixed_to_unicode detectCharset convert (VStr x))
          (fix_mixed_to_unicode detectCharset convert)
     = fix_mixed_to_unicode detectCharset convert (VStr x)).
Proof.
  split; [exact rescue_clean|].
  intros x y E Hy. rewrite E. simpl. apply rescue_clean, Hy.
Qed.

End RescueFacts.

Lemma rescue_returns_when_detection_returns_witness :
  detection_returns chain_detect (u "n¬i cấp") /\
  conversions_are_str chain_detect chain_convert (u "n¬i cấp") /\
  exists r, fix_mixed_to_unicode chain_detect chain_convert (VStr (u "n¬i cấp"))
            = Ret (VStr r).
Proof.
  assert (H : detection_returns chain_detect (u "n¬i cấp"))
    by (intros tok _ _; eexists; reflexivity).
  assert (C : conversions_are_str chain_detect chain_convert (u "n¬i cấp")).
  { intros tok cs v _ _ Ed El. injection Ed as <-. discriminate El. }
  split; [exact H|]. split; [exact C|].
  exact (proj1 (rescue_returns_when_detection_returns chain_detect chain_convert)
               (u "n¬i cấp") H C).
Defined.

(** A raise of [detectCharset] goes through the rescuer; and so does the
    [TypeError] of the final [join] when the conversion from the detected
    charset answers [None]. *)
Lemma rescue_propagates_detect_raise_counterexample :
  fix_mixed_to_unicode raising_detect identity_convert (VStr (u "a"))
  = Raise "detectCharset failed" /\
  ~ (exists r, fix_mixed_to_unicode raising_detect identity_convert
                 (VStr (u "a")) = Ret r) /\
  fix_mixed_to_unicode tcvn3_detect none_convert (VStr (u "a"))
  = Raise "TypeError" /\
  ~ (exists r, fix_mixed_to_unicode tcvn3_detect none_convert
                 (VStr (u "a")) = Ret r).
Proof.
  split; [vm_compute; reflexivity|].
  split; [intros (r & H); vm_compute in H; discriminate H|].
  split; [vm_compute; reflexivity|].
  intros (r & H). vm_compute in H. discriminate H.
Qed.

Lemma rescue_fixes_clean_text_witness :
  clean chain_detect (u "nơi cấp") /\
  fix_mixed_to_unicode chain_detect chain_convert (VStr (u "nơi cấp"))
  = Ret (VStr (u "nơi cấp")).
Proof.
  assert (H : clean chain_detect (u "nơi cấp")).
  { split; [vm_compute; reflexivity|].
    intros tok _ _. exists (VStr (u "UNICODE")).
    split; vm_compute; reflexivity. }
  split; [exact H|].
  exact (proj1 (rescue_fixes_clean_text chain_detect chain_convert)
               (u "nơi cấp") H).
Defined.

(** With the chained table, one rescue of the two-character token turns
    it into a token that still holds a marker, and a second rescue
    changes it again. *)
Lemma rescue_not_idempotent_counterexample :
  fix_mixed_to_unicode chain_detect chain_convert (VStr (u "¬§"))
  = Ret (VStr (u "đñ")) /\
  fix_mixed_to_unicode chain_detect chain_convert (VStr (u "đñ"))
  = Ret (VStr (u "đồ")) /\
  bind (fix_mixed_to_unicode chain_detect chain_convert (VStr (u "¬§")))
       (fix_mixed_to_unicode chain_detect chain_convert)
  <> fix_mixed_to_unicode chain_detect chain_convert (VStr (u "¬§")).
Proof.
  split; [vm_compute; reflexivity|].
  split; [vm_compute; reflexivity|].
  vm_compute. discriminate.
Qed.

(** The older, household-based segmenter of [app.py] has no sections and
    closes the household in progress at a blank line. *)
Lemma app_group_records_blank_line_splits :
  let a := u "Hộ ông: Nguyễn A, CMND 220515369" in
  let b := u "và bà: Trần B, CMND 220515370" in
  length (App.group_records [a; b]) = 1%nat /\
  length (App.group_records [a; []; b]) = 2%nat.
Proof. split; vm_compute; reflexivity. Qed.

(** The older pattern of [app.py] knows the order "cấp ngày" only. *)
Lemma app_parse_person_misses_ngay_cap :
  exists p, App.parse_person scenario_line = Some p /\ issue_date p = [].
Proof. eexists. split; vm_compute; reflexivity. Qed.

(* ================================================================== *)
(** * Part III: further properties of the code *)

(* ================================================================== *)
(** ** The normal form of [normalize_text] *)

Lemma spaced_weaken b s : spaced b s = true -> spaced false s = true.
Proof.
  destruct s as [|c tl]; simpl; [reflexivity|].
  destruct (is_space c); [|auto].
  rewrite !andb_true_iff. intros [[_ H1] H2]. auto.
Qed.

Lemma spaced_suffix d : forall b s,
  spaced b (d ++ s) = true -> spaced false s = true.
Proof.
  induction d as [|c d IH]; intros b s; simpl.
  - apply spaced_weaken.
  - destruct (is_space c).
    + rewrite !andb_true_iff. intros [_ H]. exact (IH _ _ H).
    + apply IH.
Qed.

Lemma spaced_prefix s e : forall b,
  spaced b (s ++ e) = true -> spaced b s = true.
Proof.
  induction s as [|c s IH]; intros b; simpl; [reflexivity|].
  destruct (is_space c).
  - rewrite !andb_true_iff. intros [H1 H2]. split; [exact H1|]. exact (IH _ H2).
  - apply IH.
Qed.

Lemma spaced_head s :
  spaced false s = true -> head_is is_space s = false -> spaced true s = true.
Proof.
  destruct s as [|c tl]; simpl; [reflexivity|].
  intros H E. rewrite E in *. exact H.
Qed.

Lemma sub_runs_spaced s : forall b,
  spaced b (sub_runs is_space b s) = true.
Proof.
  induction s as [|c s IH]; intros b; simpl; [reflexivity|].
  destruct (is_space c) eqn:E.
  - destruct b; [apply IH|]. simpl. apply IH.
  - simpl. rewrite E. apply IH.
Qed.

Lemma spaced_fixed s : forall b,
  spaced b s = true -> sub_runs is_space b s = s.
Proof.
  induction s as [|c s IH]; intros b; simpl; [reflexivity|].
  destruct (is_space c) eqn:E.
  - rewrite !andb_true_iff. intros [[H1 H2] H3].
    destruct b; [discriminate|]. apply Z.eqb_eq in H2. subst c.
    rewrite (IH _ H3). reflexivity.
  - intros H. rewrite (IH _ H). reflexivity.
Qed.

Lemma spaced_plain b s : spaced b s = true -> plain_spaces s.
Proof.
  revert b. induction s as [|c s IH]; intros b H x Hx Hs; [destruct Hx|].
  simpl in H. destruct Hx as [<-|Hx].
  - rewrite Hs in H. rewrite !andb_true_iff in H.
    destruct H as [[_ H] _]. apply Z.eqb_eq. exact H.
  - destruct (is_space c).
    + rewrite !andb_true_iff in H. destruct H as [_ H]. exact (IH _ H x Hx Hs).
    + exact (IH _ H x Hx Hs).
Qed.

Lemma rstrip_prefix p s : exists e, s = rstrip p s ++ e.
Proof.
  unfold rstrip. destruct (lstrip_suffix p (rev s)) as (d & Hd).
  exists (rev d). rewrite <- rev_app_distr, <- Hd, rev_involutive. reflexivity.
Qed.

Lemma rstrip_last p s : head_is p (rev (rstrip p s)) = false.
Proof.
  unfold rstrip. rewrite rev_involutive.
  destruct (lstrip p (rev s)) as [|c tl] eqn:E; [reflexivity|].
  simpl. exact (lstrip_head _ _ E).
Qed.

Lemma lstrip_first p s : head_is p (lstrip p s) = false.
Proof.
  destruct (lstrip p s) as [|c tl] eqn:E; [reflexivity|].
  simpl. exact (lstrip_head _ _ E).
Qed.

Lemma rstrip_fixed p s : head_is p (rev s) = false -> rstrip p s = s.
Proof.
  intros H. unfold rstrip. rewrite (lstrip_fixed _ _ H). apply rev_involutive.
Qed.

Lemma existsb_false_incl (p : Z -> bool) s s' :
  incl s' s -> existsb p s = false -> existsb p s' = false.
Proof.
  intros Hi H. destruct (existsb p s') eqn:E; [|reflexivity].
  apply existsb_exists in E as (x & Hx & Px).
  assert (existsb p s = true) by (apply existsb_exists; exists x; auto).
  congruence.
Qed.

Lemma normalize_text_no_underscore s :
  existsb (Z.eqb 95) (normalize_text s) = false.
Proof.
  unfold normalize_text.
  apply existsb_false_incl with
    (s := sub_runs is_space false
            (sub_runs (Z.eqb 95) false (replace_char 160 32 s))).
  - apply strip_incl.
  - destruct (existsb _ _) eqn:E; [|reflexivity].
    apply existsb_exists in E as (x & Hx & Px). apply Z.eqb_eq in Px. subst x.
    apply sub_runs_in in Hx as [Hx|Hx]; [|discriminate].
    apply sub_runs_plain in Hx as [Hx|Hx]; discriminate.
Qed.

Lemma normalize_text_is_normal s : normal (normalize_text s) = true.
Proof.
  unfold normal. rewrite normalize_text_no_underscore.
  unfold normalize_text at 2. unfold strip. rewrite rstrip_last.
  rewrite !andb_true_r.
  unfold normalize_text, strip.
  set (s3 := sub_runs is_space false _).
  destruct (rstrip_prefix is_space (lstrip is_space s3)) as (e & He).
  apply spaced_prefix with (e := e). rewrite <- He.
  apply spaced_head; [|apply lstrip_first].
  destruct (lstrip_suffix is_space s3) as (d & Hd).
  apply spaced_suffix with (d := d) (b := false). rewrite <- Hd.
  apply sub_runs_spaced.
Qed.

Lemma normal_fixed s : normal s = true -> normalize_text s = s.
Proof.
  unfold normal. rewrite !andb_true_iff, !negb_true_iff.
  intros [[H1 H2] H3].
  assert (Hp : plain_spaces s) by exact (spaced_plain _ _ H1).
  assert (E1 : replace_char 160 32 s = s).
  { unfold replace_char. rewrite <- (map_id s) at 2. apply map_ext_in.
    intros c Hc. destruct (Z.eqb_spec c 160) as [->|_]; [|reflexivity].
    specialize (Hp 160 Hc eq_refl). discriminate Hp. }
  assert (E2 : sub_runs (Z.eqb 95) false s = s).
  { apply sub_runs_none. intros c Hc.
    destruct (Z.eqb_spec 95 c) as [<-|_]; [|reflexivity].
    assert (existsb (Z.eqb 95) s = true)
      by (apply existsb_exists; exists 95; split; [exact Hc|reflexivity]).
    congruence. }
  unfold normalize_text. rewrite E1, E2.
  rewrite (spaced_fixed _ _ (spaced_weaken _ _ H1)).
  unfold strip. rewrite lstrip_fixed.
  - apply rstrip_fixed. exact H3.
  - destruct s as [|c tl]; [reflexivity|]. simpl in *.
    destruct (is_space c); [discriminate H1|reflexivity].
Qed.

(** X1.  [normalize_text] returns a text in normal form: no underscore, no
    white space other than single plain blanks between other characters,
    and none at either end.  A text in normal form is left unchanged, so
    normalising twice is normalising once. *)
Theorem normalize_text_normal_form :
  (forall s, normal (normalize_text s) = true) /\
  (forall s, normal s = true -> normalize_text s = s) /\
  (forall s, normalize_text (normalize_text s) = normalize_text s).
Proof.
  split; [exact normalize_text_is_normal|].
  split; [exact normal_fixed|].
  intros s. apply normal_fixed, normalize_text_is_normal.
Qed.

Lemma normalize_text_normal_form_witness :
  normal (u "Ông A, CMND 1") = true /\
  normalize_text (u "Ông A, CMND 1") = u "Ông A, CMND 1".
Proof.
  split; [vm_compute; reflexivity|].
  apply (proj1 (proj2 normalize_text_normal_form)). vm_compute. reflexivity.
Defined.

Lemma normalize_text_idem s :
  normalize_text (normalize_text s) = normalize_text s.
Proof. apply normal_fixed, normalize_text_is_normal. Qed.

(* ================================================================== *)
(** ** Lines may be normalised beforehand *)

Lemma is_section_header_i_normalized s :
  is_section_header_i (normalize_text s) = is_section_header_i s.
Proof. unfold is_section_header_i. rewrite normalize_text_idem. reflexivity. Qed.

Lemma is_section_header_ii_normalized s :
  is_section_header_ii (normalize_text s) = is_section_header_ii s.
Proof. unfold is_section_header_ii. rewrite normalize_text_idem. reflexivity. Qed.

Lemma is_address_line_normalized s :
  is_address_line (normalize_text s) = is_address_line s.
Proof. unfold is_address_line. rewrite normalize_text_idem. reflexivity. Qed.

Lemma extract_address_normalized s :
  extract_address (normalize_text s) = extract_address s.
Proof. unfold extract_address. rewrite normalize_text_idem. reflexivity. Qed.

Lemma parse_person_normalized s :
  parse_person (normalize_text s) = parse_person s.
Proof. unfold parse_person. rewrite normalize_text_idem. reflexivity. Qed.

Lemma parse_parcel_line_v2_normalized s :
  parse_parcel_line_v2 (normalize_text s) = parse_parcel_line_v2 s.
Proof. unfold parse_parcel_line_v2. rewrite normalize_text_idem. reflexivity. Qed.

Lemma step_normalized st raw : step st (normalize_text raw) = step st raw.
Proof. unfold step. rewrite normalize_text_idem. reflexivity. Qed.

Lemma run_from_normalized lines : forall st,
  run_from st (map normalize_text lines) = run_from st lines.
Proof.
  induction lines as [|l lines IH]; intros st; simpl; [reflexivity|].
  rewrite step_normalized. apply (IH (step st l)).
Qed.

(** X2.  The segmenter normalises each line and the classifiers and
    extractors it calls normalise again; the second pass changes nothing.
    [group_records] gives the same rows on lines normalised beforehand, and
    every classifier and extractor answers the same on a line and on its
    normal form. *)
Theorem group_records_of_normalized_lines :
  (forall lines, group_records (map normalize_text lines) = group_records lines) /\
  (forall s, is_section_header_i (normalize_text s) = is_section_header_i s) /\
  (forall s, is_section_header_ii (normalize_text s) = is_section_header_ii s) /\
  (forall s, is_address_line (normalize_text s) = is_address_line s) /\
  (forall s, extract_address (normalize_text s) = extract_address s) /\
  (forall s, parse_person (normalize_text s) = parse_person s) /\
  (forall s, parse_parcel_line_v2 (normalize_text s) = parse_parcel_line_v2 s).
Proof.
  split.
  { intros lines. unfold group_records, run.
    change (fold_left step (map normalize_text lines) init_state)
      with (run_from init_state (map normalize_text lines)).
    rewrite run_from_normalized. reflexivity. }
  repeat split; intros s.
  - apply is_section_header_i_normalized.
  - apply is_section_header_ii_normalized.
  - apply is_address_line_normalized.
  - apply extract_address_normalized.
  - apply parse_person_normalized.
  - apply parse_parcel_line_v2_normalized.
Qed.

(* ================================================================== *)
(** ** The two section headers exclude each other *)

Lemma mt_Bol_start k rs cs :
  mt Bol k {| seen := []; rest := rs; caps := cs |}
  = k {| seen := []; rest := rs; caps := cs |}.
Proof. reflexivity. Qed.

Lemma more_class_none p n k st :
  head_is p (rest st) = false -> more (mt (Chr p)) true n k st = k st.
Proof.
  intros H. destruct n as [|n]; [reflexivity|].
  rewrite more_S_greedy. simpl.
  destruct (rest st) as [|c tl]; [reflexivity|].
  simpl in H. rewrite H. reflexivity.
Qed.

Lemma star_class_none p k st :
  head_is p (rest st) = false -> mt (star (Chr p)) k st = k st.
Proof. intros H. unfold star. rewrite mt_Rep. cbn [must]. apply more_class_none, H. Qed.

Lemma opt_class_none p k st :
  head_is p (rest st) = false -> mt (opt (Chr p)) k st = k st.
Proof. intros H. unfold opt. rewrite mt_Rep. cbn [must]. apply more_class_none, H. Qed.

Lemma header_ii_shape a :
  matched (re_match header_ii_re a) = true -> exists tl, a = 73 :: 73 :: tl.
Proof.
  unfold re_match, start_state.
  change header_ii_re with
    (Seq Bol (Seq (Seq (Chr (Z.eqb 73)) (Chr (Z.eqb 73)))
       (cat [star sp; opt (set_of "-–—"); star sp;
             str "THUA"; star sp; str "DAT"; WordB]))).
  rewrite mt_Seq, mt_Bol_start, !mt_Seq.
  destruct a as [|c1 [|c2 tl]].
  - rewrite mt_Chr_nil. discriminate.
  - rewrite mt_Chr_cons. destruct (73 =? c1); [|discriminate].
    rewrite mt_Chr_nil. discriminate.
  - rewrite mt_Chr_cons.
    destruct (Z.eqb_spec 73 c1) as [<-|]; [|discriminate].
    rewrite mt_Chr_cons.
    destruct (Z.eqb_spec 73 c2) as [<-|]; [|discriminate].
    intros _. eauto.
Qed.

Lemma header_i_not_ii tl : re_match header_i_re (73 :: 73 :: tl) = None.
Proof.
  unfold re_match, start_state.
  change header_i_re with
    (Seq Bol (Seq (Chr (Z.eqb 73))
       (Seq (star sp) (Seq (opt (set_of "-–—")) (Seq (star sp)
         (Seq (Seq (Chr (Z.eqb 78)) (str "GUOI"))
            (cat [star sp; str "SU"; star sp; str "DUNG"; star sp;
                  str "DAT"; WordB]))))))).
  rewrite mt_Seq, mt_Bol_start, mt_Seq, mt_Chr_cons.
  change (73 =? 73) with true. cbv iota.
  rewrite mt_Seq. unfold sp. rewrite star_class_none by reflexivity.
  rewrite mt_Seq. unfold set_of.
  rewrite opt_class_none by (vm_compute; reflexivity).
  rewrite mt_Seq, star_class_none by reflexivity.
  rewrite !mt_Seq, mt_Chr_cons. reflexivity.
Qed.

(** X3.  No line is both a section-I header and a section-II header: after
    the first I the one pattern wants a second I and the other wants, past
    optional blanks and one optional dash, the N of NGUOI. *)
Theorem section_headers_exclusive s :
  is_section_header_i s = true -> is_section_header_ii s = false.
Proof.
  unfold is_section_header_i, is_section_header_ii.
  set (a := str_upper (strip_accents (normalize_text s))).
  fold header_i_re. fold header_ii_re.
  intros Hi. destruct (matched (re_match header_ii_re a)) eqn:Hii; [|reflexivity].
  destruct (header_ii_shape _ Hii) as (tl & E). rewrite E in Hi.
  rewrite header_i_not_ii in Hi. discriminate Hi.
Qed.

Lemma section_headers_exclusive_witness :
  is_section_header_i header_line = true /\
  is_section_header_ii header_line = false.
Proof.
  split; [vm_compute; reflexivity|].
  apply section_headers_exclusive. vm_compute. reflexivity.
Defined.

(* ================================================================== *)
(** ** Records are segmented independently *)

Lemma flush_bia_after_rows R st :
  flush_bia (after_rows R st) = after_rows R (flush_bia st).
Proof.
  destruct st as [r sec ib ppl pcl]. unfold flush_bia, after_rows. simpl.
  destruct ib; simpl; [|reflexivity].
  rewrite app_assoc. reflexivity.
Qed.

Lemma address_line_after_rows R st s :
  address_line (after_rows R st) s = after_rows R (address_line st s).
Proof.
  destruct st as [r sec ib ppl pcl]. unfold address_line, after_rows. simpl.
  destruct ppl as [|p tl]; [reflexivity|].
  destruct (truthy (extract_address s) && _); reflexivity.
Qed.

Lemma step_after_rows R st l :
  step (after_rows R st) l = after_rows R (step st l).
Proof.
  unfold step.
  destruct (negb (truthy (normalize_text l))); [reflexivity|].
  destruct (is_section_header_i (normalize_text l)).
  { rewrite flush_bia_after_rows. reflexivity. }
  destruct st as [r sec ib ppl pcl].
  change (in_bia (after_rows R (State r sec ib ppl pcl))) with ib.
  cbn [in_bia]. destruct ib; [|reflexivity]. cbn [negb].
  destruct (is_section_header_ii (normalize_text l)); [reflexivity|].
  cbn [section after_rows]. destruct sec as [[|]|]; [| |reflexivity].
  - destruct (is_address_line (normalize_text l)).
    + apply (address_line_after_rows R (State r (Some SecI) true ppl pcl)).
    + destruct (parse_person (normalize_text l)); reflexivity.
  - destruct (parse_parcel_line_v2 (normalize_text l)); reflexivity.
Qed.

Lemma run_from_after_rows R lines : forall st,
  run_from (after_rows R st) lines = after_rows R (run_from st lines).
Proof.
  induction lines as [|l lines IH]; intros st; simpl; [reflexivity|].
  rewrite step_after_rows. apply IH.
Qed.

Lemma step_header_restarts pre h :
  is_section_header_i (normalize_text h) = true ->
  step (run pre) h = after_rows (group_records pre) (step init_state h).
Proof.
  intros Hh. unfold step.
  rewrite (header_i_not_empty _ Hh), Hh. unfold group_records.
  pose proof (run_closed_is_empty pre) as Hinv.
  destruct (run pre) as [r sec ib ppl pcl].
  unfold closed_is_empty in Hinv. simpl in Hinv.
  unfold flush_bia, after_rows, init_state. simpl.
  destruct ib; simpl.
  - rewrite app_nil_r. reflexivity.
  - destruct (Hinv eq_refl) as (-> & -> & _). rewrite app_nil_r. reflexivity.
Qed.

(** X4.  Records are segmented independently: cutting the input in front of
    a section-I header, a line of the repertoire that the header predicate
    accepts, and segmenting the two parts separately gives the same rows,
    in the same order. *)
Theorem group_records_splits_at_header (pre post : list text) (h : text) :
  latin h = true ->
  is_section_header_i (normalize_text h) = true ->
  group_records (pre ++ h :: post)
  = group_records pre ++ group_records (h :: post).
Proof.
  intros _ Hh. unfold group_records at 1 3.
  rewrite run_app. simpl run_from. rewrite (@step_header_restarts pre h Hh).
  change (run (h :: post)) with (run_from (step init_state h) post).
  rewrite run_from_after_rows, flush_bia_after_rows. reflexivity.
Qed.

Lemma group_records_splits_at_header_witness :
  latin header_line = true /\
  is_section_header_i (normalize_text header_line) = true /\
  group_records ([header_line; person_line] ++ header_line :: [person_line])
  = group_records [header_line; person_line]
    ++ group_records (header_line :: [person_line]).
Proof.
  assert (L : latin header_line = true) by (vm_compute; reflexivity).
  assert (H : is_section_header_i (normalize_text header_line) = true)
    by (vm_compute; reflexivity).
  split; [exact L|]. split; [exact H|].
  apply group_records_splits_at_header; assumption.
Defined.

(* ================================================================== *)
(** ** Emitted rows are final *)

Lemma flush_bia_appends st : exists more, rows (flush_bia st) = rows st ++ more.
Proof.
  unfold flush_bia. destruct (in_bia st); simpl.
  - eauto.
  - exists []. rewrite app_nil_r. reflexivity.
Qed.

Lemma address_line_rows st s : rows (address_line st s) = rows st.
Proof.
  destruct st as [r sec ib ppl pcl]. unfold address_line. simpl.
  destruct ppl; [reflexivity|].
  destruct (truthy (extract_address s) && _); reflexivity.
Qed.

Lemma step_appends st l : exists more, rows (step st l) = rows st ++ more.
Proof.
  assert (Same : forall st', rows st' = rows st ->
                             exists more, rows st' = rows st ++ more).
  { intros st' E. exists []. rewrite app_nil_r. exact E. }
  unfold step.
  destruct (negb (truthy (normalize_text l))); [auto|].
  destruct (is_section_header_i (normalize_text l)).
  { simpl. apply flush_bia_appends. }
  destruct (negb (in_bia st)); [auto|].
  destruct (is_section_header_ii (normalize_text l)); [auto|].
  destruct (section st) as [[|]|]; [| |auto].
  - destruct (is_address_line (normalize_text l)).
    + apply Same, address_line_rows.
    + destruct (parse_person (normalize_text l)); auto.
  - destruct (parse_parcel_line_v2 (normalize_text l)); auto.
Qed.

Lemma run_from_appends lines : forall st,
  exists more, rows (run_from st lines) = rows st ++ more.
Proof.
  induction lines as [|l lines IH]; intros st; simpl.
  - exists []. rewrite app_nil_r. reflexivity.
  - destruct (IH (step st l)) as (m2 & E2).
    destruct (step_appends st l) as (m1 & E1).
    exists (m1 ++ m2). rewrite E2, E1, app_assoc. reflexivity.
Qed.

(** X5.  Emitted rows are final: the rows held after [pre ++ post] begin
    with the rows held after [pre], unchanged, and so does the result of
    [group_records]. *)
Theorem emitted_rows_are_final (pre post : list text) :
  exists more,
    rows (run (pre ++ post)) = rows (run pre) ++ more /\
    exists last, group_records (pre ++ post) = rows (run pre) ++ more ++ last.
Proof.
  rewrite run_app.
  destruct (run_from_appends post (run pre)) as (more & E).
  exists more. split; [exact E|].
  unfold group_records. rewrite run_app.
  destruct (flush_bia_appends (run_from (run pre) post)) as (last & El).
  exists last. rewrite El, E, app_assoc. reflexivity.
Qed.

(* ================================================================== *)
(** ** Every row carries the twenty columns *)

Lemma record_rows_columns people parcels :
  Forall (fun r : row => map fst r = ordered_cols) (record_rows people parcels).
Proof.
  unfold record_rows. apply Forall_forall. intros r Hr.
  apply in_map_iff in Hr as (t & <- & _). reflexivity.
Qed.

Lemma flush_bia_columns st :
  Forall (fun r : row => map fst r = ordered_cols) (rows st) ->
  Forall (fun r : row => map fst r = ordered_cols) (rows (flush_bia st)).
Proof.
  intros H. unfold flush_bia. destruct (in_bia st); simpl; [|exact H].
  apply Forall_app. split; [exact H|apply record_rows_columns].
Qed.

Lemma step_columns st l :
  Forall (fun r : row => map fst r = ordered_cols) (rows st) ->
  Forall (fun r : row => map fst r = ordered_cols) (rows (step st l)).
Proof.
  intros H. unfold step.
  destruct (negb (truthy (normalize_text l))); [exact H|].
  destruct (is_section_header_i (normalize_text l)).
  { simpl. apply flush_bia_columns, H. }
  destruct (negb (in_bia st)); [exact H|].
  destruct (is_section_header_ii (normalize_text l)); [exact H|].
  destruct (section st) as [[|]|]; [| |exact H].
  - destruct (is_address_line (normalize_text l)).
    + rewrite address_line_rows. exact H.
    + destruct (parse_person (normalize_text l)); exact H.
  - destruct (parse_parcel_line_v2 (normalize_text l)); exact H.
Qed.

Lemma run_from_columns lines : forall st,
  Forall (fun r : row => map fst r = ordered_cols) (rows st) ->
  Forall (fun r : row => map fst r = ordered_cols) (rows (run_from st lines)).
Proof.
  induction lines as [|l lines IH]; intros st H; simpl; [exact H|].
  apply IH, step_columns, H.
Qed.

(** X6.  Every row of [group_records] carries exactly the twenty columns of
    [ordered_cols] of [run_extraction], in that order, so the column
    completion and reordering of [run_extraction] find nothing to add to a
    row. *)
Theorem rows_carry_ordered_cols (lines : list text) :
  Forall (fun r : row => map fst r = ordered_cols) (group_records lines).
Proof.
  unfold group_records. apply flush_bia_columns.
  apply (run_from_columns lines init_state). constructor.
Qed.

(* ================================================================== *)
(** ** Address propagation is idempotent *)

Lemma nodup_singleton (l : list text) a :
  nodup text_eq_dec l = [a] <-> l <> [] /\ forall x, In x l -> x = a.
Proof.
  split.
  - intros E. split.
    + intros ->. discriminate E.
    + intros x Hx. apply (nodup_In text_eq_dec) in Hx. rewrite E in Hx.
      destruct Hx as [<-|[]]. reflexivity.
  - intros [Hne Hall]. induction l as [|x l IH]; [contradiction|].
    assert (x = a) by (apply Hall; left; reflexivity). subst x.
    simpl. destruct (in_dec text_eq_dec a l) as [Hin|Hnin].
    + apply IH; [intros ->; destruct Hin|].
      intros y Hy. apply Hall. right. exact Hy.
    + destruct l as [|y l]; [reflexivity|].
      exfalso. apply Hnin. left. apply Hall. right. left. reflexivity.
Qed.

Lemma strip_space_idem t : strip is_space (strip is_space t) = strip is_space t.
Proof. apply (@strip_tidy is_space t). auto. Qed.

Lemma strip_nil p : strip p [] = [].
Proof. reflexivity. Qed.

Lemma truthy_strip t : truthy (strip is_space t) = true -> truthy t = true.
Proof. destruct t; [discriminate|reflexivity]. Qed.

Lemma fill_address_twice a p :
  truthy a = true -> fill_address a (fill_address a p) = fill_address a p.
Proof.
  intros Ha. unfold fill_address.
  destruct (truthy (address p)) eqn:E; simpl; rewrite ?E, ?Ha; reflexivity.
Qed.

Lemma uniq_addresses_filled people a :
  uniq_addresses people = [a] ->
  truthy a = true /\ uniq_addresses (map (fill_address a) people) = [a].
Proof.
  unfold uniq_addresses. intros E.
  apply nodup_singleton in E as [Hne Hall].
  assert (Ha : truthy a = true /\ strip is_space a = a).
  { destruct (filter truthy (map (fun p => strip is_space (address p)) people))
      as [|x l] eqn:El; [contradiction|].
    assert (x = a) by (apply Hall; left; reflexivity). subst x.
    assert (Hx : In a (filter truthy
                 (map (fun p => strip is_space (address p)) people)))
      by (rewrite El; left; reflexivity).
    apply filter_In in Hx as [Hx Ht]. split; [exact Ht|].
    apply in_map_iff in Hx as (p & <- & _). apply strip_space_idem. }
  destruct Ha as [Ht Hs]. split; [exact Ht|].
  apply nodup_singleton. split.
  - intros Hnil. apply Hne.
    destruct (filter truthy (map (fun p => strip is_space (address p)) people))
      as [|x l] eqn:El; [reflexivity|exfalso].
    assert (Hx : In x (filter truthy
                 (map (fun p => strip is_space (address p)) people)))
      by (rewrite El; left; reflexivity).
    apply filter_In in Hx as [Hx Htx].
    apply in_map_iff in Hx as (p & Ep & Hp).
    assert (Hin : In x (filter truthy
                     (map (fun p => strip is_space (address p))
                          (map (fill_address a) people)))).
    { apply filter_In. split; [|exact Htx].
      apply in_map_iff. exists (fill_address a p). split.
      - unfold fill_address. rewrite <- Ep in Htx.
        rewrite (truthy_strip _ Htx). exact Ep.
      - apply in_map. exact Hp. }
    rewrite Hnil in Hin. destruct Hin.
  - intros x Hx. apply filter_In in Hx as [Hx Htx].
    apply in_map_iff in Hx as (q & Eq & Hq).
    apply in_map_iff in Hq as (p & <- & Hp).
    unfold fill_address in Eq. destruct (truthy (address p)) eqn:Ep.
    + apply Hall. apply filter_In. split; [|exact Htx].
      apply in_map_iff. exists p. auto.
    + simpl in Eq. rewrite Hs in Eq. auto.
Qed.

(** X7.  [propagate_addresses] is idempotent: the segmenter calls it after
    each address line and again at the flush, and a second call never
    changes what the first one left. *)
Theorem propagate_addresses_idempotent (people : list person) :
  propagate_addresses (propagate_addresses people) = propagate_addresses people.
Proof.
  destruct (uniq_addresses people) as [|a [|b l]] eqn:E.
  - unfold propagate_addresses at 2. rewrite E.
    unfold propagate_addresses. rewrite E. reflexivity.
  - assert (Ep : propagate_addresses people = map (fill_address a) people).
    { unfold propagate_addresses. rewrite E. reflexivity. }
    rewrite Ep. destruct (uniq_addresses_filled people E) as (Ht & E').
    unfold propagate_addresses. rewrite E'.
    change (fun p => if truthy (address p) then p else set_address a p)
      with (fill_address a).
    rewrite map_map. apply map_ext. intros p. apply fill_address_twice, Ht.
  - unfold propagate_addresses at 2. rewrite E.
    unfold propagate_addresses. rewrite E. reflexivity.
Qed.

(* ================================================================== *)
(** ** What [strip] leaves at the two ends *)

Lemma strip_last p s : head_is p (rev (strip p s)) = false.
Proof. unfold strip. apply rstrip_last. Qed.

Lemma strip_first p s : head_is p (strip p s) = false.
Proof.
  unfold strip.
  destruct (rstrip_prefix p (lstrip p s)) as (e & He).
  destruct (rstrip p (lstrip p s)) as [|c r] eqn:Er; [reflexivity|].
  simpl. simpl in He. exact (lstrip_head _ _ He).
Qed.

Lemma extract_address_source s :
  incl (extract_address s) (normalize_text s) \/
  incl (extract_address s) (str_lower (strip_accents (normalize_text s))).
Proof.
  unfold extract_address.
  destruct (re_search _ (normalize_text s)) as [m|] eqn:E1.
  - left. intros c Hc. apply strip_incl in Hc.
    exact (re_search_group_incl _ _ 1 E1 c Hc).
  - destruct (re_search _ (str_lower _)) as [m|] eqn:E2.
    + right. intros c Hc. apply strip_incl in Hc.
      exact (re_search_group_incl _ _ 1 E2 c Hc).
    + left. intros c [].
Qed.

(** X8.  The address that [extract_address] returns neither starts nor ends
    with a blank, full stop, comma, underscore or hyphen; its only white
    space is the plain blank; and each of its characters occurs in the
    normalised line, or in the accent-free lower-case form of that line
    when only the accent-free pattern matched. *)
Theorem extract_address_is_trimmed (s : text) :
  head_is (one_of (u " .,_-")) (extract_address s) = false /\
  head_is (one_of (u " .,_-")) (rev (extract_address s)) = false /\
  plain_spaces (extract_address s) /\
  (incl (extract_address s) (normalize_text s) \/
   incl (extract_address s) (str_lower (strip_accents (normalize_text s)))).
Proof.
  assert (Ends : head_is (one_of (u " .,_-")) (extract_address s) = false /\
                 head_is (one_of (u " .,_-")) (rev (extract_address s)) = false).
  { unfold extract_address.
    destruct (re_search _ (normalize_text s)) as [m|].
    - split; [apply strip_first | apply strip_last].
    - destruct (re_search _ (str_lower _)) as [m|].
      + split; [apply strip_first | apply strip_last].
      + split; reflexivity. }
  destruct Ends as [E1 E2]. repeat split; [exact E1 | exact E2 | |].
  - destruct (extract_address_source s) as [H|H].
    + exact (plain_spaces_incl H (normalize_text_plain s)).
    + refine (plain_spaces_incl H _).
      apply str_lower_plain, strip_accents_plain, normalize_text_plain.
  - apply extract_address_source.
Qed.

(* ================================================================== *)
(** ** Areas *)

Lemma replace_comma_none s : ~ In 44 (replace_char 44 46 s).
Proof.
  unfold replace_char. intros H. apply in_map_iff in H as (x & E & _).
  destruct (Z.eqb_spec x 44); [discriminate E|]. congruence.
Qed.

Lemma num_is_clean_parts (s : text) :
  existsb is_ascii_alpha (_num s) = false /\ ~ In 44 (_num s).
Proof.
  unfold _num.
  set (t := strip is_space (replace_char 44 46 s)).
  destruct (negb (truthy t) || existsb is_ascii_alpha t) eqn:E.
  - split; [reflexivity|intros []].
  - apply orb_false_iff in E as [_ E]. split; [exact E|].
    intros H. apply strip_incl in H. exact (replace_comma_none _ H).
Qed.

(** X9.  [_num] never returns a comma or an ASCII letter, nor white space at
    either end: its result is empty, or the input with commas turned into
    full stops and the surrounding white space removed. *)
Theorem num_is_clean (s : text) :
  existsb is_ascii_alpha (_num s) = false /\
  ~ In 44 (_num s) /\
  head_is is_space (_num s) = false /\
  head_is is_space (rev (_num s)) = false /\
  (_num s = [] \/ _num s = strip is_space (replace_char 44 46 s)).
Proof.
  unfold _num.
  set (t := strip is_space (replace_char 44 46 s)).
  destruct (negb (truthy t) || existsb is_ascii_alpha t) eqn:E.
  - split; [reflexivity|]. split; [intros []|]. auto.
  - apply orb_false_iff in E as [_ E]. split; [exact E|]. split.
    { intros H. apply strip_incl in H. exact (replace_comma_none _ H). }
    split; [apply strip_first|]. split; [apply strip_last|]. right. reflexivity.
Qed.

(* ================================================================== *)
(** ** The matcher follows the declarative reading of a pattern *)

Section RepSound.

Variable a : re.
Variable g : bool.
Hypothesis sound_a : forall k st m,
  mt a k st = Some m -> exists st', matches a st st' /\ k st' = Some m.

Lemma more_sound_bounded e : forall k st m,
  more (mt a) g e k st = Some m ->
  exists st', matches (Rep g 0 (Some e) a) st st' /\ k st' = Some m.
Proof.
  induction e as [|e IH]; intros k st m H; simpl in H.
  - exists st. split; [constructor|exact H].
  - destruct g.
    + destruct (mt a (more (mt a) true e k) st) eqn:E.
      * injection H as <-. destruct (sound_a _ _ E) as (st1 & M1 & H1).
        destruct (IH _ _ _ H1) as (st2 & M2 & H2).
        exists st2. split; [exact (M_RepMore M1 M2)|exact H2].
      * exists st. split; [constructor|exact H].
    + destruct (k st) eqn:E.
      * injection H as <-. exists st. split; [constructor|exact E].
      * destruct (sound_a _ _ H) as (st1 & M1 & H1).
        destruct (IH _ _ _ H1) as (st2 & M2 & H2).
        exists st2. split; [exact (M_RepMore M1 M2)|exact H2].
Qed.

Lemma more_sound_unbounded n : forall k st m,
  more (mt a) g n k st = Some m ->
  exists st', matches (Rep g 0 None a) st st' /\ k st' = Some m.
Proof.
  induction n as [|n IH]; intros k st m H; simpl in H.
  - exists st. split; [constructor|exact H].
  - destruct g.
    + destruct (mt a (more (mt a) true n k) st) eqn:E.
      * injection H as <-. destruct (sound_a _ _ E) as (st1 & M1 & H1).
        destruct (IH _ _ _ H1) as (st2 & M2 & H2).
        exists st2. split; [exact (M_RepMany M1 M2)|exact H2].
      * exists st. split; [constructor|exact H].
    + destruct (k st) eqn:E.
      * injection H as <-. exists st. split; [constructor|exact E].
      * destruct (sound_a _ _ H) as (st1 & M1 & H1).
        destruct (IH _ _ _ H1) as (st2 & M2 & H2).
        exists st2. split; [exact (M_RepMany M1 M2)|exact H2].
Qed.

Lemma must_sound extra (K k : kont) lo : forall st m,
  (forall st1 m, K st1 = Some m ->
     exists st2, matches (Rep g 0 extra a) st1 st2 /\ k st2 = Some m) ->
  must (mt a) lo K st = Some m ->
  exists st2, matches (Rep g lo extra a) st st2 /\ k st2 = Some m.
Proof.
  induction lo as [|lo IH]; intros st m HK H; simpl in H.
  - exact (HK _ _ H).
  - destruct (sound_a _ _ H) as (st1 & M1 & H1).
    destruct (IH _ _ HK H1) as (st2 & M2 & H2).
    exists st2. split; [exact (M_RepMust M1 M2)|exact H2].
Qed.

End RepSound.

Lemma mt_sound r : forall k st m,
  mt r k st = Some m -> exists st', matches r st st' /\ k st' = Some m.
Proof.
  induction r as [|p|a IHa b IHb|a IHa b IHb|g lo extra a IHa|n a IHa| | | |a IHa];
    intros k st m H; simpl in H.
  - exists st. split; [constructor|exact H].
  - destruct (rest st) as [|c tl] eqn:Er; [discriminate|].
    destruct (p c) eqn:Ep; [|discriminate].
    exists (advance c tl st). split; [exact (M_Chr _ _ Er Ep)|exact H].
  - destruct (IHa _ _ _ H) as (st1 & M1 & H1).
    destruct (IHb _ _ _ H1) as (st2 & M2 & H2).
    exists st2. split; [exact (M_Seq M1 M2)|exact H2].
  - destruct (mt a k st) eqn:E.
    + injection H as <-. destruct (IHa _ _ _ E) as (st1 & M1 & H1).
      exists st1. split; [exact (M_AltL _ M1)|exact H1].
    + destruct (IHb _ _ _ H) as (st1 & M1 & H1).
      exists st1. split; [exact (M_AltR _ M1)|exact H1].
  - eapply must_sound; [exact IHa| |exact H].
    intros st1 m1 H1. destruct extra as [e|].
    + eapply more_sound_bounded; [exact IHa|exact H1].
    + eapply more_sound_unbounded; [exact IHa|exact H1].
  - destruct (IHa _ _ _ H) as (st1 & M1 & H1).
    exists (set_group n st st1). split; [exact (M_Grp n M1)|exact H1].
  - destruct (at_start st) eqn:E; [|discriminate].
    exists st. split; [exact (M_Bol _ E)|exact H].
  - destruct (at_end st) eqn:E; [|discriminate].
    exists st. split; [exact (M_Eol _ E)|exact H].
  - destruct (at_word_boundary st) eqn:E; [|discriminate].
    exists st. split; [exact (M_WordB _ E)|exact H].
  - destruct (mt a Some st) eqn:E; [|discriminate].
    destruct (IHa _ _ _ E) as (st1 & M1 & _).
    exists st. split; [exact (M_Look M1)|exact H].
Qed.

Lemma mt_matches r st m : mt r Some st = Some m -> matches r st m.
Proof.
  intros H. destruct (mt_sound _ _ _ H) as (st' & M & E).
  injection E as <-. exact M.
Qed.

(** Where a search found its match. *)
Lemma search_from_matches r rs : forall sn m,
  search_from r sn rs = Some m ->
  exists sn' rs',
    rev sn' ++ rs' = rev sn ++ rs /\
    matches r {| seen := sn'; rest := rs'; caps := [] |} m.
Proof.
  induction rs as [|c rs IH]; intros sn m H; simpl in H.
  - destruct (mt r Some _) eqn:E; [|discriminate]. injection H as <-.
    exists sn, []. split; [reflexivity|exact (mt_matches _ _ E)].
  - destruct (mt r Some _) eqn:E.
    + injection H as <-. exists sn, (c :: rs).
      split; [reflexivity|exact (mt_matches _ _ E)].
    + destruct (IH _ _ H) as (sn' & rs' & Es & M).
      exists sn', rs'. split; [|exact M].
      rewrite Es. simpl. rewrite <- app_assoc. reflexivity.
Qed.

Lemma re_search_matches r s m :
  re_search r s = Some m ->
  exists sn rs,
    rev sn ++ rs = s /\ matches r {| seen := sn; rest := rs; caps := [] |} m.
Proof. intros H. exact (search_from_matches _ _ _ H). Qed.

Lemma re_match_matches r s m :
  re_match r s = Some m -> matches r (start_state s) m.
Proof. apply mt_matches. Qed.

(* ================================================================== *)
(** ** Reading a match *)

Lemma path_refl st : path st [] st.
Proof. split; reflexivity. Qed.

Lemma path_trans st d1 st1 d2 st2 :
  path st d1 st1 -> path st1 d2 st2 -> path st (d1 ++ d2) st2.
Proof.
  intros [A1 A2] [B1 B2]. split.
  - rewrite A1, B1, app_assoc. reflexivity.
  - rewrite B2, A2, rev_app_distr, app_assoc. reflexivity.
Qed.

Lemma matches_path r st st' : matches r st st' -> exists d, path st d st'.
Proof.
  induction 1;
    try (exists []; apply path_refl);
    try (destruct IHmatches1 as (d1 & P1); destruct IHmatches2 as (d2 & P2);
         exists (d1 ++ d2); exact (path_trans P1 P2));
    try assumption.
  exists [c]. split; simpl; auto.
Qed.

Lemma consumed_path st d st' : path st d st' -> consumed st st' = d.
Proof.
  intros [E _]. unfold consumed. rewrite E, length_app.
  replace (length d + length (rest st') - length (rest st'))%nat
    with (length d) by lia.
  rewrite firstn_app, Nat.sub_diag, firstn_all. simpl. apply app_nil_r.
Qed.

Lemma matches_groupless r st st' :
  matches r st st' -> groupless r = true -> caps st' = caps st.
Proof.
  induction 1; simpl; intros G; try reflexivity;
    try (apply andb_true_iff in G as [G1 G2]);
    try discriminate; auto.
  - rewrite IHmatches2, IHmatches1; auto.
  - rewrite IHmatches2, IHmatches1; auto.
  - rewrite IHmatches2, IHmatches1; auto.
  - rewrite IHmatches2, IHmatches1; auto.
Qed.

Lemma matches_Seq_inv a b st st' :
  matches (Seq a b) st st' -> exists s1, matches a st s1 /\ matches b s1 st'.
Proof. intros H. inversion H; subst. eauto. Qed.

Lemma matches_Alt_inv a b st st' :
  matches (Alt a b) st st' -> matches a st st' \/ matches b st st'.
Proof. intros H. inversion H; subst; auto. Qed.

Lemma matches_Grp_inv n a st st' :
  matches (Grp n a) st st' ->
  exists s1, matches a st s1 /\ st' = set_group n st s1.
Proof. intros H. inversion H; subst. eauto. Qed.

Lemma matches_Chr_inv p st st' :
  matches (Chr p) st st' ->
  exists c tl, rest st = c :: tl /\ p c = true /\ st' = advance c tl st.
Proof. intros H. inversion H; subst. eauto. Qed.

Lemma matches_Look_inv a st st' : matches (Look a) st st' -> st' = st.
Proof. intros H. inversion H; subst. reflexivity. Qed.

Lemma matches_Bol_inv st st' : matches Bol st st' -> st' = st /\ at_start st = true.
Proof. intros H. inversion H; subst. auto. Qed.

Lemma matches_Eol_inv st st' : matches Eol st st' -> st' = st /\ at_end st = true.
Proof. intros H. inversion H; subst. auto. Qed.

Lemma matches_WordB_inv st st' :
  matches WordB st st' -> st' = st /\ at_word_boundary st = true.
Proof. intros H. inversion H; subst. auto. Qed.

(** A repetition of a character class consumes a run of the class. *)
Lemma matches_class_run g lo extra p st st' :
  matches (Rep g lo extra (Chr p)) st st' ->
  exists d, path st d st' /\ caps st' = caps st /\ forallb p d = true /\
            (lo <= length d)%nat /\
            (forall e, extra = Some e -> (length d <= lo + e)%nat).
Proof.
  intros H. remember (Rep g lo extra (Chr p)) as r eqn:Er.
  revert lo extra Er.
  induction H; intros lo' extra' Er; try discriminate;
    injection Er as E1 E2 E3 E4; subst.
  - exists []. repeat split; simpl; auto. intros. lia.
  - destruct (IHmatches2 _ _ eq_refl) as (d & P & C & F & L & U).
    apply matches_Chr_inv in H as (c & tl & Ec & Pc & ->).
    exists (c :: d). split; [|split; [|split; [|split]]].
    + change (c :: d) with ([c] ++ d). refine (path_trans _ P).
      split; simpl; auto.
    + rewrite C. reflexivity.
    + simpl. rewrite Pc. exact F.
    + simpl. lia.
    + intros e He. specialize (U e He). simpl. lia.
  - destruct (IHmatches2 _ _ eq_refl) as (d & P & C & F & L & U).
    apply matches_Chr_inv in H as (c & tl & Ec & Pc & ->).
    exists (c :: d). split; [|split; [|split; [|split]]].
    + change (c :: d) with ([c] ++ d). refine (path_trans _ P).
      split; simpl; auto.
    + rewrite C. reflexivity.
    + simpl. rewrite Pc. exact F.
    + simpl. lia.
    + intros e' He. injection He as <-. specialize (U e eq_refl). simpl. lia.
  - destruct (IHmatches2 _ _ eq_refl) as (d & P & C & F & L & U).
    apply matches_Chr_inv in H as (c & tl & Ec & Pc & ->).
    exists (c :: d). split; [|split; [|split; [|split]]].
    + change (c :: d) with ([c] ++ d). refine (path_trans _ P).
      split; simpl; auto.
    + rewrite C. reflexivity.
    + simpl. rewrite Pc. exact F.
    + simpl. lia.
    + intros e He. discriminate He.
Qed.

Lemma matches_Chr_path p st st' :
  matches (Chr p) st st' ->
  exists c, path st [c] st' /\ caps st' = caps st /\ p c = true.
Proof.
  intros H. apply matches_Chr_inv in H as (c & tl & Ec & Pc & ->).
  exists c. repeat split; simpl; auto.
Qed.

(* ================================================================== *)
(** ** Concatenated patterns *)

Lemma groupless_cat l : groupless (cat l) = forallb groupless l.
Proof.
  induction l as [|x [|y l] IH]; simpl in *.
  - reflexivity.
  - rewrite andb_true_r. reflexivity.
  - rewrite IH. reflexivity.
Qed.

Lemma matches_cat_app l1 : forall l2 st m,
  l2 <> [] ->
  matches (cat (l1 ++ l2)) st m ->
  exists s1, matches (cat l1) st s1 /\ matches (cat l2) s1 m.
Proof.
  induction l1 as [|x l1 IH]; intros l2 st m Hne H.
  - exists st. split; [constructor|exact H].
  - destruct l1 as [|y l1].
    + destruct l2 as [|z l2]; [contradiction|].
      simpl in H. apply matches_Seq_inv in H as (s1 & A & B).
      exists s1. split; [exact A|exact B].
    + change (cat ((x :: y :: l1) ++ l2))
        with (Seq x (cat ((y :: l1) ++ l2))) in H.
      apply matches_Seq_inv in H as (s1 & A & B).
      destruct (IH _ _ _ Hne B) as (s2 & C & D).
      exists s2. split; [|exact D].
      change (cat (x :: y :: l1)) with (Seq x (cat (y :: l1))).
      exact (M_Seq A C).
Qed.

(** A pattern made of a prefix without groups and a last part. *)
Lemma matches_cat_last l b st m :
  matches (cat (l ++ [b])) st m ->
  forallb groupless l = true ->
  exists s1, matches b s1 m /\ caps s1 = caps st /\
             exists d, path st d s1.
Proof.
  intros H G.
  apply matches_cat_app in H as (s1 & A & B); [|discriminate].
  exists s1. split; [exact B|]. split.
  - apply (matches_groupless A). rewrite groupless_cat. exact G.
  - exact (matches_path A).
Qed.

(* ================================================================== *)
(** ** The shape of the captured fields *)

Lemma matches_rep_digits lo hi st st' :
  matches (rep lo hi digit) st st' ->
  exists d, path st d st' /\ caps st' = caps st /\ forallb is_digit d = true /\
            (lo <= length d <= lo + (hi - lo))%nat.
Proof.
  intros H. apply matches_class_run in H as (d & P & C & F & L & U).
  specialize (U _ eq_refl). exists d.
  split; [exact P|]. split; [exact C|]. split; [exact F|]. lia.
Qed.

Lemma matches_sep st st' :
  matches (set_of "/-.") st st' ->
  exists c, path st [c] st' /\ caps st' = caps st /\ one_of (u "/-.") c = true.
Proof. apply matches_Chr_path. Qed.

Lemma matches_RE_DATE n st st' :
  matches (RE_DATE n) st st' ->
  exists x, date_shaped x /\ path st x st' /\ caps st' = (n, x) :: caps st.
Proof.
  unfold RE_DATE. intros H.
  apply matches_Grp_inv in H as (s5 & H & ->).
  cbn [cat] in H.
  apply matches_Seq_inv in H as (s1 & H1 & H).
  apply matches_Seq_inv in H as (s2 & H2 & H).
  apply matches_Seq_inv in H as (s3 & H3 & H).
  apply matches_Seq_inv in H as (s4 & H4 & H5).
  apply matches_rep_digits in H1 as (d1 & P1 & C1 & F1 & L1).
  apply matches_sep in H2 as (c1 & P2 & C2 & S1).
  apply matches_rep_digits in H3 as (d2 & P3 & C3 & F3 & L3).
  apply matches_sep in H4 as (c2 & P4 & C4 & S2).
  apply matches_rep_digits in H5 as (y & P5 & C5 & F5 & L5).
  pose proof (path_trans P1 (path_trans P2 (path_trans P3 (path_trans P4 P5))))
    as P.
  exists (date_text d1 c1 d2 c2 y).
  change (path st (date_text d1 c1 d2 c2 y) s5) in P. split; [|split].
  - exists d1, c1, d2, c2, y. split; [reflexivity|].
    unfold date_ok, len_between. rewrite F1, F3, F5, S1, S2.
    rewrite (proj2 (Nat.leb_le 1 (length d1))) by lia.
    rewrite (proj2 (Nat.leb_le (length d1) 2)) by lia.
    rewrite (proj2 (Nat.leb_le 1 (length d2))) by lia.
    rewrite (proj2 (Nat.leb_le (length d2) 2)) by lia.
    rewrite (proj2 (Nat.leb_le 2 (length y))) by lia.
    rewrite (proj2 (Nat.leb_le (length y) 4)) by lia.
    reflexivity.
  - exact P.
  - unfold set_group. simpl. rewrite (consumed_path P).
    rewrite C5, C4, C3, C2, C1. reflexivity.
Qed.

Lemma group_head n x cs m : caps m = (n, x) :: cs -> group n m = x.
Proof. unfold group. intros ->. simpl. rewrite Nat.eqb_refl. reflexivity. Qed.

(** A search for [prefix RE_DATE] captures a date token of the subject. *)
Lemma search_date_last l s m :
  re_search (cat (l ++ [RE_DATE 1])) s = Some m ->
  forallb groupless l = true ->
  date_shaped (group 1 m).
Proof.
  intros H G. apply re_search_matches in H as (sn & rs & _ & M).
  apply (matches_cat_last l) in M as (s1 & M & C & _); [|exact G].
  apply matches_RE_DATE in M as (x & D & _ & Cx).
  rewrite (group_head _ Cx). exact D.
Qed.

Lemma find_issue_date_shape s :
  find_issue_date s = [] \/ date_shaped (find_issue_date s).
Proof.
  unfold find_issue_date. destruct (re_search issue_re s) as [m|] eqn:E; [|auto].
  right. refine (search_date_last
    [issue_keywords; star sp; star (set_of ":,-.:"); star sp] _ E _).
  vm_compute. reflexivity.
Qed.

Lemma dob_shape s m : re_search dob_re s = Some m -> date_shaped (group 1 m).
Proof.
  intros E. refine (search_date_last
    [stri "Sinh"; star sp; stri "ngày"; star sp; opt (str ":"); star sp] _ E _).
  vm_compute. reflexivity.
Qed.

Lemma year_shape s m :
  re_search year_re s = Some m ->
  length (group 1 m) = 4%nat /\ forallb is_digit (group 1 m) = true.
Proof.
  intros H. apply re_search_matches in H as (sn & rs & _ & M).
  change year_re with
    (cat ([stri "Sinh"; star sp; stri "năm"; star sp; opt (str ":"); star sp]
          ++ [Grp 1 (rep 4 4 digit)])) in M.
  apply matches_cat_last in M as (s1 & M & C & _); [|vm_compute; reflexivity].
  apply matches_Grp_inv in M as (s2 & M & ->).
  apply matches_rep_digits in M as (d & P & C2 & F & L).
  unfold group, set_group. simpl. rewrite (consumed_path P).
  split; [lia|exact F].
Qed.

(* ================================================================== *)
(** ** The fields of an extracted person *)

Lemma ascii_digit_is_digit c : is_ascii_digit c = true -> is_digit c = true.
Proof.
  intros H. unfold is_digit. apply existsb_exists. exists 48.
  split; [left; reflexivity|exact H].
Qed.

Lemma name_start_char c :
  (let l := cfold c in name_start l || name_start (upper l)) = true ->
  name_char c = true.
Proof.
  intros H. unfold name_char. apply negb_true_iff, orb_false_iff. split.
  - destruct (Z.eqb_spec c 44) as [->|_]; [|reflexivity].
    vm_compute in H. discriminate H.
  - destruct (is_ascii_digit c) eqn:E; [|reflexivity].
    rewrite (@disjoint_by_list is_ascii_digit
               (fun c => let l := cfold c in name_start l || name_start (upper l))
               (range_list 48 57) c) in H;
      [discriminate | apply between_range | vm_compute; reflexivity | exact E].
Qed.

Lemma name_rest_char c :
  negb ((c =? 44) || is_digit c) = true -> name_char c = true.
Proof.
  unfold name_char. rewrite !negb_true_iff, !orb_false_iff. intros [H1 H2].
  split; [exact H1|].
  destruct (is_ascii_digit c) eqn:E; [|reflexivity].
  rewrite (ascii_digit_is_digit _ E) in H2. discriminate H2.
Qed.

Lemma name_group_chars s m :
  re_search name_re s = Some m ->
  group 1 m <> [] /\ forallb name_char (group 1 m) = true.
Proof.
  intros H. apply re_search_matches in H as (sn & rs & _ & M).
  unfold name_re in M.
  match type of M with
  | matches (cat [?a; ?b; Grp 1 ?x; ?c; ?d]) _ _ =>
      change (cat [a; b; Grp 1 x; c; d])
        with (cat ([a; b] ++ [Grp 1 x; c; d])) in M;
      apply matches_cat_app in M as (s1 & A & M); [|discriminate];
      assert (C1 : caps s1 = []) by
        (rewrite (matches_groupless A); [reflexivity|vm_compute; reflexivity]);
      change (cat [Grp 1 x; c; d]) with (Seq (Grp 1 x) (cat [c; d])) in M;
      apply matches_Seq_inv in M as (s2 & G & T);
      assert (C2 : caps m = caps s2) by
        (apply (matches_groupless T); vm_compute; reflexivity)
  end.
  apply matches_Grp_inv in G as (s3 & G & ->).
  cbn [cat] in G. apply matches_Seq_inv in G as (s4 & G1 & G2).
  apply matches_Chr_path in G1 as (c & P1 & _ & Pc).
  apply matches_class_run in G2 as (d & P2 & _ & F & L & _).
  pose proof (path_trans P1 P2) as P.
  unfold group. rewrite C2. simpl. rewrite (consumed_path P).
  split; [discriminate|]. simpl. rewrite (name_start_char c Pc). simpl.
  rewrite forallb_forall in *. intros x Hx. apply name_rest_char, F, Hx.
Qed.

Lemma forallb_incl (p : Z -> bool) s s' :
  incl s' s -> forallb p s = true -> forallb p s' = true.
Proof.
  intros Hi H. rewrite forallb_forall in *. auto.
Qed.

Lemma honorific_sub_incl s : incl (honorific_sub s) s.
Proof.
  unfold honorific_sub. destruct (re_match HONORIFIC s) as [m|] eqn:E.
  - apply re_match_matches, matches_path in E as (d & P & _).
    simpl in P. rewrite P. apply incl_appr, incl_refl.
  - apply incl_refl.
Qed.

Lemma parse_person_name_birth t p :
  parse_person t = Some p ->
  let s := normalize_text t in
  full_name p =
    strip (one_of (u " ,.-_"))
      (honorific_sub
         match re_search name_re s with
         | Some m => strip is_space (group 1 m)
         | None => []
         end) /\
  truthy (full_name p) = true /\
  birth_year p =
    (let birth_year :=
       match re_search year_re s with Some m => group 1 m | None => [] end in
     if truthy birth_year then birth_year
     else match re_search dob_re s with Some m => group 1 m | None => [] end) /\
  (truthy (id_number p) || truthy (birth_year p)) = true.
Proof.
  unfold parse_person. cbv zeta.
  destruct (negb (truthy (normalize_text t)) || is_address_line (normalize_text t)
            || negb (is_person_like (normalize_text t))); [discriminate|].
  match goal with |- (if ?c then _ else _) = _ -> _ => destruct c eqn:E end;
    [discriminate|].
  intros H. injection H as <-. simpl.
  apply orb_false_iff in E as [E1 E2]. apply negb_false_iff in E1.
  split; [reflexivity|]. split; [exact E1|].
  destruct (truthy match re_search year_re (normalize_text t) with
                   | Some m => group 1 m | None => [] end) eqn:Ey.
  - split; [reflexivity|]. rewrite Ey. apply orb_true_r.
  - split; [reflexivity|]. simpl in E2.
    destruct (truthy (find_id_number (normalize_text t))); [reflexivity|].
    simpl in E2. simpl. apply negb_false_iff in E2. exact E2.
Qed.

(** X10.  The name of an extracted person is not empty, contains no comma and
    no ASCII digit, neither starts nor ends with a blank, comma, full stop,
    hyphen or underscore, and is made of characters of the normalised
    line. *)
Theorem parse_person_full_name (t : text) (p : person) :
  parse_person t = Some p ->
  full_name p <> [] /\
  forallb name_char (full_name p) = true /\
  head_is (one_of (u " ,.-_")) (full_name p) = false /\
  head_is (one_of (u " ,.-_")) (rev (full_name p)) = false /\
  incl (full_name p) (normalize_text t).
Proof.
  intros H. destruct (parse_person_name_birth _ H) as (En & Tn & _ & _).
  cbv zeta in En. split.
  { intros E. rewrite E in Tn. discriminate Tn. }
  rewrite En.
  destruct (re_search name_re (normalize_text t)) as [m|] eqn:Em.
  - destruct (name_group_chars _ Em) as (_ & F).
    assert (I : incl (strip (one_of (u " ,.-_"))
                        (honorific_sub (strip is_space (group 1 m))))
                     (group 1 m)).
    { intros c Hc. apply strip_incl, honorific_sub_incl, strip_incl in Hc.
      exact Hc. }
    split; [exact (@forallb_incl _ _ _ I F)|].
    split; [apply strip_first|]. split; [apply strip_last|].
    intros c Hc. apply I in Hc. exact (re_search_group_incl _ _ 1 Em c Hc).
  - rewrite En in Tn. vm_compute in Tn. discriminate Tn.
Qed.

Lemma parse_person_full_name_witness :
  parse_person scenario_line = Some scenario_person /\
  forallb name_char (full_name scenario_person) = true.
Proof.
  assert (E : parse_person scenario_line = Some scenario_person)
    by (vm_compute; reflexivity).
  split; [exact E|]. exact (proj1 (proj2 (parse_person_full_name _ E))).
Defined.

(** X11.  The dates of an extracted person: [birth_year] is empty, or four
    digits, or a date token (day, separator, month, separator, year) when
    only a birth date was found; [issue_date] is empty or a date token; and
    the person has an identity number or a birth year. *)
Theorem parse_person_dates (t : text) (p : person) :
  parse_person t = Some p ->
  (birth_year p = [] \/
   (length (birth_year p) = 4%nat /\ forallb is_digit (birth_year p) = true) \/
   date_shaped (birth_year p)) /\
  (issue_date p = [] \/ date_shaped (issue_date p)) /\
  (id_number p <> [] \/ birth_year p <> []).
Proof.
  intros H. destruct (parse_person_name_birth _ H) as (_ & _ & Eb & Tb).
  destruct (parse_person_fields _ H) as (_ & Ei & _).
  cbv zeta in Eb. split; [|split].
  - rewrite Eb.
    destruct (re_search year_re (normalize_text t)) as [m|] eqn:Ey.
    + destruct (truthy (group 1 m)) eqn:Tg.
      * right. left. exact (year_shape _ Ey).
      * destruct (re_search dob_re (normalize_text t)) as [m'|] eqn:Ed; [|auto].
        right. right. exact (dob_shape _ Ed).
    + simpl. destruct (re_search dob_re (normalize_text t)) as [m'|] eqn:Ed; [|auto].
      right. right. exact (dob_shape _ Ed).
  - rewrite Ei. apply find_issue_date_shape.
  - apply orb_true_iff in Tb as [T|T]; [left|right]; intros E; rewrite E in T;
      discriminate T.
Qed.

Lemma parse_person_dates_witness :
  parse_person scenario_line = Some scenario_person /\
  (issue_date scenario_person = [] \/ date_shaped (issue_date scenario_person)).
Proof.
  assert (E : parse_person scenario_line = Some scenario_person)
    by (vm_compute; reflexivity).
  split; [exact E|]. exact (proj1 (proj2 (parse_person_dates _ E))).
Defined.

(* ================================================================== *)
(** ** The positional steps of the parcel extractor *)

Lemma parse_parcel_stages s p :
  parse_parcel_line_v2 s = Some p ->
  let t := normalize_text s in
  thua_raw p = t /\
  (exists m0, re_match parcel_head t = Some m0 /\
              ngay_thang_vao_so p = group 1 m0) /\
  (so_thu_tu_thua_dat p, so_thu_tu_to_ban_do p) =
    match re_match parcel_numbers (after_head t) with
    | Some m => (group 1 m, group 2 m)
    | None => ([], [])
    end /\
  dt_rieng_m2 p = _num (fst (take_token (areas_from t))) /\
  dt_chung_m2 p = _num (fst (take_token (snd (take_token (areas_from t))))) /\
  muc_dich_su_dung p =
    match re_match parcel_purpose (purpose_from t) with
    | Some m => group 1 m
    | None => []
    end /\
  thoi_han_su_dung p =
    match re_match parcel_term (after_purpose (purpose_from t)) with
    | Some m => group 1 m
    | None => []
    end /\
  nguon_goc_su_dung p =
    match re_search parcel_origin (rest_final t) with
    | Some m => group 1 m
    | None => []
    end /\
  so_phat_hanh_gcn p =
    match re_search (parcel_serial 4) (rest_final t) with
    | Some m => remove_char 32 (group 1 m)
    | None => []
    end /\
  so_vao_so p =
    match re_findall (parcel_serial 3) (rest_final t) with
    | [] => []
    | _ :: _ => remove_char 32 (last (re_findall (parcel_serial 3) (rest_final t)) [])
    end.
Proof.
  unfold parse_parcel_line_v2, rest_final, purpose_from, areas_from,
    after_term, after_purpose, after_numbers, after_head.
  fold parcel_head parcel_numbers parcel_purpose parcel_term parcel_origin.
  fold (parcel_serial 4) (parcel_serial 3).
  cbv zeta.
  destruct (negb (truthy (normalize_text s))); [discriminate|].
  destruct (re_match parcel_head (normalize_text s)) as [m0|] eqn:E0;
    [|discriminate].
  set (rest0 := strip is_space (group 2 m0)).
  destruct (re_match parcel_numbers rest0) as [m12|].
  - set (rest2 := strip is_space (group 3 m12)).
    destruct (take_token rest2) as [r1 rest3]. cbn [fst snd].
    destruct (take_token rest3) as [r2 rest4].
    cbn [fst snd].
    destruct (re_match parcel_purpose rest4) as [m3|].
    + set (rest5 := strip is_space (group 2 m3)).
      destruct (re_match parcel_term rest5) as [m4|];
        intros H; injection H as <-;
        cbn [thua_raw ngay_thang_vao_so so_thu_tu_thua_dat so_thu_tu_to_ban_do
             dt_rieng_m2 dt_chung_m2 muc_dich_su_dung thoi_han_su_dung
             nguon_goc_su_dung so_phat_hanh_gcn so_vao_so];
        (split; [reflexivity|]); (split; [exists m0; split; reflexivity|]);
        repeat (split; [reflexivity|]); reflexivity.
    + destruct (re_match parcel_term rest4) as [m4|];
        intros H; injection H as <-;
        cbn [thua_raw ngay_thang_vao_so so_thu_tu_thua_dat so_thu_tu_to_ban_do
             dt_rieng_m2 dt_chung_m2 muc_dich_su_dung thoi_han_su_dung
             nguon_goc_su_dung so_phat_hanh_gcn so_vao_so];
        (split; [reflexivity|]); (split; [exists m0; split; reflexivity|]);
        repeat (split; [reflexivity|]); reflexivity.
  - destruct (take_token rest0) as [r1 rest3]. cbn [fst snd].
    destruct (take_token rest3) as [r2 rest4].
    cbn [fst snd].
    destruct (re_match parcel_purpose rest4) as [m3|].
    + set (rest5 := strip is_space (group 2 m3)).
      destruct (re_match parcel_term rest5) as [m4|];
        intros H; injection H as <-;
        cbn [thua_raw ngay_thang_vao_so so_thu_tu_thua_dat so_thu_tu_to_ban_do
             dt_rieng_m2 dt_chung_m2 muc_dich_su_dung thoi_han_su_dung
             nguon_goc_su_dung so_phat_hanh_gcn so_vao_so];
        (split; [reflexivity|]); (split; [exists m0; split; reflexivity|]);
        repeat (split; [reflexivity|]); reflexivity.
    + destruct (re_match parcel_term rest4) as [m4|];
        intros H; injection H as <-;
        cbn [thua_raw ngay_thang_vao_so so_thu_tu_thua_dat so_thu_tu_to_ban_do
             dt_rieng_m2 dt_chung_m2 muc_dich_su_dung thoi_han_su_dung
             nguon_goc_su_dung so_phat_hanh_gcn so_vao_so];
        (split; [reflexivity|]); (split; [exists m0; split; reflexivity|]);
        repeat (split; [reflexivity|]); reflexivity.
Qed.

Lemma re_match_group_incl r s m n : re_match r s = Some m -> incl (group n m) s.
Proof.
  intros H. apply group_within.
  refine (@mt_result_within r s [] s m _ _ H).
  - intros x [].
  - apply incl_refl.
Qed.

Lemma after_head_incl t : incl (after_head t) t.
Proof.
  unfold after_head. destruct (re_match parcel_head t) as [m|] eqn:E.
  - intros c Hc. apply strip_incl in Hc. exact (re_match_group_incl _ _ 2 E c Hc).
  - intros c [].
Qed.

Lemma after_numbers_incl r : incl (after_numbers r) r.
Proof.
  unfold after_numbers. destruct (re_match parcel_numbers r) as [m|] eqn:E.
  - intros c Hc. apply strip_incl in Hc. exact (re_match_group_incl _ _ 3 E c Hc).
  - apply incl_refl.
Qed.

Lemma after_purpose_incl r : incl (after_purpose r) r.
Proof.
  unfold after_purpose. destruct (re_match parcel_purpose r) as [m|] eqn:E.
  - intros c Hc. apply strip_incl in Hc. exact (re_match_group_incl _ _ 2 E c Hc).
  - apply incl_refl.
Qed.

Lemma after_term_incl r : incl (after_term r) r.
Proof.
  unfold after_term. destruct (re_match parcel_term r) as [m|] eqn:E.
  - intros c Hc. apply strip_incl in Hc. exact (re_match_group_incl _ _ 3 E c Hc).
  - apply incl_refl.
Qed.

Lemma take_token_incl r :
  incl (fst (take_token r)) r /\ incl (snd (take_token r)) r.
Proof.
  unfold take_token. destruct (re_match token_re r) as [m|] eqn:E; simpl.
  - split.
    + exact (re_match_group_incl _ _ 1 E).
    + intros c Hc. apply strip_incl in Hc. exact (re_match_group_incl _ _ 2 E c Hc).
  - split; [intros c []|apply incl_refl].
Qed.

Lemma areas_from_incl t : incl (areas_from t) t.
Proof.
  unfold areas_from. intros c Hc.
  apply after_numbers_incl, after_head_incl in Hc. exact Hc.
Qed.

Lemma purpose_from_incl t : incl (purpose_from t) t.
Proof.
  unfold purpose_from. intros c Hc.
  apply (proj2 (take_token_incl _)), (proj2 (take_token_incl _)),
    areas_from_incl in Hc.
  exact Hc.
Qed.

Lemma rest_final_incl t : incl (rest_final t) t.
Proof.
  unfold rest_final. intros c Hc.
  apply after_term_incl, after_purpose_incl, purpose_from_incl in Hc. exact Hc.
Qed.

(* ================================================================== *)
(** ** The entry date and the two numbers of a parcel *)

Lemma parcel_head_date t m :
  re_match parcel_head t = Some m ->
  date_shaped (group 1 m) /\ exists tail, t = group 1 m ++ tail.
Proof.
  intros H. apply re_match_matches in H.
  unfold parcel_head, tail_group in H. cbn [cat] in H.
  apply matches_Seq_inv in H as (s1 & D & H).
  apply matches_Seq_inv in H as (s2 & W & H).
  apply matches_Seq_inv in H as (s3 & G & E).
  apply matches_RE_DATE in D as (x & Dx & Px & Cx).
  apply matches_WordB_inv in W as (-> & _).
  apply matches_Grp_inv in G as (s4 & G & ->).
  apply matches_Eol_inv in E as (-> & _).
  assert (C4 : caps s4 = caps s1)
    by (apply (matches_groupless G); reflexivity).
  assert (Eg : group 1 (set_group 2 s1 s4) = x).
  { unfold group, set_group. simpl. rewrite C4, Cx. reflexivity. }
  rewrite Eg. split; [exact Dx|].
  destruct Px as (Pr & _). simpl in Pr. exists (rest s1). exact Pr.
Qed.

Lemma matches_plus_digits st st' :
  matches (plus digit) st st' ->
  exists d, path st d st' /\ caps st' = caps st /\ forallb is_digit d = true /\
            d <> [].
Proof.
  intros H. apply matches_class_run in H as (d & P & C & F & L & _).
  exists d. split; [exact P|]. split; [exact C|]. split; [exact F|].
  intros E. rewrite E in L. simpl in L. lia.
Qed.

Lemma parcel_numbers_digits r m :
  re_match parcel_numbers r = Some m ->
  group 1 m <> [] /\ forallb is_digit (group 1 m) = true /\
  group 2 m <> [] /\ forallb is_digit (group 2 m) = true.
Proof.
  intros H. apply re_match_matches in H.
  unfold parcel_numbers, tail_group in H. cbn [cat] in H.
  apply matches_Seq_inv in H as (s1 & A & H).
  apply matches_Seq_inv in H as (s2 & G1 & H).
  apply matches_Seq_inv in H as (s3 & B & H).
  apply matches_Seq_inv in H as (s4 & G2 & H).
  apply matches_Seq_inv in H as (s5 & G3 & E).
  apply matches_Grp_inv in G1 as (t1 & G1 & ->).
  apply matches_Grp_inv in G2 as (t2 & G2 & ->).
  apply matches_Grp_inv in G3 as (t3 & G3 & ->).
  apply matches_Eol_inv in E as (-> & _).
  apply matches_plus_digits in G1 as (d1 & P1 & C1 & F1 & N1).
  apply matches_plus_digits in G2 as (d2 & P2 & C2 & F2 & N2).
  assert (CB : caps s3 = caps (set_group 1 s1 t1))
    by (apply (matches_groupless B); reflexivity).
  assert (C3 : caps t3 = caps (set_group 2 s3 t2))
    by (apply (matches_groupless G3); reflexivity).
  unfold group, set_group in *. simpl in *.
  rewrite C3, C2, CB. simpl.
  rewrite (consumed_path P1), (consumed_path P2). auto.
Qed.

(** X12.  The head of an extracted parcel: [thua_raw] is the normalised line,
    [ngay_thang_vao_so] is a date token with which that line starts, and
    the parcel number and the map-sheet number are either both empty or
    both non-empty runs of digits. *)
Theorem parse_parcel_line_v2_head (s : text) (p : parcel) :
  parse_parcel_line_v2 s = Some p ->
  thua_raw p = normalize_text s /\
  date_shaped (ngay_thang_vao_so p) /\
  (exists tail, thua_raw p = ngay_thang_vao_so p ++ tail) /\
  ((so_thu_tu_thua_dat p = [] /\ so_thu_tu_to_ban_do p = []) \/
   (so_thu_tu_thua_dat p <> [] /\ so_thu_tu_to_ban_do p <> [] /\
    forallb is_digit (so_thu_tu_thua_dat p) = true /\
    forallb is_digit (so_thu_tu_to_ban_do p) = true)).
Proof.
  intros H. destruct (parse_parcel_stages _ H) as (Er & (m0 & E0 & En) & E12 & _).
  destruct (parcel_head_date _ E0) as (D & tail & Et).
  split; [exact Er|]. rewrite En, Er.
  split; [exact D|]. split; [exists tail; exact Et|].
  destruct (re_match parcel_numbers (after_head (normalize_text s)))
    as [m|] eqn:Em; injection E12 as -> ->.
  - right. destruct (parcel_numbers_digits _ Em) as (A & B & C & E). auto.
  - left. auto.
Qed.

Lemma parse_parcel_line_v2_head_witness :
  parse_parcel_line_v2 parcel_line = Some scenario_parcel /\
  date_shaped (ngay_thang_vao_so scenario_parcel).
Proof.
  assert (E : parse_parcel_line_v2 parcel_line = Some scenario_parcel)
    by (vm_compute; reflexivity).
  split; [exact E|]. exact (proj1 (proj2 (parse_parcel_line_v2_head _ E))).
Defined.

(* ================================================================== *)
(** ** The codes of a parcel *)

Lemma matches_upper_run lo hi st st' :
  matches (upper_run lo hi) st st' ->
  exists d, path st d st' /\ caps st' = caps st /\
            forallb is_ascii_upper d = true /\
            (lo <= length d <= lo + (hi - lo))%nat.
Proof.
  intros H. apply matches_class_run in H as (d & P & C & F & L & U).
  specialize (U _ eq_refl). exists d.
  split; [exact P|]. split; [exact C|]. split; [exact F|]. lia.
Qed.

Lemma matches_blanks st st' :
  matches (star sp) st st' ->
  exists d, path st d st' /\ caps st' = caps st /\ forallb is_space d = true.
Proof.
  intros H. apply matches_class_run in H as (d & P & C & F & _ & _).
  exists d. auto.
Qed.

Lemma parcel_purpose_shape r m :
  re_match parcel_purpose r = Some m ->
  forallb is_ascii_upper (group 1 m) = true /\
  (2 <= length (group 1 m) <= 5)%nat.
Proof.
  intros H. apply re_match_matches in H.
  unfold parcel_purpose, tail_group in H. cbn [cat] in H.
  apply matches_Seq_inv in H as (s1 & G & H).
  apply matches_Seq_inv in H as (s2 & W & H).
  apply matches_Seq_inv in H as (s3 & G2 & E).
  apply matches_Grp_inv in G as (t1 & G & ->).
  apply matches_WordB_inv in W as (-> & _).
  apply matches_Grp_inv in G2 as (t2 & G2 & ->).
  apply matches_Eol_inv in E as (-> & _).
  apply matches_upper_run in G as (d & P & C & F & L).
  assert (C2 : caps t2 = caps (set_group 1 (start_state r) t1))
    by (apply (matches_groupless G2); reflexivity).
  unfold group, set_group in *. simpl in *. rewrite C2. simpl.
  rewrite (consumed_path P). split; [exact F|lia].
Qed.

(** What the serial pattern captures: letters, blanks, digits. *)
Lemma parcel_serial_group k st m :
  matches (parcel_serial k) st m ->
  exists a blanks d,
    group 1 m = a ++ blanks ++ d /\
    forallb is_ascii_upper a = true /\ (1 <= length a <= 3)%nat /\
    forallb is_space blanks = true /\
    forallb is_digit d = true /\ (k <= length d)%nat.
Proof.
  intros H. unfold parcel_serial in H. cbn [cat] in H.
  apply matches_Seq_inv in H as (s1 & W & H).
  apply matches_Seq_inv in H as (s2 & G & W2).
  apply matches_WordB_inv in W as (-> & _).
  apply matches_WordB_inv in W2 as (-> & _).
  apply matches_Grp_inv in G as (t1 & G & ->).
  apply matches_Seq_inv in G as (u1 & A & G).
  apply matches_Seq_inv in G as (u2 & B & D).
  apply matches_upper_run in A as (a & Pa & _ & Fa & La).
  apply matches_blanks in B as (b & Pb & _ & Fb).
  apply matches_class_run in D as (d & Pd & _ & Fd & Ld & _).
  exists a, b, d. unfold group, set_group. simpl.
  rewrite (consumed_path (path_trans Pa (path_trans Pb Pd))).
  repeat split; auto; lia.
Qed.

Lemma remove_char_none a s :
  (forall c, In c s -> c <> a) -> remove_char a s = s.
Proof.
  intros H. unfold remove_char. induction s as [|c s IH]; [reflexivity|].
  simpl. destruct (Z.eqb_spec c a) as [E|_].
  - exfalso. exact (H c (or_introl eq_refl) E).
  - simpl. rewrite IH; [reflexivity|]. intros x Hx. apply H. right. exact Hx.
Qed.

Lemma remove_char_all a s :
  (forall c, In c s -> c = a) -> remove_char a s = [].
Proof.
  intros H. unfold remove_char. induction s as [|c s IH]; [reflexivity|].
  simpl. rewrite (H c (or_introl eq_refl)), Z.eqb_refl. simpl.
  apply IH. intros x Hx. apply H. right. exact Hx.
Qed.

Lemma remove_char_app a s1 s2 :
  remove_char a (s1 ++ s2) = remove_char a s1 ++ remove_char a s2.
Proof. unfold remove_char. apply filter_app. Qed.

Lemma serial_code lo hi k x a blanks d :
  x = a ++ blanks ++ d ->
  plain_spaces x ->
  forallb is_ascii_upper a = true -> (lo <= length a <= hi)%nat ->
  forallb is_space blanks = true ->
  forallb is_digit d = true -> (k <= length d)%nat ->
  code_shaped lo hi k (remove_char 32 x).
Proof.
  intros -> Hp Fa La Fb Fd Ld. exists a, d.
  rewrite !remove_char_app.
  rewrite (@remove_char_none 32 a), (@remove_char_all 32 blanks),
    (@remove_char_none 32 d).
  - repeat split; auto; lia.
  - intros c Hc E. subst c. rewrite forallb_forall in Fd.
    specialize (Fd 32 Hc). vm_compute in Fd. discriminate Fd.
  - intros c Hc. rewrite forallb_forall in Fb. apply Hp; [|exact (Fb c Hc)].
    apply in_or_app. right. apply in_or_app. left. exact Hc.
  - intros c Hc E. subst c. rewrite forallb_forall in Fa.
    specialize (Fa 32 Hc). vm_compute in Fa. discriminate Fa.
Qed.

Lemma findall_from_matches r fuel : forall sn rs tok,
  In tok (findall_from fuel r sn rs) ->
  exists st m, caps st = [] /\ matches r st m /\ tok = group 1 m.
Proof.
  induction fuel as [|fuel IH]; intros sn rs tok H; simpl in H; [destruct H|].
  destruct (search_from r sn rs) as [m|] eqn:E; [|destruct H].
  destruct H as [<-|H].
  - apply search_from_matches in E as (sn' & rs' & _ & M).
    exists {| seen := sn'; rest := rs'; caps := [] |}, m. auto.
  - destruct (Nat.ltb _ _); [|destruct H]. exact (IH _ _ _ H).
Qed.

Lemma last_in (l : list text) : l <> [] -> In (last l []) l.
Proof.
  induction l as [|x [|y l] IH]; intros H; [contradiction|left; reflexivity|].
  right. apply IH. discriminate.
Qed.

(** X13.  The codes of an extracted parcel: [muc_dich_su_dung] is empty or
    two to five ASCII capital letters; [so_phat_hanh_gcn] is empty or one
    to three capital letters followed by at least four digits, and
    [so_vao_so] is empty or one to three capital letters followed by at
    least three digits, both without any blank left between letters and
    digits. *)
Theorem parse_parcel_line_v2_codes (s : text) (p : parcel) :
  parse_parcel_line_v2 s = Some p ->
  (muc_dich_su_dung p = [] \/
   (forallb is_ascii_upper (muc_dich_su_dung p) = true /\
    (2 <= length (muc_dich_su_dung p) <= 5)%nat)) /\
  (so_phat_hanh_gcn p = [] \/ code_shaped 1 3 4 (so_phat_hanh_gcn p)) /\
  (so_vao_so p = [] \/ code_shaped 1 3 3 (so_vao_so p)).
Proof.
  intros H.
  destruct (parse_parcel_stages _ H)
    as (_ & _ & _ & _ & _ & Em & _ & _ & Ep & Ev).
  cbv zeta in *.
  assert (Hplain : plain_spaces (rest_final (normalize_text s))).
  { exact (plain_spaces_incl (@rest_final_incl (normalize_text s))
             (normalize_text_plain s)). }
  split; [|split].
  - rewrite Em.
    destruct (re_match parcel_purpose _) as [m|] eqn:E; [|auto].
    right. exact (parcel_purpose_shape _ E).
  - rewrite Ep.
    destruct (re_search (parcel_serial 4) _) as [m|] eqn:E; [|auto].
    right. pose proof (re_search_group_incl _ _ 1 E) as Hi.
    apply re_search_matches in E as (sn & rs & _ & M).
    apply parcel_serial_group in M as (a & b & d & Eg & Fa & La & Fb & Fd & Ld).
    exact (@serial_code 1 3 4 _ _ _ _ Eg (plain_spaces_incl Hi Hplain) Fa La Fb Fd Ld).
  - rewrite Ev.
    destruct (re_findall (parcel_serial 3) _) as [|x l] eqn:E; [auto|].
    right.
    assert (Hin : In (last (x :: l) [])
                     (re_findall (parcel_serial 3)
                        (rest_final (normalize_text s))))
      by (rewrite E; apply last_in; discriminate).
    pose proof (re_findall_incl _ _ _ Hin) as Hi.
    apply findall_from_matches in Hin as (st & m & _ & M & Et).
    apply parcel_serial_group in M as (a & b & d & Eg & Fa & La & Fb & Fd & Ld).
    rewrite <- Et in Eg.
    exact (@serial_code 1 3 3 _ _ _ _ Eg (plain_spaces_incl Hi Hplain) Fa La Fb Fd Ld).
Qed.

Lemma parse_parcel_line_v2_codes_witness :
  parse_parcel_line_v2 parcel_line = Some scenario_parcel /\
  (so_phat_hanh_gcn scenario_parcel = [] \/
   code_shaped 1 3 4 (so_phat_hanh_gcn scenario_parcel)).
Proof.
  assert (E : parse_parcel_line_v2 parcel_line = Some scenario_parcel)
    by (vm_compute; reflexivity).
  split; [exact E|]. exact (proj1 (proj2 (parse_parcel_line_v2_codes _ E))).
Defined.

(* ================================================================== *)
(** ** Areas, term and origin of a parcel *)

Lemma matches_Eps_inv st st' : matches Eps st st' -> st' = st.
Proof. intros H. inversion H; subst. reflexivity. Qed.

(** A literal word under [re.IGNORECASE]. *)
Lemma matches_liti_word l : forall st st',
  matches (cat (map liti l)) st st' ->
  exists d, path st d st' /\ caps st' = caps st /\ map cfold d = map cfold l.
Proof.
  induction l as [|c [|c' l] IH]; intros st st' H.
  - apply matches_Eps_inv in H as ->. exists []. split; [apply path_refl|auto].
  - apply matches_Chr_path in H as (x & P & C & E). apply Z.eqb_eq in E.
    exists [x]. simpl. rewrite E. auto.
  - change (cat (map liti (c :: c' :: l)))
      with (Seq (liti c) (cat (map liti (c' :: l)))) in H.
    apply matches_Seq_inv in H as (s1 & A & B).
    apply matches_Chr_path in A as (x & P & C & E). apply Z.eqb_eq in E.
    destruct (IH _ _ B) as (d & Pd & Cd & Ed).
    exists (x :: d). split; [|split].
    + exact (path_trans P Pd).
    + rewrite Cd, C. reflexivity.
    + simpl. simpl in Ed. rewrite E, Ed. reflexivity.
Qed.

Lemma parcel_term_shape r m :
  re_match parcel_term r = Some m ->
  date_shaped (group 1 m) \/ lau_dai (group 1 m).
Proof.
  intros H. apply re_match_matches in H.
  unfold parcel_term, tail_group in H. cbn [cat alts] in H.
  apply matches_Seq_inv in H as (s1 & G & H).
  apply matches_Seq_inv in H as (s2 & W & H).
  apply matches_Seq_inv in H as (s3 & G3 & E).
  apply matches_Grp_inv in G as (t1 & G & ->).
  apply matches_WordB_inv in W as (-> & _).
  apply matches_Grp_inv in G3 as (t3 & G3 & ->).
  apply matches_Eol_inv in E as (-> & _).
  assert (C3 : caps t3 = caps (set_group 1 (start_state r) t1))
    by (apply (matches_groupless G3); reflexivity).
  assert (Eg : group 1 (set_group 3 (set_group 1 (start_state r) t1) t3)
               = consumed (start_state r) t1).
  { unfold group, set_group in *. simpl in *. rewrite C3. reflexivity. }
  rewrite Eg. apply matches_Alt_inv in G as [G|G].
  - right.
    apply matches_Seq_inv in G as (u1 & A & G).
    apply matches_Seq_inv in G as (u2 & B & D).
    apply matches_liti_word in A as (a & Pa & _ & Ea).
    apply matches_blanks in B as (b & Pb & _ & Fb).
    apply matches_liti_word in D as (d & Pd & _ & Ed).
    rewrite (consumed_path (path_trans Pa (path_trans Pb Pd))).
    exists a, b, d. auto.
  - left. apply matches_RE_DATE in G as (x & D & P & _).
    rewrite (consumed_path P). exact D.
Qed.

Lemma parcel_origin_shape r m :
  re_search parcel_origin r = Some m -> origin_shaped (group 1 m).
Proof.
  intros H. apply re_search_matches in H as (sn & rs & _ & H).
  unfold parcel_origin in H. cbn [cat] in H.
  change (str "-") with (Chr (Z.eqb 45)) in H.
  apply matches_Seq_inv in H as (s1 & W & H).
  apply matches_Seq_inv in H as (s2 & G & W2).
  apply matches_WordB_inv in W as (-> & _).
  apply matches_WordB_inv in W2 as (-> & _).
  apply matches_Grp_inv in G as (t1 & G & ->).
  apply matches_Seq_inv in G as (u1 & A & G).
  apply matches_Seq_inv in G as (u2 & B1 & G).
  apply matches_Seq_inv in G as (u3 & Hy & G).
  apply matches_Seq_inv in G as (u4 & B2 & D).
  apply matches_upper_run in A as (a & Pa & _ & Fa & La).
  apply matches_blanks in B1 as (b1 & Pb1 & _ & Fb1).
  apply matches_Chr_path in Hy as (h & Ph & _ & Eh). apply Z.eqb_eq in Eh.
  apply matches_blanks in B2 as (b2 & Pb2 & _ & Fb2).
  apply matches_upper_run in D as (d & Pd & _ & Fd & Ld).
  unfold group, set_group. simpl.
  rewrite (consumed_path
             (path_trans Pa (path_trans Pb1 (path_trans Ph (path_trans Pb2 Pd))))).
  subst h. exists a, b1, b2, d. repeat split; auto; lia.
Qed.

Lemma token_nonspace r : existsb is_space (fst (take_token r)) = false.
Proof.
  unfold take_token. destruct (re_match token_re r) as [m|] eqn:E; [|reflexivity].
  simpl. apply re_match_matches in E.
  unfold token_re, tail_group in E. cbn [cat alts] in E.
  apply matches_Seq_inv in E as (s1 & G & E).
  apply matches_Seq_inv in E as (s2 & G2 & El).
  apply matches_Grp_inv in G as (t1 & G & ->).
  apply matches_Grp_inv in G2 as (t2 & G2 & ->).
  apply matches_Eol_inv in El as (-> & _).
  assert (C2 : caps t2 = caps (set_group 1 (start_state r) t1))
    by (apply (matches_groupless G2); reflexivity).
  assert (Eg : group 1 (set_group 2 (set_group 1 (start_state r) t1) t2)
               = consumed (start_state r) t1).
  { unfold group, set_group in *. simpl in *. rewrite C2. reflexivity. }
  rewrite Eg.
  assert (F : forallb (fun c => negb (is_space c)) (consumed (start_state r) t1)
              = true).
  { apply matches_Alt_inv in G as [G|G];
      apply matches_class_run in G as (d & P & _ & F & _ & _);
      rewrite (consumed_path P); [|exact F].
    rewrite forallb_forall in *. intros c Hc. specialize (F c Hc).
    apply negb_true_iff. apply orb_true_iff in F as [F|F].
    - apply digit_not_space, F.
    - apply one_of_in in F. destruct (is_space c) eqn:Es; [|reflexivity].
      destruct F as [<-|[<-|[]]]; vm_compute in Es; discriminate Es. }
  destruct (existsb is_space _) eqn:Ex; [|reflexivity].
  apply existsb_exists in Ex as (c & Hc & Sc).
  rewrite forallb_forall in F. specialize (F c Hc). rewrite Sc in F.
  discriminate F.
Qed.

Lemma num_nonspace x : existsb is_space x = false -> existsb is_space (_num x) = false.
Proof.
  intros H. unfold _num.
  destruct (negb (truthy _) || existsb is_ascii_alpha _); [reflexivity|].
  destruct (existsb is_space (strip _ _)) eqn:E; [|reflexivity].
  apply existsb_exists in E as (c & Hc & Sc). apply strip_incl in Hc.
  unfold replace_char in Hc. apply in_map_iff in Hc as (y & Ey & Hy).
  assert (Sy : is_space y = true).
  { simpl in Ey. destruct (Z.eqb_spec y 44) as [E44|N44].
    - rewrite <- Ey in Sc. vm_compute in Sc. discriminate Sc.
    - rewrite Ey. exact Sc. }
  assert (existsb is_space x = true)
    by (apply existsb_exists; exists y; auto).
  congruence.
Qed.

(** X14.  The areas, the term and the origin of an extracted parcel: the two
    areas contain no white space, no ASCII letter and no comma;
    [thoi_han_su_dung] is empty, a date token, or the words "Lâu dài" in
    any letter case; [nguon_goc_su_dung] is empty or two groups of two to
    four capital letters around a hyphen. *)
Theorem parse_parcel_line_v2_areas (s : text) (p : parcel) :
  parse_parcel_line_v2 s = Some p ->
  (forall x, x = dt_rieng_m2 p \/ x = dt_chung_m2 p ->
     existsb is_space x = false /\ existsb is_ascii_alpha x = false /\
     ~ In 44 x) /\
  (thoi_han_su_dung p = [] \/ date_shaped (thoi_han_su_dung p) \/
   lau_dai (thoi_han_su_dung p)) /\
  (nguon_goc_su_dung p = [] \/ origin_shaped (nguon_goc_su_dung p)).
Proof.
  intros H.
  destruct (parse_parcel_stages _ H)
    as (_ & _ & _ & Er & Ec & _ & Et & Eo & _ & _).
  cbv zeta in *. split; [|split].
  - intros x [->| ->]; [rewrite Er|rewrite Ec];
      (split; [apply num_nonspace, token_nonspace|]);
      (split; [apply num_is_clean_parts|apply num_is_clean_parts]).
  - rewrite Et. destruct (re_match parcel_term _) as [m|] eqn:E; [|auto].
    right. exact (parcel_term_shape _ E).
  - rewrite Eo. destruct (re_search parcel_origin _) as [m|] eqn:E; [|auto].
    right. exact (parcel_origin_shape _ E).
Qed.

Lemma parse_parcel_line_v2_areas_witness :
  parse_parcel_line_v2 parcel_line = Some scenario_parcel /\
  (nguon_goc_su_dung scenario_parcel = [] \/
   origin_shaped (nguon_goc_su_dung scenario_parcel)).
Proof.
  assert (E : parse_parcel_line_v2 parcel_line = Some scenario_parcel)
    by (vm_compute; reflexivity).
  split; [exact E|]. exact (proj2 (proj2 (parse_parcel_line_v2_areas _ E))).
Defined.

(* ================================================================== *)
(** ** A line that starts with a date is a parcel line *)

Lemma date_group_matches n (K : kont) sn cs d1 s1 d2 s2 y post m :
  date_ok d1 s1 d2 s2 y = true ->
  date_ends_at y post = true ->
  K {| seen := rev (date_text d1 s1 d2 s2 y) ++ sn; rest := post;
       caps := (n, date_text d1 s1 d2 s2 y) :: cs |} = Some m ->
  mt (RE_DATE n) K
     {| seen := sn; rest := date_text d1 s1 d2 s2 y ++ post; caps := cs |}
  = Some m.
Proof.
  intros Hok Hend HK.
  set (d := date_text d1 s1 d2 s2 y) in *.
  assert (Er : d ++ post = d1 ++ s1 :: d2 ++ s2 :: y ++ post).
  { unfold d, date_text.
    repeat (rewrite <- app_assoc; cbn [app]). reflexivity. }
  assert (Es : rev d ++ sn = rev y ++ s2 :: rev d2 ++ s1 :: rev d1 ++ sn).
  { unfold d, date_text.
    repeat (rewrite rev_app_distr; cbn [rev]).
    repeat (rewrite <- app_assoc; cbn [app]). reflexivity. }
  unfold RE_DATE. rewrite mt_Grp.
  set (k := fun st' : mstate =>
              K (set_group n {| seen := sn; rest := d ++ post; caps := cs |} st')).
  assert (Hk : k {| seen := rev d ++ sn; rest := post; caps := cs |} = Some m).
  { unfold k, set_group. rewrite consumed_app. exact HK. }
  clearbody k. rewrite Er. rewrite Es in Hk.
  exact (date_body_matches k sn cs d1 s1 d2 s2 y post Hok Hend Hk).
Qed.

Lemma mt_WordB k st :
  mt WordB k st = if at_word_boundary st then k st else None.
Proof. reflexivity. Qed.

Lemma mt_Eol k st : mt Eol k st = if at_end st then k st else None.
Proof. reflexivity. Qed.

Lemma tail_group_matches n sn post cs :
  forallb (fun c => negb (c =? 10)) post = true ->
  mt (tail_group n) Some {| seen := sn; rest := post; caps := cs |}
  = Some {| seen := rev post ++ sn; rest := []; caps := (n, post) :: cs |}.
Proof.
  intros F. unfold tail_group. cbn [cat]. rewrite mt_Seq, mt_Grp.
  set (k := fun st' : mstate =>
              mt Eol Some
                 (set_group n {| seen := sn; rest := post; caps := cs |} st')).
  assert (Hk : k {| seen := rev post ++ sn; rest := []; caps := cs |}
               = Some {| seen := rev post ++ sn; rest := [];
                         caps := (n, post) :: cs |}).
  { unfold k. rewrite mt_Eol. unfold at_end, set_group, consumed.
    cbn [seen rest caps length]. rewrite Nat.sub_0_r, firstn_all. reflexivity. }
  clearbody k.
  pose proof (@star_class_run (fun c => negb (c =? 10)) post k sn [] cs _
                F eq_refl Hk) as H.
  rewrite app_nil_r in H. exact H.
Qed.

Lemma head_is_rev_last (p : Z -> bool) (y z : text) :
  y <> [] -> forallb p y = true -> head_is p (rev y ++ z) = true.
Proof.
  intros Hne F. destruct (rev y) as [|c r] eqn:E.
  - apply (f_equal (@rev Z)) in E. rewrite rev_involutive in E. contradiction.
  - simpl. rewrite forallb_forall in F. apply F. apply in_rev. rewrite E.
    left. reflexivity.
Qed.

Lemma ascii_digit_word c : is_ascii_digit c = true -> is_word c = true.
Proof.
  intros H. unfold is_word. rewrite (ascii_digit_is_digit _ H). reflexivity.
Qed.

(** After the head pattern nothing can fail. *)
Lemma parse_parcel_after_head s m0 :
  truthy (normalize_text s) = true ->
  re_match parcel_head (normalize_text s) = Some m0 ->
  exists p, parse_parcel_line_v2 s = Some p /\
            ngay_thang_vao_so p = group 1 m0.
Proof.
  intros Ht E0. unfold parse_parcel_line_v2. fold parcel_head. cbv zeta.
  rewrite Ht, E0. cbn [negb].
  match goal with
  | |- context [re_match ?r (strip is_space (group 2 m0))] =>
      destruct (re_match r (strip is_space (group 2 m0))) as [m12|]
  end;
    match goal with
    | |- context [take_token ?r] => destruct (take_token r) as [r1 rest3]
    end;
    destruct (take_token rest3) as [r2 rest4];
    match goal with
    | |- context [re_match ?r rest4] => destruct (re_match r rest4) as [m3|]
    end;
    match goal with
    | |- context [re_match ?r ?x] => destruct (re_match r x) as [m4|]
    end;
    eexists; split; reflexivity.
Qed.

(** X15.  A line of the repertoire whose normal form starts with a date
    token with an ASCII year, followed by nothing or by a character that is
    not a word character, is always accepted by [parse_parcel_line_v2]: the
    parcel returned has that date as [ngay_thang_vao_so] and the normalised
    line as [thua_raw]. *)
Theorem parse_parcel_line_v2_accepts_dated_line
  (s d1 d2 y post : text) (s1 s2 : Z) :
  latin s = true ->
  normalize_text s = date_text d1 s1 d2 s2 y ++ post ->
  date_ok d1 s1 d2 s2 y = true ->
  forallb is_ascii_digit y = true ->
  head_is is_word post = false ->
  exists p, parse_parcel_line_v2 s = Some p /\
            ngay_thang_vao_so p = date_text d1 s1 d2 s2 y /\
            thua_raw p = date_text d1 s1 d2 s2 y ++ post.
Proof.
  intros _ Et Hok Hy Hpost.
  set (d := date_text d1 s1 d2 s2 y) in *.
  assert (Hyne : y <> []).
  { unfold date_ok in Hok. rewrite !andb_true_iff in Hok.
    destruct Hok as (_ & L). apply len_between_spec in L.
    intros ->. simpl in L. lia. }
  assert (Hend : date_ends_at y post = true).
  { unfold date_ends_at. apply orb_true_iff. right. apply negb_true_iff.
    destruct post as [|c tl]; [reflexivity|]. simpl in *.
    destruct (is_digit c) eqn:E; [|reflexivity].
    unfold is_word in Hpost. rewrite E in Hpost. discriminate Hpost. }
  assert (Hdot : forallb (fun c => negb (c =? 10)) post = true).
  { apply forallb_forall. intros c Hc. apply negb_true_iff.
    destruct (Z.eqb_spec c 10) as [->|_]; [|reflexivity].
    assert (Hin : In 10 (normalize_text s))
      by (rewrite Et; apply in_or_app; right; exact Hc).
    specialize (normalize_text_plain s 10 Hin eq_refl). discriminate. }
  assert (Hw : head_is is_word (rev d ++ []) = true).
  { unfold d, date_text. rewrite !rev_app_distr. cbn [rev].
    rewrite !rev_app_distr. cbn [rev]. rewrite <- !app_assoc.
    apply head_is_rev_last; [exact Hyne|].
    rewrite forallb_forall in *. intros c Hc. apply ascii_digit_word, Hy, Hc. }
  assert (E0 : re_match parcel_head (normalize_text s)
               = Some {| seen := rev post ++ rev d ++ []; rest := [];
                         caps := [(2%nat, post); (1%nat, d)] |}).
  { rewrite Et. unfold re_match, start_state, parcel_head.
    cbn [cat]. rewrite mt_Seq.
    apply date_group_matches; [exact Hok|exact Hend|]. fold d.
    rewrite mt_Seq, mt_WordB. unfold at_word_boundary. cbn [seen rest].
    rewrite Hw, Hpost. cbn [xorb]. cbv iota.
    apply tail_group_matches, Hdot. }
  assert (Ht : truthy (normalize_text s) = true).
  { rewrite Et. unfold d, date_text.
    unfold date_ok in Hok. rewrite !andb_true_iff in Hok.
    destruct Hok as (((((((_ & L) & _) & _) & _) & _) & _) & _).
    apply len_between_spec in L. destruct d1; [simpl in L; lia|reflexivity]. }
  destruct (parse_parcel_after_head s Ht E0) as (p & Ep & En).
  exists p. split; [exact Ep|]. split.
  - rewrite En. reflexivity.
  - rewrite (proj1 (parse_parcel_stages _ Ep)). exact Et.
Qed.

Lemma parse_parcel_line_v2_accepts_dated_line_witness :
  latin (u "5/6/2001 12 3") = true /\
  head_is is_word (u " 12 3") = false /\
  exists p, parse_parcel_line_v2 (u "5/6/2001 12 3") = Some p /\
            ngay_thang_vao_so p = u "5/6/2001".
Proof.
  split; [vm_compute; reflexivity|]. split; [vm_compute; reflexivity|].
  destruct (@parse_parcel_line_v2_accepts_dated_line
              (u "5/6/2001 12 3") (u "5") (u "6") (u "2001") (u " 12 3") 47 47)
    as (p & E & En & _);
    try (vm_compute; reflexivity).
  exists p. split; [exact E|exact En].
Defined.

(* ================================================================== *)
(** ** The white-space split *)

Lemma run_token_cons c d r :
  Bool.eqb (is_space c) (is_space d) = true ->
  run_token (d :: r) = true -> run_token (c :: d :: r) = true.
Proof.
  intros E. apply eqb_prop in E. unfold run_token. simpl. rewrite E.
  destruct (is_space d); simpl; auto.
Qed.

Lemma ws_split_tokens s :
  forallb run_token (ws_split s) = true /\ alternating (ws_split s) = true.
Proof.
  induction s as [|c s (IH1 & IH2)]; [split; reflexivity|].
  simpl. destruct (ws_split s) as [|[|d r] rs].
  - split; [|reflexivity]. simpl. unfold run_token. simpl.
    destruct (is_space c); reflexivity.
  - simpl in IH1. discriminate IH1.
  - destruct (Bool.eqb (is_space c) (is_space d)) eqn:E.
    + simpl in IH1. apply andb_true_iff in IH1 as [T1 T2]. split.
      * change (forallb run_token ((c :: d :: r) :: rs))
          with (run_token (c :: d :: r) && forallb run_token rs).
        apply andb_true_iff. split; [exact (@run_token_cons c d r E T1)|exact T2].
      * apply eqb_prop in E. destruct rs as [|b rs]; [reflexivity|].
        cbn [alternating head_is] in *. rewrite E. exact IH2.
    + split.
      * change (forallb run_token ([c] :: (d :: r) :: rs))
          with (run_token [c] && forallb run_token ((d :: r) :: rs)).
        apply andb_true_iff. split; [|exact IH1]. unfold run_token. simpl.
        destruct (is_space c); reflexivity.
      * cbn [alternating head_is]. rewrite E. exact IH2.
Qed.

(** X16.  The tokens of the white-space split, joined, give the string back;
    no token is empty, each one is white space throughout or free of white
    space, and neighbouring tokens are of different kinds. *)
Theorem ws_split_runs (s : text) :
  concat (ws_split s) = s /\
  forallb run_token (ws_split s) = true /\
  alternating (ws_split s) = true.
Proof. split; [apply concat_ws_split|apply ws_split_tokens]. Qed.

(* ================================================================== *)
(** ** The best candidate *)

Section BestCandidate.

Variable convert : text -> value -> result value.

Lemma best_of_spec s cands : forall best,
  let r := best_of convert s cands best (score_vn best) in
  score_vn best <= score_vn r /\
  (r = best \/ exists cs, In cs cands /\ convert s (VStr cs) = Ret r) /\
  (forall cs t, In cs cands -> convert s (VStr cs) = Ret t ->
                score_vn t <= score_vn r).
Proof.
  induction cands as [|c cands IH]; intros best; cbv zeta; simpl.
  - split; [lia|]. split; [auto|]. intros cs t [].
  - destruct (convert s (VStr c)) as [t|e] eqn:E.
    + destruct (score_vn t >? score_vn best) eqn:G.
      * destruct (IH t) as (A & B & C). cbv zeta in *.
        apply Z.gtb_lt in G. split; [lia|]. split.
        { right. destruct B as [B|(cs & I & B)].
          - exists c. rewrite B. auto.
          - exists cs. auto. }
        intros cs t' [<-|I] Et.
        { rewrite E in Et. injection Et as <-. exact A. }
        exact (C cs t' I Et).
      * destruct (IH best) as (A & B & C). cbv zeta in *.
        split; [exact A|]. split.
        { destruct B as [B|(cs & I & B)]; [auto|]. right. exists cs. auto. }
        intros cs t' [<-|I] Et.
        { rewrite E in Et. injection Et as <-.
          assert (score_vn t <= score_vn best).
          { destruct (Z.gtb_spec (score_vn t) (score_vn best)); [discriminate|lia]. }
          lia. }
        exact (C cs t' I Et).
    + destruct (IH best) as (A & B & C). cbv zeta in *.
      split; [exact A|]. split.
      { destruct B as [B|(cs & I & B)]; [auto|]. right. exists cs. auto. }
      intros cs t' [<-|I] Et.
      { rewrite E in Et. discriminate Et. }
      exact (C cs t' I Et).
Qed.

(** X17.  Whatever the converter does, raise or answer any object,
    [convert_best] returns the input or the conversion of the input under
    one of the candidate code pages; its score is at least the score of the
    input and at least the score of every candidate conversion that did not
    raise; it is always a [str].  The whole-line pass never lowers the
    score either. *)
Theorem convert_best_is_best (s : text) :
  score_vn (VStr s) <= score_vn (convert_best convert s) /\
  (convert_best convert s = VStr s \/
   exists cs, In cs CANDIDATES /\
              convert s (VStr cs) = Ret (convert_best convert s)) /\
  (forall cs t, In cs CANDIDATES -> convert s (VStr cs) = Ret t ->
                score_vn t <= score_vn (convert_best convert s)) /\
  (exists t, convert_best convert s = VStr t) /\
  score_vn (VStr s) <= score_vn (rescue_line convert s).
Proof.
  destruct (best_of_spec s CANDIDATES (VStr s)) as (A & B & C). cbv zeta in *.
  fold (convert_best convert s) in A, B, C.
  split; [exact A|]. split; [exact B|]. split; [exact C|].
  split; [apply convert_best_str|].
  unfold rescue_line. destruct (has_marker s); [|lia].
  destruct (score_vn (convert_best convert s) >? score_vn (VStr s));
    [exact A|lia].
Qed.

End BestCandidate.

(* ================================================================== *)
(** ** Cell text *)

Section ToTextFacts.

Variable detectCharset : text -> result value.
Variable convert : text -> value -> result value.

(** X18.  [to_text] of [test.py]: [None] gives the empty string; whatever it
    returns is in the normal form of [normalize_text]; it returns whenever
    detection returns on the word tokens and no conversion from a detected
    charset answers an object that is not a [str] (none does when the
    converter answers strings only); and on clean text it is
    [normalize_text]. *)
Theorem to_text_is_normalized :
  to_text detectCharset convert None = Ret [] /\
  (forall v r, to_text detectCharset convert v = Ret r -> normal r = true) /\
  (forall s, detection_returns detectCharset s ->
             conversions_are_str detectCharset convert s ->
             exists r, to_text detectCharset convert (Some s) = Ret r) /\
  (forall s, clean detectCharset s ->
             to_text detectCharset convert (Some s) = Ret (normalize_text s)).
Proof.
  split; [reflexivity|]. split; [|split].
  - intros [s|] r H; unfold to_text in H.
    + destruct (fix_mixed_to_unicode detectCharset convert (VStr s))
        as [[|t|b]|e]; cbn [bind] in H; try discriminate H.
      injection H as <-. apply normalize_text_is_normal.
    + injection H as <-. reflexivity.
  - intros s Hd Hc. unfold to_text.
    destruct (rescue_returns Hd Hc) as (r & E). rewrite E.
    cbn [bind]. eauto.
  - intros s Hc. unfold to_text.
    rewrite (rescue_clean convert Hc). reflexivity.
Qed.

End ToTextFacts.

Lemma convert_best_is_best_witness :
  In (u "TCVN3") CANDIDATES /\
  chain_convert (u "¬") (VStr (u "TCVN3")) = Ret (VStr (u "ã")) /\
  score_vn (VStr (u "ã")) <= score_vn (convert_best chain_convert (u "¬")).
Proof.
  assert (I : In (u "TCVN3") CANDIDATES) by (left; reflexivity).
  assert (E : chain_convert (u "¬") (VStr (u "TCVN3")) = Ret (VStr (u "ã")))
    by (vm_compute; reflexivity).
  split; [exact I|]. split; [exact E|].
  exact (proj1 (proj2 (proj2 (convert_best_is_best chain_convert (u "¬"))))
               (u "TCVN3") (VStr (u "ã")) I E).
Defined.

Lemma to_text_is_normalized_witness :
  clean chain_detect (u "nơi  cấp ") /\
  to_text chain_detect chain_convert (Some (u "nơi  cấp "))
  = Ret (normalize_text (u "nơi  cấp ")).
Proof.
  assert (H : clean chain_detect (u "nơi  cấp ")).
  { split; [vm_compute; reflexivity|].
    intros tok _ _. exists (VStr (u "UNICODE")).
    split; vm_compute; reflexivity. }
  split; [exact H|].
  exact (proj2 (proj2 (proj2 (to_text_is_normalized chain_detect chain_convert)))
               (u "nơi  cấp ") H).
Defined.

(* ================================================================== *)
(** ** The household-based segmenter of [app.py] *)

Lemma app_flush_people st :
  concat (App.records (App.flush st)) ++ App.household (App.flush st)
  = concat (App.records st) ++ App.household st.
Proof.
  unfold App.flush. destruct (App.household st) as [|p h] eqn:E.
  - rewrite E. reflexivity.
  - simpl. rewrite concat_app. simpl. rewrite !app_nil_r. reflexivity.
Qed.

Lemma app_flush_nonempty st :
  Forall (fun h : list person => h <> []) (App.records st) ->
  Forall (fun h : list person => h <> []) (App.records (App.flush st)).
Proof.
  intros H. unfold App.flush. destruct (App.household st) as [|p h] eqn:E.
  - exact H.
  - simpl. apply Forall_app. split; [exact H|].
    constructor; [discriminate|constructor].
Qed.

Lemma app_add_person_records st s :
  App.records (App.add_person st s) = App.records st.
Proof. unfold App.add_person. destruct (App.parse_person s); reflexivity. Qed.

Lemma app_step_nonempty st raw :
  Forall (fun h : list person => h <> []) (App.records st) ->
  Forall (fun h : list person => h <> []) (App.records (App.step st raw)).
Proof.
  intros H. unfold App.step. cbv zeta.
  destruct (negb (truthy (strip is_space raw))); [apply app_flush_nonempty, H|].
  destruct (App.is_household_header _);
    [rewrite app_add_person_records; apply app_flush_nonempty, H|].
  destruct (App.is_plain_honorific_header _);
    [rewrite app_add_person_records; apply app_flush_nonempty, H|].
  destruct (App.is_address_line _); [exact H|].
  rewrite app_add_person_records. exact H.
Qed.

(** X19.  The household-based [group_records] of [app.py] never returns an
    empty household: its [flush] only closes a household that holds a
    person. *)
Theorem app_group_records_households_not_empty (lines : list text) :
  Forall (fun h : list person => h <> []) (App.group_records lines).
Proof.
  unfold App.group_records. apply app_flush_nonempty.
  set (st0 := {| App.records := []; App.household := [] |}).
  assert (H0 : Forall (fun h : list person => h <> []) (App.records st0))
    by constructor.
  clearbody st0. revert st0 H0.
  induction lines as [|l lines IH]; intros st0 H0; simpl; [exact H0|].
  apply IH, app_step_nonempty, H0.
Qed.

Lemma app_parse_person_stripped raw :
  App.parse_person (strip is_space raw) = App.parse_person raw.
Proof. unfold App.parse_person. rewrite strip_space_idem. reflexivity. Qed.

Lemma app_add_person_people st s :
  concat (App.records (App.add_person st s)) ++ App.household (App.add_person st s)
  = (concat (App.records st) ++ App.household st) ++ olist (App.parse_person s).
Proof.
  unfold App.add_person. destruct (App.parse_person s); simpl.
  - rewrite app_assoc. reflexivity.
  - rewrite app_nil_r. reflexivity.
Qed.

Lemma app_parse_person_blank s :
  truthy (strip is_space s) = false -> App.parse_person s = None.
Proof. intros H. unfold App.parse_person. cbv zeta. rewrite H. reflexivity. Qed.

Lemma app_parse_person_address s :
  App.is_address_line (strip is_space s) = true -> App.parse_person s = None.
Proof.
  intros H. unfold App.parse_person. cbv zeta. rewrite H.
  rewrite orb_true_r. reflexivity.
Qed.

Lemma app_step_people st raw :
  concat (App.records (App.step st raw)) ++ App.household (App.step st raw)
  = (concat (App.records st) ++ App.household st)
    ++ olist (App.parse_person raw).
Proof.
  unfold App.step. cbv zeta.
  destruct (truthy (strip is_space raw)) eqn:T; cbn [negb].
  2:{ rewrite (app_parse_person_blank _ T). simpl. rewrite app_nil_r.
      apply app_flush_people. }
  destruct (App.is_household_header _).
  { rewrite app_add_person_people, app_flush_people, app_parse_person_stripped.
    reflexivity. }
  destruct (App.is_plain_honorific_header _).
  { rewrite app_add_person_people, app_flush_people, app_parse_person_stripped.
    reflexivity. }
  destruct (App.is_address_line _) eqn:A.
  { rewrite (app_parse_person_address _ A). simpl. rewrite app_nil_r.
    reflexivity. }
  rewrite app_add_person_people, app_parse_person_stripped. reflexivity.
Qed.

(** X20.  The household-based [group_records] of [app.py] neither loses nor
    duplicates a person: its households, concatenated, are exactly the
    persons that [parse_person] reads from the lines, in the order of the
    lines. *)
Theorem app_group_records_keeps_every_person (lines : list text) :
  concat (App.group_records lines)
  = flat_map (fun raw => olist (App.parse_person raw)) lines.
Proof.
  unfold App.group_records.
  set (st0 := {| App.records := []; App.household := [] |}).
  assert (G : forall st,
    concat (App.records (App.flush (fold_left App.step lines st)))
    = (concat (App.records st) ++ App.household st)
      ++ flat_map (fun raw => olist (App.parse_person raw)) lines).
  { induction lines as [|l lines IH]; intros st; simpl.
    - rewrite app_nil_r.
      pose proof (app_flush_people st) as F.
      assert (E : App.household (App.flush st) = []).
      { unfold App.flush. destruct (App.household st) eqn:E; [exact E|reflexivity]. }
      rewrite E, app_nil_r in F. exact F.
    - rewrite IH, app_step_people, <- app_assoc. reflexivity. }
  rewrite (G st0). reflexivity.
Qed.
